(** * The Hammer configuration database: a shallow embedding

    This development embeds [src/hammer_config/config_src.py] in Rocq and
    proves properties of the flattener, the meta-directive registry, the
    eager evaluator [update_and_expand_meta], the lazy scheduler inside
    [combine_configs] and the cache of [HammerDatabase].

    Modelling conventions.
    - A Python [dict] is an association list in insertion order: the order
      in which [update_and_expand_meta] meets the [_meta] keys, and the
      order of [graph.items()], are observable.
    - A Python [str] is a Rocq [string], read as its UTF-8 bytes; the
      character classes of the substitution regex are the ASCII ones.
    - Python values are immutable terms; an in-place update of a list or
      of a dictionary is written as the update of the entry holding it.
    - A raised exception is the [Raise] case of [result]; the constructors
      of [exn] follow the exception classes and the raise sites.
    - What Python or its standard library computes outside this module
      (file contents, the JSON parser and printer, [str] and [int] on
      values that are not integers, float arithmetic) is a field of
      [World]. *)

From Stdlib Require Import String Ascii List ZArith Bool Arith Lia.
From Stdlib Require Import DecimalString Sorted Permutation Btauto FinFun.
Import ListNotations.
Open Scope string_scope.
Open Scope list_scope.

(** String concatenation, Python's [+] on [str]. *)
Infix "+++" := String.append (right associativity, at level 60).

(** ** Values *)

(** A setting value.  [VFloat] carries the binary64 bit pattern; floats
    are only moved around by this module. *)
#[warnings="-register-all"]
Inductive Value : Type :=
| VNull
| VBool (b : bool)
| VInt (z : Z)
| VFloat (bits : Z)
| VStr (s : string)
| VList (l : list Value)
| VDict (d : list (string * Value)).

Definition dict : Type := list (string * Value).

(** ** Exceptions *)

Inductive value_error : Type :=
| AppendToNonListSetting (key : string)     (* "Trying to append to non-list setting" *)
| AppendNonList (key : string)              (* "Trying to append to list ... with non-list" *)
| CrossrefListOfStrings                     (* "crossref (if used with lists) can only be used only with lists of strings" *)
| CrossrefNumber                            (* "crossref cannot be used with numbers and bools" *)
| MetaNotStrOrList                          (* "A meta directive must either be a string or a list of strings" *)
| DynamicMeta (meta_type : string)          (* "Dynamic meta directives were renamed to lazy ..." *)
| LazyMetaUnsupported (meta_key meta_type : string)
| MultipleLazy                              (* "Multiple lazy directives in a single directive array not supported yet" *)
| RenameFailed (setting : string)           (* "Failed to rename lazy setting which depends on itself" *)
| NonLazyAfterLazy                          (* "Cannot use a non-lazy meta directive after a lazy one" *)
| MetaUnsupported (meta_key meta_type : string)
| LazyLoop                                  (* "There appears to be a loop of lazy settings" *)
| BadIntLiteral                             (* int() of a string that is no integer *)
| FloatNaN.                                 (* int() of a NaN *)

Inductive type_error : Type :=
| MetaTypeNotString                         (* "meta_type was not a string" *)
| BadOperand.                               (* an operation applied to a value of the wrong type *)

Inductive exn : Type :=
| KeyError (key : string)
| ValueError (e : value_error)
| TypeError (e : type_error)
| AssertionError
| NotImplementedError
| AttributeError
| OverflowError
| OSError
| JSONDecodeError.

Inductive result (A : Type) : Type :=
| OK (a : A)
| Raise (e : exn).
Arguments OK {A} a.
Arguments Raise {A} e.

Definition bind {A B : Type} (r : result A) (k : A -> result B) : result B :=
  match r with
  | OK a => k a
  | Raise e => Raise e
  end.

Declare Scope py_scope.
Delimit Scope py_scope with py.
Notation "x <- c1 ;; c2" := (bind c1 (fun x => c2))
  (at level 61, c1 at next level, right associativity) : py_scope.
Notation "' pat <- c1 ;; c2" := (bind c1 (fun x => match x with pat => c2 end))
  (at level 61, pat pattern, c1 at next level, right associativity) : py_scope.
Open Scope py_scope.

(** [reduce(f, xs, init)] for an [f] that may raise. *)
Fixpoint reduce {A B : Type} (f : A -> B -> result A) (xs : list B) (init : A) : result A :=
  match xs with
  | [] => OK init
  | x :: rest => a <- f init x ;; reduce f rest a
  end.

(** [list(map(f, xs))] for an [f] that may raise: the first failure wins. *)
Fixpoint map_result {A B : Type} (f : A -> result B) (xs : list A) : result (list B) :=
  match xs with
  | [] => OK []
  | x :: rest => y <- f x ;; ys <- map_result f rest ;; OK (y :: ys)
  end.

Definition assert (b : bool) : result unit :=
  if b then OK tt else Raise AssertionError.

(** ** Strings *)

(** [s.startswith(p)] *)
Definition startswith (s p : string) : bool := String.prefix p s.

(** [s.endswith(suf)] *)
Fixpoint endswith (s suf : string) : bool :=
  (s =? suf) ||
  match s with
  | EmptyString => false
  | String _ rest => endswith rest suf
  end.

(** [s[n:]] *)
Fixpoint drop_str (n : nat) (s : string) : string :=
  match n, s with
  | O, _ => s
  | S k, String _ rest => drop_str k rest
  | S _, EmptyString => EmptyString
  end.

(** [s[:-n]] for [n > 0] *)
Definition drop_end (n : nat) (s : string) : string :=
  String.substring 0 (String.length s - n) s.

(** ["{}".format(i)] for an integer [i] *)
Definition format_int (i : Z) : string := NilZero.string_of_int (Z.to_int i).

(** ** Dictionaries *)

(** The operations are those of a Python [dict] with string keys; they are
    written once for all value types, since the dependency graph of the
    lazy scheduler is a [dict] too. *)

Definition dict_keys {A : Type} (d : list (string * A)) : list string := map fst d.

Fixpoint dict_get {A : Type} (k : string) (d : list (string * A)) : option A :=
  match d with
  | [] => None
  | (k', v) :: rest => if (k' =? k)%string then Some v else dict_get k rest
  end.

(** [k in d] *)
Definition dict_mem {A : Type} (k : string) (d : list (string * A)) : bool :=
  match dict_get k d with Some _ => true | None => false end.

(** [d[k]] *)
Definition getitem {A : Type} (d : list (string * A)) (k : string) : result A :=
  match dict_get k d with
  | Some v => OK v
  | None => Raise (KeyError k)
  end.

(** [d[k] = v]: an existing key keeps its place, a new key goes last. *)
Fixpoint dict_set {A : Type} (d : list (string * A)) (k : string) (v : A) : list (string * A) :=
  match d with
  | [] => [(k, v)]
  | (k', v') :: rest =>
      if (k' =? k)%string then (k, v) :: rest else (k', v') :: dict_set rest k v
  end.

Definition dict_remove {A : Type} (d : list (string * A)) (k : string) : list (string * A) :=
  filter (fun kv => negb (fst kv =? k)%string) d.

(** [del d[k]] *)
Definition delitem {A : Type} (d : list (string * A)) (k : string) : result (list (string * A)) :=
  if dict_mem k d then OK (dict_remove d k) else Raise (KeyError k).

(** [d1.update(d2)] *)
Definition dict_update {A : Type} (d1 d2 : list (string * A)) : list (string * A) :=
  fold_left (fun d kv => dict_set d (fst kv) (snd kv)) d2 d1.

(** [d.get(k, default)] *)
Definition dict_get_default {A : Type} (d : list (string * A)) (k : string) (default : A) : A :=
  match dict_get k d with Some v => v | None => default end.

(** A dictionary display [{k1: v1, ..., kn: vn}]. *)
Definition dict_literal {A : Type} (items : list (string * A)) : list (string * A) :=
  dict_update [] items.

(** ** The world outside the module *)

Record World : Type := {
  (** [open(path, "r").read()]; [None] when the file cannot be read *)
  read_file : string -> option string;
  (** [json.loads]; [None] when the text is not JSON *)
  json_loads : string -> option Value;
  (** [json.dumps(v, sort_keys=True, indent=4, separators=(',', ': '))] *)
  json_dumps : Value -> string;
  (** [str(v)] for a float, a list or a mapping *)
  str_other : Value -> string;
  (** [int(s)] for a string [s]; [None] when [s] is no integer literal *)
  int_of_str : string -> option Z;
  (** [int(f)] for a float; [None] for an infinity or a NaN *)
  int_of_float : Z -> option Z;
  (** whether the float is a NaN *)
  float_is_nan : Z -> bool;
  (** [a + b] when one operand is a float and the other a number; [None]
      when an integer operand is too large for a float *)
  float_add : Value -> Value -> option Value
}.

(** Special key used for meta directives which require config paths. *)
Definition _CONFIG_PATH_KEY : string := "_config_path".

(** Special key used to keep track of the next available integer suffix. *)
Definition _NEXT_FREE_INDEX_KEY : string := "_next_free_index".

(** ** The substitution regex [\${([a-zA-Z_\-\d.]+)}] *)

(** The characters of the class.  A character of a string is a code point
    below 256; among those the decimal digits, which are what [\d]
    matches in a [str] pattern, are the ASCII digits.  Text with code
    points from 256 on, where [\d] matches further digits, cannot be
    written in the strings used here. *)
Definition is_var_char (c : ascii) : bool :=
  let n := nat_of_ascii c in
  (((97 <=? n) && (n <=? 122)) || ((65 <=? n) && (n <=? 90)) ||
   (n =? 95) || (n =? 45) || ((48 <=? n) && (n <=? 57)) || (n =? 46))%nat.

(** The longest run of class characters at the head of [s], and the rest. *)
Fixpoint take_var (s : string) : string * string :=
  match s with
  | String c rest =>
      if is_var_char c
      then let (name, tail) := take_var rest in (String c name, tail)
      else (EmptyString, s)
  | EmptyString => (EmptyString, EmptyString)
  end.

(** A match of the regex at the head of [s]: group 1.  The class does not
    contain the closing brace, so the greedy run is the only candidate. *)
Definition match_var (s : string) : option string :=
  match s with
  | String "$" (String "{" rest) =>
      match take_var rest with
      | (String c name, String "}" _) => Some (String c name)
      | _ => None
      end
  | _ => None
  end.

(** The left-to-right scan shared by [re.sub] and [re.finditer]: the
    non-overlapping matches, and the characters between them. *)
Inductive token : Type :=
| TChar (c : ascii)
| TVar (name : string).

Fixpoint scan (skip : nat) (s : string) : list token :=
  match s with
  | EmptyString => []
  | String c rest =>
      match skip with
      | S k => scan k rest
      | O =>
          match match_var s with
          | Some name => TVar name :: scan (String.length name + 2) rest
          | None => TChar c :: scan 0 rest
          end
      end
  end.

Definition tokens (s : string) : list token := scan 0 s.

(** [re.sub(REGEX, lambda x: replacement_func(x.group(1)), input_str)]
    for a replacement that returns strings. *)
Definition subst_str (input_str : string) (replacement_func : string -> string) : string :=
  String.concat EmptyString
    (map (fun t => match t with
                   | TChar c => String c EmptyString
                   | TVar name => replacement_func name
                   end) (tokens input_str)).

(** The same with a replacement that reads a dictionary.  The replacement
    runs during the scan, so a missing key is raised first; [re.sub] then
    drops a replacement that is [None] and joins the others, which raises
    on one that is not a string. *)
Definition subst_pieces (config_dict : dict) (input_str : string) : result (list Value) :=
  map_result (fun t => match t with
                       | TChar c => OK (VStr (String c EmptyString))
                       | TVar name => getitem config_dict name
                       end) (tokens input_str).

Fixpoint join_pieces (ps : list Value) : result string :=
  match ps with
  | [] => OK EmptyString
  | VNull :: rest => join_pieces rest
  | VStr s :: rest => t <- join_pieces rest ;; OK (s +++ t)
  | _ :: _ => Raise (TypeError BadOperand)
  end.

Definition subst_str_dict (config_dict : dict) (input : Value) : result Value :=
  match input with
  | VStr s =>
      ps <- subst_pieces config_dict s ;;
      r <- join_pieces ps ;;
      OK (VStr r)
  | _ => Raise (TypeError BadOperand)
  end.

(** ** Python built-ins used by the directives *)

Section Config.

Variable w : World.

(** [str(v)] *)
Definition py_str (v : Value) : string :=
  match v with
  | VStr s => s
  | VInt z => format_int z
  | VBool true => "True"
  | VBool false => "False"
  | VNull => "None"
  | _ => str_other w v
  end.

(** [int(v)] *)
Definition py_int (v : Value) : result Z :=
  match v with
  | VInt z => OK z
  | VBool b => OK (Z.b2z b)
  | VStr s =>
      match int_of_str w s with
      | Some z => OK z
      | None => Raise (ValueError BadIntLiteral)
      end
  | VFloat f =>
      match int_of_float w f with
      | Some z => OK z
      | None => if float_is_nan w f then Raise (ValueError FloatNaN) else Raise OverflowError
      end
  | _ => Raise (TypeError BadOperand)
  end.

(** [a + b] *)
Definition py_add (a b : Value) : result Value :=
  match a, b with
  | VList x, VList y => OK (VList (x ++ y))
  | VStr x, VStr y => OK (VStr (x +++ y))
  | VInt x, VInt y => OK (VInt (x + y))
  | VInt x, VBool y => OK (VInt (x + Z.b2z y))
  | VBool x, VInt y => OK (VInt (Z.b2z x + y))
  | VBool x, VBool y => OK (VInt (Z.b2z x + Z.b2z y))
  | VFloat _, VFloat _ | VFloat _, VInt _ | VFloat _, VBool _
  | VInt _, VFloat _ | VBool _, VFloat _ =>
      match float_add w a b with
      | Some r => OK r
      | None => Raise OverflowError
      end
  | _, _ => Raise (TypeError BadOperand)
  end.

(** [os.path.join(a, b)] on a POSIX system *)
Definition path_join (a b : string) : string :=
  if startswith b "/" then b
  else if (a =? EmptyString)%string || endswith a "/" then a +++ b
  else a +++ "/" +++ b.

(** Modelled from the spec: [hammer_utils.deepdict] is not among the
    sources; the evaluator uses it to "copy W into W'" and to take a
    "local mutable copy" of the provider.  Values are immutable here, so
    the copy is the dictionary itself. *)
Definition deepdict (d : dict) : dict := d.

(** Get the next free index in the given dictionary; the second component
    is the dictionary after the side effect. *)
Definition _get_next_free_index (d : dict) : result (Z * dict) :=
  let d1 := if dict_mem _NEXT_FREE_INDEX_KEY d then d
            else dict_set d _NEXT_FREE_INDEX_KEY (VInt 1) in
  v <- getitem d1 _NEXT_FREE_INDEX_KEY ;;
  next_index <- py_int v ;;
  OK (next_index, dict_set d1 _NEXT_FREE_INDEX_KEY (VInt (next_index + 1))).

(** ** The meta-directive registry *)

Record MetaDirectiveParams : Type := { meta_path : Value }.

(** What [rename_target] returns: [None], or the new value with the new
    meta type; or it raises. *)
Definition rename_result : Type := result (option (Value * string)).

Record MetaDirective : Type := {
  action : dict -> string -> Value -> MetaDirectiveParams -> result dict;
  target_settings : string -> Value -> result (list string);
  rename_target : string -> Value -> string -> string -> rename_result
}.

(** [config_dict[key] += value] extends the list that the key holds.
    Dictionaries hold values here, so the extended list is stored at the
    key.  Where another key holds the same list object, as [crossref] on a
    single name leaves it, the source extends the list under that key
    too, which a dictionary of values does not show. *)
Definition append_action (config_dict : dict) (key : string) (value : Value)
    (params : MetaDirectiveParams) : result dict :=
  let config_dict := if dict_mem key config_dict then config_dict
                     else dict_set config_dict key (VList []) in
  cur <- getitem config_dict key ;;
  match cur with
  | VList l =>
      match value with
      | VList v => OK (dict_set config_dict key (VList (l ++ v)))
      | _ => Raise (ValueError (AppendNonList key))
      end
  | _ => Raise (ValueError (AppendToNonListSetting key))
  end.

Definition append_rename (key : string) (value : Value)
    (target_setting replacement_setting : string) : rename_result :=
  OK (Some (VList [VStr replacement_setting; value], "crossappend")).

Definition crossappend_decode (value : Value) : result (string * list Value) :=
  match value with
  | VList [VStr target_setting; VList append_value] => OK (target_setting, append_value)
  | _ => Raise AssertionError
  end.

Definition crossappend_action (config_dict : dict) (key : string) (value : Value)
    (params : MetaDirectiveParams) : result dict :=
  '(target_setting, append_value) <- crossappend_decode value ;;
  base <- getitem config_dict target_setting ;;
  r <- py_add base (VList append_value) ;;
  OK (dict_set config_dict key r).

Definition crossappend_targets (key : string) (value : Value) : result (list string) :=
  '(target_setting, append_value) <- crossappend_decode value ;;
  OK [target_setting].

Definition crossappend_rename (key : string) (value : Value)
    (target_setting replacement_setting : string) : rename_result :=
  '(crossappend_target, append_value) <- crossappend_decode value ;;
  OK (Some (VList [VStr (if (crossappend_target =? target_setting)%string
                         then replacement_setting else crossappend_target);
                   VList append_value], "crossappend")).

Definition crossappendref_decode (value : Value) : result (string * string) :=
  match value with
  | VList [VStr target_key; VStr append_key] => OK (target_key, append_key)
  | _ => Raise AssertionError
  end.

Definition crossappendref_action (config_dict : dict) (key : string) (value : Value)
    (params : MetaDirectiveParams) : result dict :=
  '(target_setting, append_setting) <- crossappendref_decode value ;;
  a <- getitem config_dict target_setting ;;
  b <- getitem config_dict append_setting ;;
  r <- py_add a b ;;
  OK (dict_set config_dict key r).

Definition crossappendref_targets (key : string) (value : Value) : result (list string) :=
  '(target_setting, append_setting) <- crossappendref_decode value ;;
  OK [target_setting; append_setting].

Definition crossappendref_rename (key : string) (value : Value)
    (target_setting replacement_setting : string) : rename_result :=
  '(target, append) <- crossappendref_decode value ;;
  let replace_if_target_setting (setting : string) :=
    if (setting =? target_setting)%string then replacement_setting else setting in
  OK (Some (VList [VStr (replace_if_target_setting target);
                   VStr (replace_if_target_setting append)], "crossappendref")).

Definition subst_action (config_dict : dict) (key : string) (value : Value)
    (params : MetaDirectiveParams) : result dict :=
  newval <- match value with
            | VList l => items <- map_result (subst_str_dict config_dict) l ;; OK (VList items)
            | _ => subst_str_dict config_dict value
            end ;;
  OK (dict_set config_dict key newval).

Definition var_names (ts : list token) : list string :=
  flat_map (fun t => match t with TVar name => [name] | TChar _ => [] end) ts.

Definition subst_targets (key : string) (value : Value) : result (list string) :=
  match value with
  | VStr s => OK (var_names (tokens s))
  | _ => Raise AssertionError
  end.

Definition subst_rename (key : string) (value : Value)
    (target_setting replacement_setting : string) : rename_result :=
  match value with
  | VStr s =>
      if existsb (String.eqb target_setting) (var_names (tokens s))
      then
        let new_value :=
          subst_str s (fun key => if (key =? target_setting)%string
                                  then "${" +++ replacement_setting +++ "}"
                                  else key) in
        OK (Some (VStr new_value, "subst"))
      else OK None
  | _ => Raise AssertionError
  end.

Definition crossref_check_and_cast (k : Value) : result string :=
  match k with
  | VStr s => OK s
  | _ => Raise (ValueError CrossrefListOfStrings)
  end.

Definition crossref_action (config_dict : dict) (key : string) (value : Value)
    (params : MetaDirectiveParams) : result dict :=
  match value with
  | VStr s => v <- getitem config_dict s ;; OK (dict_set config_dict key v)
  | VList l =>
      let check_and_get k :=
        s <- crossref_check_and_cast k ;; getitem config_dict s in
      vs <- map_result check_and_get l ;;
      OK (dict_set config_dict key (VList vs))
  | VInt _ | VFloat _ | VBool _ => Raise (ValueError CrossrefNumber)
  | _ => Raise NotImplementedError
  end.

Definition crossref_targets (key : string) (value : Value) : result (list string) :=
  match value with
  | VStr s => OK [s]
  | VList l => map_result crossref_check_and_cast l
  | VInt _ | VFloat _ | VBool _ => Raise (ValueError CrossrefNumber)
  | _ => Raise NotImplementedError
  end.

Definition crossref_rename (key : string) (value : Value)
    (target_setting replacement_setting : string) : rename_result :=
  let change_if_target (x : string) :=
    if (x =? target_setting)%string then replacement_setting else x in
  match value with
  | VStr s => OK (Some (VList [VStr (change_if_target s)], "crossref"))
  | VList l =>
      names <- map_result crossref_check_and_cast l ;;
      OK (Some (VList (map (fun x => VStr (change_if_target x)) names), "crossref"))
  | VInt _ | VFloat _ | VBool _ => Raise (ValueError CrossrefNumber)
  | _ => Raise NotImplementedError
  end.

Definition transclude_action (config_dict : dict) (key : string) (value : Value)
    (params : MetaDirectiveParams) : result dict :=
  match value with
  | VStr path =>
      match read_file w path with
      | Some file_contents => OK (dict_set config_dict key (VStr file_contents))
      | None => Raise OSError
      end
  | _ => Raise AssertionError
  end.

Definition transclude_rename (key : string) (value : Value)
    (target_setting replacement_setting : string) : rename_result :=
  OK (Some (value, "transclude")).

Definition json2list_action (config_dict : dict) (key : string) (value : Value)
    (params : MetaDirectiveParams) : result dict :=
  match value with
  | VStr text =>
      match json_loads w text with
      | Some (VList parsed) => OK (dict_set config_dict key (VList parsed))
      | Some _ => Raise AssertionError
      | None => Raise JSONDecodeError
      end
  | _ => Raise AssertionError
  end.

Definition json2list_rename (key : string) (value : Value)
    (target_setting replacement_setting : string) : rename_result :=
  OK (Some (value, "json2list")).

Definition prependlocal_action (config_dict : dict) (key : string) (value : Value)
    (params : MetaDirectiveParams) : result dict :=
  match meta_path params with
  | VStr dir => OK (dict_set config_dict key (VStr (path_join dir (py_str value))))
  | _ => Raise (TypeError BadOperand)
  end.

Definition prependlocal_rename (key : string) (value : Value)
    (target_setting replacement_setting : string) : rename_result :=
  OK (Some (value, "prependlocal")).

(** Get all meta directives available, indexed by action, in the order of
    their registration. *)
Definition get_meta_directives : list (string * MetaDirective) :=
  [ ("append",
      {| action := append_action;
         target_settings := fun key value => OK [key];
         rename_target := append_rename |});
    ("crossappend",
      {| action := crossappend_action;
         target_settings := crossappend_targets;
         rename_target := crossappend_rename |});
    ("crossappendref",
      {| action := crossappendref_action;
         target_settings := crossappendref_targets;
         rename_target := crossappendref_rename |});
    ("subst",
      {| action := subst_action;
         target_settings := subst_targets;
         rename_target := subst_rename |});
    ("crossref",
      {| action := crossref_action;
         target_settings := crossref_targets;
         rename_target := crossref_rename |});
    ("transclude",
      {| action := transclude_action;
         target_settings := fun key value => OK [];
         rename_target := transclude_rename |});
    ("json2list",
      {| action := json2list_action;
         target_settings := fun key value => OK [];
         rename_target := json2list_rename |});
    ("prependlocal",
      {| action := prependlocal_action;
         target_settings := fun key value => OK [];
         rename_target := prependlocal_rename |}) ].

(** [get_meta_directives()[name]], and [name in get_meta_directives()] *)
Fixpoint lookup_directive (name : string) (ds : list (string * MetaDirective)) : option MetaDirective :=
  match ds with
  | [] => None
  | (n, d) :: rest => if (n =? name)%string then Some d else lookup_directive name rest
  end.

Definition directive (name : string) : option MetaDirective :=
  lookup_directive name get_meta_directives.

End Config.

(** ** The eager evaluator *)

Section Evaluator.

Variable w : World.

(** The state of the loop over one directive list: [newdict], the local
    copy [meta_dict] and [seen_lazy]. *)
Definition directive_state : Type := (dict * dict * bool)%type.

(** The part of the body of [for meta_type in meta_directives] that
    handles a lazy meta whose base directive is [d]: the lazy meta is
    stored for later, after renaming its base setting when it references
    itself. *)
Definition expand_lazy_meta (d : MetaDirective) (meta_type setting : string)
    (newdict meta_dict : dict) : result directive_state :=
  value <- getitem meta_dict setting ;;
  targets <- target_settings d setting value ;;
  if (0 <? List.length (filter (fun x => (x =? setting)%string) targets))%nat then
    '(next_index, newdict) <- _get_next_free_index w newdict ;;
    let new_base_setting := setting +++ "_" +++ format_int next_index in
    new_value_meta <- rename_target d setting value setting new_base_setting ;;
    match new_value_meta with
    | None => Raise (ValueError (RenameFailed setting))
    | Some (new_value, new_meta) =>
        old <- getitem newdict setting ;;
        let update_dict :=
          dict_update []
            (dict_literal [ (new_base_setting, old);
                            (setting, new_value);
                            (setting +++ "_meta", VStr ("lazy" +++ new_meta)) ]) in
        let update_dict :=
          match dict_get (setting +++ "_meta") newdict with
          | Some old_meta =>
              dict_update update_dict
                (dict_literal [ (new_base_setting +++ "_meta", old_meta) ])
          | None => update_dict
          end in
        OK (dict_update newdict update_dict, meta_dict, true)
    end
  else
    let update_dict :=
      dict_update []
        (dict_literal [ (setting, value);
                        (setting +++ "_meta", VStr meta_type) ]) in
    OK (dict_update newdict update_dict, meta_dict, true).

(** The part that runs an eager directive [d]. *)
Definition expand_eager_meta (d : MetaDirective) (setting : string)
    (newdict meta_dict : dict) (seen_lazy : bool) : result directive_state :=
  value <- getitem meta_dict setting ;;
  let params :=
    {| meta_path := dict_get_default meta_dict _CONFIG_PATH_KEY (VStr "unspecified") |} in
  newdict <- action d newdict setting value params ;;
  v <- getitem newdict setting ;;
  OK (newdict, dict_set meta_dict setting v, seen_lazy).

(** The body of [for meta_type in meta_directives]. *)
Definition expand_meta_type (meta_key setting : string) (st : directive_state)
    (meta_type : Value) : result directive_state :=
  let '(newdict, meta_dict, seen_lazy) := st in
  match meta_type with
  | VStr meta_type =>
      if startswith meta_type "dynamic" then
        Raise (ValueError (DynamicMeta meta_type))
      else if startswith meta_type "lazy" then
        let lazy_base_meta_type := drop_str (String.length "lazy") meta_type in
        match directive w lazy_base_meta_type with
        | None => Raise (ValueError (LazyMetaUnsupported meta_key meta_type))
        | Some d =>
            if seen_lazy then Raise (ValueError MultipleLazy)
            else expand_lazy_meta d meta_type setting newdict meta_dict
        end
      else if seen_lazy then Raise (ValueError NonLazyAfterLazy)
      else
        match directive w meta_type with
        | None => Raise (ValueError (MetaUnsupported meta_key meta_type))
        | Some d => expand_eager_meta d setting newdict meta_dict seen_lazy
        end
  | _ => Raise (TypeError MetaTypeNotString)
  end.

(** [meta_directives]: a single name or a list of names. *)
Definition normalise_directives (meta_type_from_dict : Value) : result (list Value) :=
  match meta_type_from_dict with
  | VStr s => OK [VStr s]
  | VList l => OK l
  | _ => Raise (ValueError MetaNotStrOrList)
  end.

(** The body of [for meta_key in meta_keys], on [newdict] and the local
    copy [meta_dict]. *)
Definition expand_meta_key (st : dict * dict) (meta_key : string) : result (dict * dict) :=
  let '(newdict, meta_dict) := st in
  let setting := drop_end (String.length "_meta") meta_key in
  meta_type_from_dict <- getitem meta_dict meta_key ;;
  meta_directives <- normalise_directives meta_type_from_dict ;;
  '(newdict, meta_dict, _) <-
     reduce (expand_meta_type meta_key setting) meta_directives (newdict, meta_dict, false) ;;
  meta_dict <- delitem meta_dict meta_key ;;
  meta_dict <- delitem meta_dict setting ;;
  OK (newdict, meta_dict).

Definition is_meta_key (k : string) : bool := endswith k "_meta".

(** Expand the meta directives for the given config dict and return a new
    dictionary containing the updated settings with respect to the base
    [config_dict]. *)
Definition update_and_expand_meta (config_dict meta_dict : dict) : result dict :=
  let newdict := deepdict config_dict in
  let meta_dict := deepdict meta_dict in
  let meta_dict_keys := dict_keys meta_dict in
  let meta_keys := filter is_meta_key meta_dict_keys in
  '(newdict, meta_dict) <- reduce expand_meta_key meta_keys (newdict, meta_dict) ;;
  OK (dict_update newdict (deepdict meta_dict)).

(** ** The lazy scheduler *)

(** [Dict[str, Tuple[List[str], List[str]]]]: for each node its outgoing
    and its incoming edges. *)
Definition graph_t : Type := list (string * (list string * list string)).

(** [hammer_utils.topological_sort] is not among the sources: it is taken
    as a parameter. *)
Variable topological_sort : graph_t -> list string -> result (list string).

(** Record [target_var -> setting]. *)
Definition add_edge (graph : graph_t) (setting target_var : string) : result graph_t :=
  let graph := if dict_mem target_var graph then graph
               else dict_set graph target_var ([], []) in
  t <- getitem graph target_var ;;
  let graph := dict_set graph target_var (fst t ++ [setting], snd t) in
  s <- getitem graph setting ;;
  OK (dict_set graph setting (fst s, snd s ++ [target_var])).

(** The body of the loop of [combine_configs] over the [_meta] keys, on
    [expanded_config], [lazy_metas] and [graph]. *)
Definition collect_lazy_meta (expanded_config_orig : dict)
    (st : dict * dict * graph_t) (meta_key : string) : result (dict * dict * graph_t) :=
  let '(expanded_config, lazy_metas, graph) := st in
  let setting := drop_end (String.length "_meta") meta_key in
  lazy_meta_type <- getitem expanded_config meta_key ;;
  match lazy_meta_type with
  | VStr lazy_meta_type =>
      _ <- assert (startswith lazy_meta_type "lazy") ;;
      let meta_type := drop_str (String.length "lazy") lazy_meta_type in
      let lazy_metas := dict_set lazy_metas meta_key (VStr meta_type) in
      template <- getitem expanded_config setting ;;
      let lazy_metas := dict_set lazy_metas setting template in
      let graph := if dict_mem setting graph then graph
                   else dict_set graph setting ([], []) in
      d <- match directive w meta_type with
           | Some d => OK d
           | None => Raise (KeyError meta_type)
           end ;;
      value <- getitem expanded_config setting ;;
      targets <- target_settings d setting value ;;
      graph <- reduce (fun graph target_var =>
                         if dict_mem (target_var +++ "_meta") expanded_config_orig
                         then add_edge graph setting target_var
                         else OK graph) targets graph ;;
      expanded_config <- delitem expanded_config meta_key ;;
      expanded_config <- delitem expanded_config setting ;;
      OK (expanded_config, lazy_metas, graph)
  | _ => Raise AttributeError
  end.

(** [sorted] on strings. *)
Fixpoint insert_sorted (x : string) (l : list string) : list string :=
  match l with
  | [] => [x]
  | y :: rest => if String.leb x y then x :: l else y :: insert_sorted x rest
  end.

Definition sorted (l : list string) : list string := fold_right insert_sorted [] l.

(** All the starting nodes (no incoming edges), sorted. *)
Definition starting_nodes (graph : graph_t) : list string :=
  sorted (map (fun key_val => fst key_val)
              (filter (fun key_val => (List.length (snd (snd key_val)) =? 0)%nat) graph)).

Definition combine_meta (lazy_metas : dict) (config_dict : dict) (meta_setting : string) : result dict :=
  template <- getitem lazy_metas meta_setting ;;
  meta_type <- getitem lazy_metas (meta_setting +++ "_meta") ;;
  update_and_expand_meta config_dict
    (dict_literal [ (meta_setting, template); (meta_setting +++ "_meta", meta_type) ]).

(** Internal keys that shouldn't show up in any final config. *)
Definition internal_keys : list string := [_CONFIG_PATH_KEY; _NEXT_FREE_INDEX_KEY].

Definition remove_internal_keys (final_dict : dict) : dict :=
  fold_left (fun d key => if dict_mem key d then dict_remove d key else d)
            internal_keys final_dict.

(** The part of [combine_configs] that handles the lazy metas of the
    folded configuration. *)
Definition resolve_lazy (expanded_config_reduce : dict) : result dict :=
  let expanded_config := deepdict expanded_config_reduce in
  let expanded_config_orig := deepdict expanded_config in
  let meta_dict_keys := dict_keys expanded_config in
  let meta_keys := filter is_meta_key meta_dict_keys in
  '(expanded_config, lazy_metas, graph) <-
     reduce (collect_lazy_meta expanded_config_orig) meta_keys (expanded_config, [], []) ;;
  final_dict <-
    (if (0 <? List.length graph)%nat then
       let starting_nodes := starting_nodes graph in
       if (List.length starting_nodes =? 0)%nat then Raise (ValueError LazyLoop)
       else
         settings_ordered <- topological_sort graph starting_nodes ;;
         reduce (combine_meta lazy_metas) settings_ordered expanded_config
     else OK (deepdict expanded_config)) ;;
  OK (remove_internal_keys final_dict).

(** Combine the given list of unpacked configs into a single config.
    Later configs in the list will override the earlier configs. *)
Definition combine_configs (configs : list dict) : result dict :=
  expanded_config_reduce <- reduce update_and_expand_meta configs [] ;;
  resolve_lazy expanded_config_reduce.

End Evaluator.

(** Modelled from the spec: [hammer_utils.topological_sort] is not among
    the sources.  "Topologically sort using Kahn's algorithm, breaking
    ties by the pre-sorted order": the queue starts as the start nodes; the
    node at its front is output, its outgoing edges are removed, and a
    child left without incoming edges joins the back of the queue.  Every
    node is output at most once, so as many rounds as there are nodes
    empty the queue. *)
Fixpoint remove_first (x : string) (l : list string) : list string :=
  match l with
  | [] => []
  | y :: rest => if (y =? x)%string then rest else y :: remove_first x rest
  end.

Definition kahn_visit (current : string) (st : graph_t * list string) (next_node : string)
    : graph_t * list string :=
  let '(graph, queue) := st in
  match dict_get next_node graph with
  | Some (outgoing, incoming) =>
      let incoming := remove_first current incoming in
      (dict_set graph next_node (outgoing, incoming),
       if (List.length incoming =? 0)%nat then queue ++ [next_node] else queue)
  | None => (graph, queue)
  end.

Fixpoint kahn_loop (rounds : nat) (graph : graph_t) (queue : list string) : list string :=
  match rounds, queue with
  | S rounds, current_node :: queue =>
      let children := match dict_get current_node graph with
                      | Some (outgoing, _) => outgoing
                      | None => []
                      end in
      let '(graph, queue) := fold_left (kahn_visit current_node) children (graph, queue) in
      current_node :: kahn_loop rounds graph queue
  | _, _ => []
  end.

Definition kahn_topological_sort (graph : graph_t) (starting_nodes : list string)
    : result (list string) :=
  OK (kahn_loop (List.length graph) graph starting_nodes).

(** ** The layered database *)

Record HammerDatabase : Type := {
  builtins : list dict;
  core : list dict;
  tools : list dict;
  technology : list dict;
  environment : list dict;
  project : list dict;
  _runtime : dict;
  config_cache : dict;
  config_cache_dirty : bool
}.

Module Database.

(** [HammerDatabase.__init__] *)
Definition init : HammerDatabase :=
  {| builtins := []; core := []; tools := []; technology := [];
     environment := []; project := []; _runtime := [];
     config_cache := []; config_cache_dirty := false |}.

Definition runtime (db : HammerDatabase) : list dict := [_runtime db].

(** The argument of [combine_configs] in [get_config]. *)
Definition layers (db : HammerDatabase) : list dict :=
  [[]] ++ builtins db ++ core db ++ tools db ++ technology db ++ environment db ++
  project db ++ runtime db.

Definition set_cache (db : HammerDatabase) (cache : dict) (dirty : bool) : HammerDatabase :=
  {| builtins := builtins db; core := core db; tools := tools db;
     technology := technology db; environment := environment db;
     project := project db; _runtime := _runtime db;
     config_cache := cache; config_cache_dirty := dirty |}.

Section Methods.

Variable w : World.
Variable topological_sort : graph_t -> list string -> result (list string).

(** Get the config of this database after all the overrides have been
    dealt with; the second component is the database after the call. *)
Definition get_config (db : HammerDatabase) : result (dict * HammerDatabase) :=
  if config_cache_dirty db then
    c <- combine_configs w topological_sort (layers db) ;;
    OK (c, set_cache db c false)
  else OK (config_cache db, db).

(** Get the database (get_config) in JSON form as a string. *)
Definition get_database_json (db : HammerDatabase) : result (string * HammerDatabase) :=
  '(c, db) <- get_config db ;;
  OK (json_dumps w (VDict c), db).

(** Retrieve the given key; [nullvalue] is returned for nulls. *)
Definition get_setting (db : HammerDatabase) (key : string) (nullvalue : Value)
    : result (Value * HammerDatabase) :=
  '(c, db) <- get_config db ;;
  if dict_mem key c then
    '(c, db) <- get_config db ;;
    value <- getitem c key ;;
    OK (match value with VNull => nullvalue | _ => value end, db)
  else Raise (KeyError ("Key " +++ key +++ " is missing")).

(** Check if the given key exists in the database. *)
Definition has_setting (db : HammerDatabase) (key : string) : result (bool * HammerDatabase) :=
  '(c, db) <- get_config db ;;
  OK (dict_mem key c, db).

End Methods.

(** Set the given key. The setting will be placed into the runtime
    dictionary. *)
Definition set_setting (db : HammerDatabase) (key : string) (value : Value) : HammerDatabase :=
  {| builtins := builtins db; core := core db; tools := tools db;
     technology := technology db; environment := environment db;
     project := project db; _runtime := dict_set (_runtime db) key value;
     config_cache := config_cache db; config_cache_dirty := true |}.

Definition update_core (db : HammerDatabase) (core_config : list dict) : HammerDatabase :=
  {| builtins := builtins db; core := core_config; tools := tools db;
     technology := technology db; environment := environment db;
     project := project db; _runtime := _runtime db;
     config_cache := config_cache db; config_cache_dirty := true |}.

Definition update_tools (db : HammerDatabase) (tools_config : list dict) : HammerDatabase :=
  {| builtins := builtins db; core := core db; tools := tools_config;
     technology := technology db; environment := environment db;
     project := project db; _runtime := _runtime db;
     config_cache := config_cache db; config_cache_dirty := true |}.

Definition update_technology (db : HammerDatabase) (technology_config : list dict) : HammerDatabase :=
  {| builtins := builtins db; core := core db; tools := tools db;
     technology := technology_config; environment := environment db;
     project := project db; _runtime := _runtime db;
     config_cache := config_cache db; config_cache_dirty := true |}.

Definition update_environment (db : HammerDatabase) (environment_config : list dict) : HammerDatabase :=
  {| builtins := builtins db; core := core db; tools := tools db;
     technology := technology db; environment := environment_config;
     project := project db; _runtime := _runtime db;
     config_cache := config_cache db; config_cache_dirty := true |}.

Definition update_project (db : HammerDatabase) (project_config : list dict) : HammerDatabase :=
  {| builtins := builtins db; core := core db; tools := tools db;
     technology := technology db; environment := environment db;
     project := project_config; _runtime := _runtime db;
     config_cache := config_cache db; config_cache_dirty := true |}.

Definition update_builtins (db : HammerDatabase) (builtins_config : list dict) : HammerDatabase :=
  {| builtins := builtins_config; core := core db; tools := tools db;
     technology := technology db; environment := environment db;
     project := project db; _runtime := _runtime db;
     config_cache := config_cache db; config_cache_dirty := true |}.

End Database.

(** ** The flattener *)

(** [s.split(".")] *)
Fixpoint split_dot (s : string) : list string :=
  match s with
  | EmptyString => [EmptyString]
  | String c rest =>
      if Ascii.eqb c "." then EmptyString :: split_dot rest
      else match split_dot rest with
           | head :: tail => String c head :: tail
           | [] => [String c EmptyString]
           end
  end.

(** Unpack the given config_dict, flattening key names recursively.  The
    recursion is on the value that holds the mapping; [unpack] below is
    the function of the source. *)
Fixpoint unpack_value (config : Value) (prefix : string) : dict :=
  match config with
  | VDict config_dict =>
      let real_prefix := if (prefix =? EmptyString)%string then EmptyString else prefix +++ "." in
      (fix items (l : list (string * Value)) (output_dict : dict) : dict :=
         match l with
         | [] => output_dict
         | (key, value) :: rest =>
             items rest
               match value with
               | VDict _ => dict_update output_dict (unpack_value value (real_prefix +++ key))
               | _ => dict_set output_dict (real_prefix +++ key) value
               end
         end) config_dict []
  | _ => []
  end.

Definition unpack (config_dict : dict) (prefix : string) : dict :=
  unpack_value (VDict config_dict) prefix.

(** [get_subdict(parts, current_root)] followed by the assignment
    [containing_dict[last] = value]: the sub-dictionary is reached through
    references, so the assignment shows in the root.  A root that is not
    a mapping fails at the first operation applied to it. *)
Fixpoint set_in_subdict (parts : list string) (last : string) (value : Value)
    (current_root : dict) : result dict :=
  match parts with
  | [] => OK (dict_set current_root last value)
  | part :: parts =>
      let current_root := if dict_mem part current_root then current_root
                          else dict_set current_root part (VDict []) in
      sub <- getitem current_root part ;;
      match sub with
      | VDict sub =>
          sub <- set_in_subdict parts last value sub ;;
          OK (dict_set current_root part (VDict sub))
      | _ => Raise (TypeError BadOperand)
      end
  end.

(** The body of [for key, value in input_dict.items()]. *)
Definition reverse_unpack_item (output_dict : dict) (key_value : string * Value) : result dict :=
  let key_parts := split_dot (fst key_value) in
  if (1 <=? List.length key_parts)%nat then
    set_in_subdict (removelast key_parts) (last key_parts EmptyString)
                   (snd key_value) output_dict
  else Raise AssertionError.

(** Reverse the effects of unpack(). *)
Definition reverse_unpack (input_dict : dict) : result dict :=
  reduce reverse_unpack_item input_dict [].

(** ** Predicates used in the statements *)

Definition is_list (v : Value) : bool :=
  match v with VList _ => true | _ => false end.

Definition string_le (a b : string) : Prop := String.leb a b = true.

(** Every node of the graph has an incoming edge. *)
Definition no_source (graph : graph_t) : Prop :=
  Forall (fun key_val => snd (snd key_val) <> []) graph.

(** The nodes without incoming edges, in the order of the graph. *)
Definition sources (graph : graph_t) : list string :=
  map (fun key_val => fst key_val)
      (filter (fun key_val => (List.length (snd (snd key_val)) =? 0)%nat) graph).

(** A world without files, in which nothing parses: enough to run the
    directives that stay inside the dictionaries. *)
Definition closed_world : World :=
  {| read_file := fun _ => None;
     json_loads := fun _ => None;
     json_dumps := fun _ => EmptyString;
     str_other := fun _ => EmptyString;
     int_of_str := fun _ => None;
     int_of_float := fun _ => None;
     float_is_nan := fun _ => false;
     float_add := fun _ _ => None |}.

(** Two lazy substitutions that reference each other. *)
Definition mutual_lazy_config : dict :=
  [ ("x", VStr "${y}"); ("x_meta", VStr "lazysubst");
    ("y", VStr "${x}"); ("y_meta", VStr "lazysubst") ].

(** ** Directive lists *)

(** The evaluation of one directive list: the loop
    [for meta_type in meta_directives], entered with [seen_lazy = False]. *)
Definition run_directives (w : World) (meta_key setting : string)
    (meta_directives : list Value) (newdict meta_dict : dict) : result directive_state :=
  reduce (expand_meta_type w meta_key setting) meta_directives (newdict, meta_dict, false).

(** The errors of the kind invalid-directive: the raise sites of
    [update_and_expand_meta] that reject an entry of a directive list. *)
Definition invalid_directive (e : exn) : bool :=
  match e with
  | ValueError (DynamicMeta _) => true
  | ValueError (LazyMetaUnsupported _ _) => true
  | ValueError MultipleLazy => true
  | ValueError NonLazyAfterLazy => true
  | ValueError (MetaUnsupported _ _) => true
  | TypeError MetaTypeNotString => true
  | _ => false
  end.

Definition is_non_string (v : Value) : bool :=
  match v with VStr _ => false | _ => true end.

Definition has_dynamic_prefix (v : Value) : bool :=
  match v with VStr s => startswith s "dynamic" | _ => false end.

Definition is_lazy_name (v : Value) : bool :=
  match v with VStr s => startswith s "lazy" | _ => false end.

Definition is_eager_name (v : Value) : bool :=
  match v with VStr s => negb (startswith s "lazy") | _ => false end.

(** A name that is no registered w directive, nor [lazy] followed by one. *)
Definition is_unknown_name (w : World) (v : Value) : bool :=
  match v with
  | VStr s =>
      match directive w (if startswith s "lazy" then drop_str (String.length "lazy") s else s) with
      | Some _ => false
      | None => true
      end
  | _ => false
  end.

(** Some lazy directive of the list is followed, later in the list, by an
    entry that satisfies [p]. *)
Fixpoint after_lazy (p : Value -> bool) (l : list Value) : bool :=
  match l with
  | [] => false
  | v :: rest => (is_lazy_name v && existsb p rest) || after_lazy p rest
  end.

(** The five conditions: an unknown directive name, a name starting with
    [dynamic], a non-string entry, more than one lazy directive, a
    non-lazy directive after a lazy one. *)
Definition flawed (w : World) (l : list Value) : bool :=
  existsb (is_unknown_name w) l || existsb has_dynamic_prefix l ||
  existsb is_non_string l || after_lazy is_lazy_name l || after_lazy is_eager_name l.

(** The entry at which the loop raises an invalid-directive error if it
    gets there, given [seen_lazy]. *)
Definition entry_rejected (w : World) (seen_lazy : bool) (v : Value) : bool :=
  match v with
  | VStr s =>
      if startswith s "dynamic" then true
      else if startswith s "lazy" then
        match directive w (drop_str (String.length "lazy") s) with
        | None => true
        | Some _ => seen_lazy
        end
      else if seen_lazy then true
      else match directive w s with None => true | Some _ => false end
  | _ => true
  end.

Fixpoint rejected_from (w : World) (seen_lazy : bool) (l : list Value) : bool :=
  match l with
  | [] => false
  | v :: rest =>
      entry_rejected w seen_lazy v || rejected_from w (seen_lazy || is_lazy_name v) rest
  end.

(** An error that is not of the kind invalid-directive. *)
Definition benign (e : exn) : Prop := invalid_directive e = false.

(** The directives of the registry. *)
Definition registered (w : World) (d : MetaDirective) : Prop :=
  In d (map snd (get_meta_directives w)).


(** The entry of the registry for [subst]. *)
Definition subst_directive : MetaDirective :=
  {| action := subst_action;
     target_settings := subst_targets;
     rename_target := subst_rename |}.

(** ** Database states *)

Definition result_map {A B : Type} (f : A -> B) (r : result A) : result B :=
  match r with
  | OK a => OK (f a)
  | Raise e => Raise e
  end.

(** The states a database goes through: created by [__init__], changed by
    the mutators, and by the reads that complete. *)
Inductive reachable (w : World)
    (topological_sort : graph_t -> list string -> result (list string))
    : HammerDatabase -> Prop :=
| reach_init : reachable w topological_sort Database.init
| reach_update_builtins db l :
    reachable w topological_sort db ->
    reachable w topological_sort (Database.update_builtins db l)
| reach_update_core db l :
    reachable w topological_sort db ->
    reachable w topological_sort (Database.update_core db l)
| reach_update_tools db l :
    reachable w topological_sort db ->
    reachable w topological_sort (Database.update_tools db l)
| reach_update_technology db l :
    reachable w topological_sort db ->
    reachable w topological_sort (Database.update_technology db l)
| reach_update_environment db l :
    reachable w topological_sort db ->
    reachable w topological_sort (Database.update_environment db l)
| reach_update_project db l :
    reachable w topological_sort db ->
    reachable w topological_sort (Database.update_project db l)
| reach_set_setting db key value :
    reachable w topological_sort db ->
    reachable w topological_sort (Database.set_setting db key value)
| reach_get_config db c db' :
    reachable w topological_sort db ->
    Database.get_config w topological_sort db = OK (c, db') ->
    reachable w topological_sort db'.

(** The cache, when it is not dirty, is the resolution of the layers. *)
Definition cache_consistent (w : World)
    (topological_sort : graph_t -> list string -> result (list string))
    (db : HammerDatabase) : Prop :=
  config_cache_dirty db = false ->
  combine_configs w topological_sort (Database.layers db) = OK (config_cache db).

(** The dump that a read of the database returns. *)
Definition database_json (w : World)
    (topological_sort : graph_t -> list string -> result (list string))
    (db : HammerDatabase) : result string :=
  result_map fst (Database.get_database_json w topological_sort db).

(** A database with one project config, before and after a read. *)
Definition project_db : HammerDatabase :=
  Database.update_project Database.init [[("a", VStr "hi")]].

Definition project_db_read : HammerDatabase :=
  Database.set_cache project_db [("a", VStr "hi")] false.

(** ** Keys of the resolved mapping *)

Definition no_meta_keys (d : dict) : Prop :=
  forall k, In k (dict_keys d) -> is_meta_key k = false.

(** Every meta key of [lazy_metas] holds the name of a registered
    directive. *)
Definition metas_registered (w : World) (lazy_metas : dict) : Prop :=
  forall key v,
    is_meta_key key = true -> dict_get key lazy_metas = Some v ->
    exists meta_type d, v = VStr meta_type /\ directive w meta_type = Some d.

(** Two configs, the second with a lazy substitution that reads the
    first. *)
Definition lazy_configs : list dict :=
  [ [("c", VStr "0"); ("_config_path", VStr "/tmp")];
    [("a", VStr "${c}"); ("a_meta", VStr "lazysubst")] ].

(** ** Nested mappings *)

Definition is_dict (v : Value) : bool :=
  match v with VDict _ => true | _ => false end.

Fixpoint has_dot (s : string) : bool :=
  match s with
  | EmptyString => false
  | String c rest => Ascii.eqb c "." || has_dot rest
  end.

(** A key that is not blank and is a single segment. *)
Definition segment (k : string) : bool := negb (k =? EmptyString)%string && negb (has_dot k).

(** A nested mapping in which, at every level, the keys are distinct
    single segments and no mapping is empty. *)
Inductive well_keyed : dict -> Prop :=
| wk_nil : well_keyed []
| wk_leaf k v rest :
    segment k = true -> is_dict v = false ->
    dict_mem k rest = false -> well_keyed rest ->
    well_keyed ((k, v) :: rest)
| wk_dict k d rest :
    segment k = true -> d <> [] -> well_keyed d ->
    dict_mem k rest = false -> well_keyed rest ->
    well_keyed ((k, VDict d) :: rest).

(** The keys of a nested mapping are, at every level, non-blank and not
    reserved. *)
Fixpoint keys_plain (v : Value) : bool :=
  match v with
  | VDict d =>
      (fix all (l : list (string * Value)) : bool :=
         match l with
         | [] => true
         | (k, x) :: rest =>
             negb (k =? EmptyString)%string && negb (k =? _CONFIG_PATH_KEY)%string &&
             negb (k =? _NEXT_FREE_INDEX_KEY)%string && keys_plain x && all rest
         end) d
  | _ => true
  end.

(** The paths to the values of a nested mapping that are not mappings, in
    the order of the mapping, with the values. *)
Fixpoint leaves_value (v : Value) : list (list string * Value) :=
  match v with
  | VDict d =>
      (fix all (l : list (string * Value)) : list (list string * Value) :=
         match l with
         | [] => []
         | (k, x) :: rest =>
             match x with
             | VDict _ => map (fun pv => (k :: fst pv, snd pv)) (leaves_value x)
             | _ => [([k], x)]
             end ++ all rest
         end) d
  | _ => []
  end.

Definition leaves (d : dict) : list (list string * Value) := leaves_value (VDict d).

(** The flattened key of a path. *)
Definition path_key (p : list string) : string := String.concat "." p.

(** One step of the loop of [unpack]. *)
Definition unpack_entry (real_prefix : string) (output_dict : dict)
    (key_value : string * Value) : dict :=
  match snd key_value with
  | VDict _ =>
      dict_update output_dict
        (unpack_value (snd key_value) (real_prefix +++ fst key_value))
  | _ => dict_set output_dict (real_prefix +++ fst key_value) (snd key_value)
  end.

(** One step of the loop of [reverse_unpack], on a path. *)
Definition set_path (output_dict : dict) (path_value : list string * Value) : result dict :=
  set_in_subdict (removelast (fst path_value)) (last (fst path_value) EmptyString)
                 (snd path_value) output_dict.

(** The flattened mapping of the leaves of a nested mapping, under a
    prefix. *)
Definition flat_of (real_prefix : string) (d : dict) : dict :=
  map (fun pv => (real_prefix +++ path_key (fst pv), snd pv)) (leaves d).

Definition dot_free (s : string) : Prop := has_dot s = false.

(** A nested mapping with a mapping inside. *)
Definition nested_example : dict :=
  [ ("a", VDict [("foo", VInt 1); ("bar", VInt 2)]); ("b", VStr "v") ].

(** The same provider written in two orders, over a base that holds [b]. *)
Definition provider_a_first : dict :=
  [ ("a", VStr "${b}"); ("a_meta", VStr "subst");
    ("b", VStr "v2"); ("b_meta", VStr "subst") ].

Definition provider_b_first : dict :=
  [ ("b", VStr "v2"); ("b_meta", VStr "subst");
    ("a", VStr "${b}"); ("a_meta", VStr "subst") ].

(** ** Further definitions for the statements *)

(** The value an action gives to its key, or the error it raises. *)
Definition written (key : string) (r : result dict) : result (option Value) :=
  result_map (dict_get key) r.

(** The entry of the registry for [crossref]. *)
Definition crossref_directive : MetaDirective :=
  {| action := crossref_action;
     target_settings := crossref_targets;
     rename_target := crossref_rename |}.

(** The entry of the registry for [append]. *)
Definition append_directive : MetaDirective :=
  {| action := append_action;
     target_settings := fun key value => OK [key];
     rename_target := append_rename |}.

(** The value is [lazy] followed by the name of a directive of the
    registry. *)
Definition lazy_directive_name (w : World) (v : Value) : Prop :=
  exists name dr, v = VStr ("lazy" +++ name) /\ directive w name = Some dr.

(** Every [_meta] key of the mapping holds the name of a lazy directive,
    and comes with its setting, whose key is not itself a [_meta] key. *)
Definition lazy_metas_only (w : World) (d : dict) : Prop :=
  forall k v,
    is_meta_key k = true -> dict_get k d = Some v ->
    lazy_directive_name w v /\
    dict_mem (drop_end (String.length "_meta") k) d = true /\
    is_meta_key (drop_end (String.length "_meta") k) = false.

(** ** The loaders *)

(** What [open(filename, "r")] followed by [f.read()] gives. *)
Inductive file_outcome : Type :=
| FileContents (contents : string)
| FileNotFound                            (* FileNotFoundError *)
| FileUnreadable.                         (* another error of open or of read *)

(** The exceptions of the loaders. *)
Inductive load_exn : Type :=
| InvalidConfigType (filename : string)   (* ValueError("Invalid config type " + filename) *)
| FileNotFoundError
| ReadError                               (* another error of open or of read *)
| ParseError                              (* raised by load_yaml or by json.loads *)
| NotAMapping.                            (* unpack of a value that has no items() *)

Fixpoint has_slash (s : string) : bool :=
  match s with
  | EmptyString => false
  | String c rest => Ascii.eqb c "/" || has_slash rest
  end.

(** [p[:p.rfind("/") + 1]] *)
Fixpoint dir_head (p : string) : string :=
  match p with
  | EmptyString => EmptyString
  | String c rest => if has_slash p then String c (dir_head rest) else EmptyString
  end.

Fixpoint all_slashes (s : string) : bool :=
  match s with
  | EmptyString => true
  | String c rest => Ascii.eqb c "/" && all_slashes rest
  end.

(** [s.rstrip("/")] *)
Fixpoint rstrip_slash (s : string) : string :=
  match s with
  | EmptyString => EmptyString
  | String c rest =>
      let rest := rstrip_slash rest in
      if Ascii.eqb c "/" && (rest =? EmptyString)%string then EmptyString
      else String c rest
  end.

(** [os.path.dirname(p)] on a POSIX system *)
Definition dirname (p : string) : string :=
  let head := dir_head p in
  if negb (head =? EmptyString)%string && negb (all_slashes head) then rstrip_slash head
  else head.

(** [sorted(xs, key=key)] for a boolean key: [False] sorts before [True],
    and the sort is stable. *)
Fixpoint insert_by_key {A : Type} (key : A -> bool) (x : A) (l : list A) : list A :=
  match l with
  | [] => [x]
  | y :: rest => if implb (key x) (key y) then x :: l else y :: insert_by_key key x rest
  end.

Definition sorted_by_key {A : Type} (key : A -> bool) (l : list A) : list A :=
  fold_right (insert_by_key key) [] l.

(** [list(map(f, xs))] for a loader [f]: the first failure wins. *)
Fixpoint map_load {A B : Type} (f : A -> load_exn + B) (xs : list A) : load_exn + list B :=
  match xs with
  | [] => inr []
  | x :: rest =>
      match f x with
      | inl e => inl e
      | inr y =>
          match map_load f rest with
          | inl e => inl e
          | inr ys => inr (y :: ys)
          end
      end
  end.

Section Loaders.

Variable w : World.

(** [yaml2json.load_yaml] is not among the sources: it is taken as a
    parameter, [None] when it raises.  The mappings it returns are taken
    to have strings for keys, as those of [json.loads] have. *)
Variable load_yaml : string -> option Value.

(** The file system. *)
Variable open_read : string -> file_outcome.

(** [contents.strip() == ""] *)
Variable is_blank : string -> bool.

(** Load config from a string by loading it and unpacking it. *)
Definition load_config_from_string (contents : string) (is_yaml : bool) (path : string)
    : load_exn + dict :=
  match (if is_yaml then load_yaml contents else json_loads w contents) with
  | None => inl ParseError
  | Some (VDict config_dict) =>
      let unpacked := unpack config_dict EmptyString in
      inr (dict_set unpacked _CONFIG_PATH_KEY (VStr path))
  | Some _ => inl NotAMapping
  end.

(** Load config from a filename, returning a blank dictionary if the file
    is empty, instead of an error. *)
Definition load_config_from_file (filename : string) (strict : bool) : load_exn + dict :=
  match (if endswith filename ".yml" then Some true
         else if endswith filename ".json" then Some false
         else None) with
  | None => inl (InvalidConfigType filename)
  | Some is_yaml =>
      match open_read filename with
      | FileNotFound => if strict then inl FileNotFoundError else inr []
      | FileUnreadable => inl ReadError
      | FileContents file_contents =>
          if is_blank file_contents then inr []
          else load_config_from_string file_contents is_yaml (dirname filename)
      end
  end.

(** Load configuration from paths containing *.yml and *.json files. *)
Definition load_config_from_paths (config_paths : list string) (strict : bool)
    : load_exn + list dict :=
  let sorted_paths := sorted_by_key (fun x => endswith x ".json") config_paths in
  map_load (fun path => load_config_from_file path strict) sorted_paths.

(** Load the default configuration in the given path, which consists of
    defaults.yml and defaults.json.  The call of [load_config_from_paths]
    does not pass [strict] on: the paths are loaded with its default,
    [strict=False]. *)
Definition load_config_from_defaults (path : string) (strict : bool) : load_exn + list dict :=
  load_config_from_paths [ path_join path "defaults.yml"; path_join path "defaults.json" ] false.

End Loaders.

(** A file system with the two default files of the directory [/t], with
    a YAML loader and a JSON loader that know their texts. *)
Definition double_quote : string := String (Ascii.ascii_of_nat 34) EmptyString.

Definition example_json_text : string :=
  "{" +++ double_quote +++ "a" +++ double_quote +++ ": 2}".

Definition example_open_read (filename : string) : file_outcome :=
  if (filename =? "/t/defaults.yml")%string then FileContents "{a: 1, b: 1}"
  else if (filename =? "/t/defaults.json")%string then FileContents example_json_text
  else FileNotFound.

Definition example_load_yaml (contents : string) : option Value :=
  if (contents =? "{a: 1, b: 1}")%string then Some (VDict [("a", VInt 1); ("b", VInt 1)])
  else None.

Definition example_world : World :=
  {| read_file := fun _ => None;
     json_loads := fun s => if (s =? example_json_text)%string
                            then Some (VDict [("a", VInt 2)]) else None;
     json_dumps := fun _ => EmptyString;
     str_other := fun _ => EmptyString;
     int_of_str := fun _ => None;
     int_of_float := fun _ => None;
     float_is_nan := fun _ => false;
     float_add := fun _ _ => None |}.

Definition example_is_blank (contents : string) : bool := (contents =? EmptyString)%string.

(** The error with which the loop rejects an entry of a directive list
    when it gets there, given [seen_lazy]: the raise sites of lines
    440-462 and 503-510, each with its own exception.  [None] for an entry
    that the loop goes on to evaluate. *)
Definition rejection (w : World) (meta_key : string) (seen_lazy : bool) (v : Value)
    : option exn :=
  match v with
  | VStr s =>
      if startswith s "dynamic" then Some (ValueError (DynamicMeta s))
      else if startswith s "lazy" then
        match directive w (drop_str (String.length "lazy") s) with
        | None => Some (ValueError (LazyMetaUnsupported meta_key s))
        | Some _ => if seen_lazy then Some (ValueError MultipleLazy) else None
        end
      else if seen_lazy then Some (ValueError NonLazyAfterLazy)
      else match directive w s with
           | None => Some (ValueError (MetaUnsupported meta_key s))
           | Some _ => None
           end
  | _ => Some (TypeError MetaTypeNotString)
  end.

(** The rejection of the first entry of the list that the loop rejects. *)
Fixpoint first_rejection (w : World) (meta_key : string) (seen_lazy : bool) (l : list Value)
    : option exn :=
  match l with
  | [] => None
  | v :: rest =>
      match rejection w meta_key seen_lazy v with
      | Some e => Some e
      | None => first_rejection w meta_key (seen_lazy || is_lazy_name v) rest
      end
  end.

(** Equality of two mappings as Python compares them: the same keys with
    the same values, whatever the order of insertion. *)
Definition dict_equal (d1 d2 : dict) : Prop :=
  forall k, dict_get k d1 = dict_get k d2.

(** * Properties *)

(** ** Dictionary lemmas *)

Section DictFacts.

Context {A : Type}.
Implicit Types (d : list (string * A)) (k : string) (v : A).

Lemma dict_mem_true_iff d k : dict_mem k d = true <-> In k (dict_keys d).
Proof.
  unfold dict_mem. induction d as [|[k' v'] d IH]; simpl.
  - split; [discriminate | tauto].
  - destruct (String.eqb_spec k' k) as [->|Hne].
    + split; auto.
    + rewrite IH. split; [auto | intros [H|H]; [contradiction | assumption]].
Qed.

Lemma dict_mem_false_iff d k : dict_mem k d = false <-> ~ In k (dict_keys d).
Proof.
  rewrite <- dict_mem_true_iff. destruct (dict_mem k d); split; congruence.
Qed.

Lemma dict_get_none_iff d k : dict_get k d = None <-> ~ In k (dict_keys d).
Proof.
  rewrite <- dict_mem_false_iff. unfold dict_mem.
  destruct (dict_get k d); split; congruence.
Qed.

Lemma dict_get_set_same d k v : dict_get k (dict_set d k v) = Some v.
Proof.
  induction d as [|[k' v'] d IH]; simpl.
  - now rewrite String.eqb_refl.
  - destruct (String.eqb_spec k' k) as [->|Hne]; simpl.
    + now rewrite String.eqb_refl.
    + destruct (String.eqb_spec k' k); [contradiction | exact IH].
Qed.

Lemma dict_get_set_other d k k' v :
  k <> k' -> dict_get k' (dict_set d k v) = dict_get k' d.
Proof.
  intros Hne. induction d as [|[k0 v0] d IH]; simpl.
  - destruct (String.eqb_spec k k'); [contradiction | reflexivity].
  - destruct (String.eqb_spec k0 k) as [->|H0]; simpl.
    + destruct (String.eqb_spec k k'); [contradiction | reflexivity].
    + destruct (String.eqb_spec k0 k'); [reflexivity | exact IH].
Qed.

Lemma dict_set_fresh d k v : dict_mem k d = false -> dict_set d k v = d ++ [(k, v)].
Proof.
  unfold dict_mem. induction d as [|[k' v'] d IH]; simpl; [reflexivity|].
  destruct (String.eqb_spec k' k); [discriminate|].
  intros H. now rewrite IH.
Qed.

Lemma dict_keys_set d k v :
  dict_keys (dict_set d k v) = if dict_mem k d then dict_keys d else dict_keys d ++ [k].
Proof.
  unfold dict_mem. induction d as [|[k' v'] d IH]; simpl; [reflexivity|].
  destruct (String.eqb_spec k' k) as [->|Hne]; simpl; [reflexivity|].
  rewrite IH. now destruct (dict_get k d).
Qed.

Lemma in_dict_keys_set d k v k' :
  In k' (dict_keys (dict_set d k v)) <-> k' = k \/ In k' (dict_keys d).
Proof.
  rewrite dict_keys_set. destruct (dict_mem k d) eqn:Hm.
  - apply dict_mem_true_iff in Hm. split; [auto | intros [->|H]; assumption].
  - rewrite in_app_iff. simpl. split; intros H; intuition (subst; auto).
Qed.

Lemma dict_set_set_same d k v v' : dict_set (dict_set d k v) k v' = dict_set d k v'.
Proof.
  induction d as [|[k0 v0] d IH]; simpl.
  - now rewrite String.eqb_refl.
  - destruct (String.eqb_spec k0 k) as [->|Hne]; simpl.
    + now rewrite String.eqb_refl.
    + destruct (String.eqb_spec k0 k); [contradiction | now rewrite IH].
Qed.

Lemma dict_get_remove_same d k : dict_get k (dict_remove d k) = None.
Proof.
  induction d as [|[k' v'] d IH]; simpl; [reflexivity|].
  destruct (String.eqb_spec k' k) as [->|Hne]; simpl; [exact IH|].
  destruct (String.eqb_spec k' k); [contradiction | exact IH].
Qed.

Lemma dict_get_remove_other d k k' :
  k <> k' -> dict_get k' (dict_remove d k) = dict_get k' d.
Proof.
  intros Hne. induction d as [|[k0 v0] d IH]; simpl; [reflexivity|].
  destruct (String.eqb_spec k0 k) as [->|H0]; simpl.
  - destruct (String.eqb_spec k k'); [contradiction | exact IH].
  - destruct (String.eqb_spec k0 k'); [reflexivity | exact IH].
Qed.

Lemma in_dict_keys_remove d k k' :
  In k' (dict_keys (dict_remove d k)) <-> k' <> k /\ In k' (dict_keys d).
Proof.
  rewrite <- !dict_mem_true_iff. unfold dict_mem.
  destruct (String.eqb_spec k k') as [->|Hne].
  - rewrite dict_get_remove_same. split; [discriminate | intros [H _]; congruence].
  - rewrite dict_get_remove_other by assumption. split; [split; congruence | tauto].
Qed.

Lemma in_dict_keys_update d1 d2 k :
  In k (dict_keys (dict_update d1 d2)) <-> In k (dict_keys d1) \/ In k (dict_keys d2).
Proof.
  unfold dict_update. revert d1.
  induction d2 as [|[k' v'] d2 IH]; intros d1; simpl; [tauto|].
  rewrite IH, in_dict_keys_set. intuition (subst; auto).
Qed.

Lemma dict_update_cons d1 k v d2 :
  dict_update d1 ((k, v) :: d2) = dict_update (dict_set d1 k v) d2.
Proof. reflexivity. Qed.

Lemma getitem_ok d k v : getitem d k = OK v <-> dict_get k d = Some v.
Proof. unfold getitem. destruct (dict_get k d); split; congruence. Qed.

Lemma delitem_ok d k d' :
  delitem d k = OK d' <-> In k (dict_keys d) /\ d' = dict_remove d k.
Proof.
  unfold delitem. rewrite <- dict_mem_true_iff.
  destruct (dict_mem k d); split; intros H.
  - inversion H. auto.
  - destruct H as [_ ->]. reflexivity.
  - discriminate.
  - destruct H. discriminate.
Qed.

End DictFacts.

(** ** The result monad *)

Lemma bind_ok {A B : Type} (r : result A) (k : A -> result B) (b : B) :
  bind r k = OK b -> exists a, r = OK a /\ k a = OK b.
Proof. destruct r; simpl; [eauto | discriminate]. Qed.

Lemma bind_raise {A B : Type} (r : result A) (k : A -> result B) (e : exn) :
  bind r k = Raise e -> r = Raise e \/ exists a, r = OK a /\ k a = Raise e.
Proof. destruct r; simpl; [eauto | intros H; inversion H; auto]. Qed.

(** Inverts a hypothesis [bind r k = OK b]. *)
Ltac bind_inv H :=
  let a := fresh "a" in
  let Ha := fresh "Ha" in
  apply bind_ok in H; destruct H as [a [Ha H]].

(** The same, naming the value and the equation. *)
Ltac bind_as H a Ha :=
  apply bind_ok in H; destruct H as [a [Ha H]].

(** ** append *)

(** C10.  When the key is absent from the working dictionary and the
    value is a list, [append] succeeds, sets the key to that list and
    leaves every other key alone; and [append] raises only when the key
    is present with a value that is not a list, or when the value is not
    a list. *)
Theorem append_action_absent_key :
  forall (config_dict : dict) (key : string) (value : Value) (params : MetaDirectiveParams),
    (forall l, dict_mem key config_dict = false -> value = VList l ->
       append_action config_dict key value params = OK (config_dict ++ [(key, VList l)]) /\
       dict_get key (config_dict ++ [(key, VList l)]) = Some (VList l) /\
       forall k, k <> key ->
         dict_get k (config_dict ++ [(key, VList l)]) = dict_get k config_dict) /\
    (forall e, append_action config_dict key value params = Raise e ->
       (exists cur, dict_get key config_dict = Some cur /\ is_list cur = false) \/
       is_list value = false).
Proof.
  intros config_dict key value params. split.
  - intros l Hm ->. unfold append_action. rewrite Hm.
    unfold getitem. rewrite dict_get_set_same. simpl.
    rewrite dict_set_set_same, <- (dict_set_fresh config_dict key (VList l)) by assumption.
    split; [reflexivity|]. split.
    + apply dict_get_set_same.
    + intros k Hk. apply dict_get_set_other. congruence.
  - intros e H. unfold append_action in H.
    destruct (dict_mem key config_dict) eqn:Hm.
    + unfold getitem in H. unfold dict_mem in Hm.
      destruct (dict_get key config_dict) as [cur|] eqn:Hg; [|discriminate].
      simpl in H. destruct cur; try (left; eexists; split; [reflexivity | reflexivity]).
      destruct value; try (right; reflexivity). discriminate.
    + unfold getitem in H. rewrite dict_get_set_same in H. simpl in H.
      destruct value; try (right; reflexivity). discriminate.
Qed.

Lemma append_action_absent_key_witness :
  (dict_mem "items" [("other", VInt 1)] = false /\
   append_action [("other", VInt 1)] "items" (VList [VStr "b"]) {| meta_path := VNull |}
   = OK [("other", VInt 1); ("items", VList [VStr "b"])]) /\
  (append_action [("items", VStr "a")] "items" (VList [VStr "b"]) {| meta_path := VNull |}
   = Raise (ValueError (AppendToNonListSetting "items")) /\
   ((exists cur, dict_get "items" [("items", VStr "a")] = Some cur /\ is_list cur = false) \/
    is_list (VList [VStr "b"]) = false)).
Proof.
  split.
  - split; [reflexivity|].
    apply (proj1 (append_action_absent_key [("other", VInt 1)] "items" (VList [VStr "b"])
                    {| meta_path := VNull |}) [VStr "b"]); reflexivity.
  - split; [reflexivity|].
    apply (proj2 (append_action_absent_key [("items", VStr "a")] "items" (VList [VStr "b"])
                    {| meta_path := VNull |}) (ValueError (AppendToNonListSetting "items")));
      reflexivity.
Defined.

(** ** rename_target *)

(** C2.  [subst_rename] puts the reference to the replacement back in
    [${...}] but returns every other matched name bare, so that
    [${p}_${q}] renamed from [p] to [p_1] is [${p_1}_q], which no longer
    depends on [q]; and [crossref_rename] turns a single reference into a
    list of one reference. *)
Theorem subst_rename_loses_other_references :
  subst_rename "p" (VStr "${p}_${q}") "p" "p_1" = OK (Some (VStr "${p_1}_q", "subst")) /\
  subst_targets "p" (VStr "${p}_${q}") = OK ["p"; "q"] /\
  subst_targets "p" (VStr "${p_1}_q") = OK ["p_1"] /\
  (forall key s target_setting replacement_setting,
     crossref_rename key (VStr s) target_setting replacement_setting =
     OK (Some (VList [VStr (if (s =? target_setting)%string
                            then replacement_setting else s)], "crossref"))).
Proof.
  repeat split.
Qed.

(** ** target_settings of subst *)

(** C8.  [subst_targets] asserts that the value is a string: on a list of
    strings it raises, and so does the eager evaluator on a lazysubst
    whose value is a list, whatever the working dictionary; the action of
    subst takes the same list. *)
Theorem subst_targets_rejects_lists :
  (forall key l, subst_targets key (VList l) = Raise AssertionError) /\
  (forall w config_dict,
     update_and_expand_meta w config_dict
       [("a", VList [VStr "${b}"]); ("a_meta", VStr "lazysubst")]
     = Raise AssertionError) /\
  (forall params,
     subst_action [("b", VStr "1")] "a" (VList [VStr "${b}"]) params
     = OK [("b", VStr "1"); ("a", VList [VStr "1"])]).
Proof.
  repeat split.
Qed.

(** ** Sorting the start nodes *)

Lemma insert_sorted_perm x l : Permutation (x :: l) (insert_sorted x l).
Proof.
  induction l as [|y l IH]; simpl; [constructor; constructor|].
  destruct (String.leb x y); [apply Permutation_refl|].
  eapply perm_trans; [apply perm_swap|]. now constructor.
Qed.

Lemma sorted_perm l : Permutation l (sorted l).
Proof.
  induction l as [|x l IH]; simpl; [constructor|].
  eapply perm_trans; [|apply insert_sorted_perm]. now constructor.
Qed.

Lemma insert_sorted_hdrel a x l :
  string_le a x -> HdRel string_le a l -> HdRel string_le a (insert_sorted x l).
Proof.
  intros Hax H. destruct l as [|y l]; simpl; [now constructor|].
  destruct (String.leb x y); constructor; [assumption|]. now inversion H.
Qed.

Lemma insert_sorted_sorted x l :
  Sorted string_le l -> Sorted string_le (insert_sorted x l).
Proof.
  induction l as [|y l IH]; intros Hs; simpl.
  - repeat constructor.
  - destruct (String.leb x y) eqn:Hxy.
    + constructor; [assumption|]. now constructor.
    + inversion Hs; subst. constructor; [auto|].
      apply insert_sorted_hdrel; [|assumption].
      unfold string_le. destruct (String.leb_total x y); congruence.
Qed.

Lemma sorted_sorted l : Sorted string_le (sorted l).
Proof.
  induction l as [|x l IH]; simpl; [constructor|]. now apply insert_sorted_sorted.
Qed.

Lemma sources_nil graph : no_source graph -> sources graph = [].
Proof.
  unfold sources. induction 1 as [|[k [o i]] g Hi _ IH]; simpl in *; [reflexivity|].
  destruct i; [contradiction | exact IH].
Qed.

(** ** Lazy cycles *)

(** C4.  When the graph built from the folded configuration is not empty
    and every node has an incoming edge, [combine_configs] raises the
    lazy-loop error; it does so on two lazy substitutions that reference
    each other; and the start nodes are the nodes without incoming edges,
    in ascending order. *)
Theorem lazy_cycle_detected :
  forall (w : World) (topological_sort : graph_t -> list string -> result (list string)),
    (forall configs reduced expanded lazy_metas graph,
       reduce (update_and_expand_meta w) configs [] = OK reduced ->
       reduce (collect_lazy_meta w reduced) (filter is_meta_key (dict_keys reduced))
              (reduced, [], []) = OK (expanded, lazy_metas, graph) ->
       graph <> [] ->
       no_source graph ->
       combine_configs w topological_sort configs = Raise (ValueError LazyLoop)) /\
    combine_configs w topological_sort [mutual_lazy_config] = Raise (ValueError LazyLoop) /\
    (forall graph,
       Sorted string_le (starting_nodes graph) /\
       Permutation (sources graph) (starting_nodes graph)).
Proof.
  intros w topo. split; [|split].
  - intros configs reduced expanded lazy_metas graph Hfold Hloop Hne Hns.
    unfold combine_configs. rewrite Hfold. simpl.
    unfold resolve_lazy, deepdict. rewrite Hloop. simpl.
    destruct graph as [|n g]; [contradiction|]. simpl Nat.ltb.
    cbv iota.
    assert (E : starting_nodes (n :: g) = []).
    { unfold starting_nodes. fold (sources (n :: g)). now rewrite sources_nil. }
    rewrite E. reflexivity.
  - reflexivity.
  - intros graph. split; [apply sorted_sorted | apply sorted_perm].
Qed.

Lemma lazy_cycle_detected_witness :
  reduce (update_and_expand_meta closed_world) [mutual_lazy_config] [] = OK mutual_lazy_config /\
  reduce (collect_lazy_meta closed_world mutual_lazy_config)
         (filter is_meta_key (dict_keys mutual_lazy_config)) (mutual_lazy_config, [], [])
  = OK ([], [("x_meta", VStr "subst"); ("x", VStr "${y}");
             ("y_meta", VStr "subst"); ("y", VStr "${x}")],
        [("x", (["y"], ["y"])); ("y", (["x"], ["x"]))]) /\
  combine_configs closed_world kahn_topological_sort [mutual_lazy_config]
  = Raise (ValueError LazyLoop).
Proof.
  split; [reflexivity|]. split; [reflexivity|].
  apply (proj1 (lazy_cycle_detected closed_world kahn_topological_sort)
           [mutual_lazy_config] mutual_lazy_config []
           [("x_meta", VStr "subst"); ("x", VStr "${y}");
            ("y_meta", VStr "subst"); ("y", VStr "${x}")]
           [("x", (["y"], ["y"])); ("y", (["x"], ["x"]))]).
  - reflexivity.
  - reflexivity.
  - discriminate.
  - repeat constructor; discriminate.
Defined.

(** ** Which errors the directives raise *)

Lemma map_result_raise {A B : Type} (f : A -> result B) (xs : list A) (e : exn) :
  map_result f xs = Raise e -> exists x, In x xs /\ f x = Raise e.
Proof.
  induction xs as [|x xs IH]; simpl; [discriminate|].
  intros H. apply bind_raise in H. destruct H as [H | [y [Hy H]]].
  - exists x. auto.
  - apply bind_raise in H. destruct H as [H | [ys [_ H]]]; [|discriminate].
    destruct (IH H) as [x' [Hin Hx']]. exists x'. auto.
Qed.

(** Splits a hypothesis [_ = Raise e] along the binds and the matches of
    the function that raised. *)
Ltac raise_inv :=
  repeat match goal with
  | H : OK _ = Raise _ |- _ => discriminate H
  | H : Raise _ = Raise _ |- _ => inversion H; subst; clear H
  | H : bind _ _ = Raise _ |- _ =>
      apply bind_raise in H; destruct H as [H | [? [? H]]]
  | H : getitem _ _ = Raise _ |- _ => unfold getitem in H
  | H : assert _ = Raise _ |- _ => unfold assert in H
  | H : match ?x with _ => _ end = Raise _ |- _ => destruct x eqn:?
  | H : (let (_, _) := ?x in _) = Raise _ |- _ => destruct x eqn:?
  end.

Lemma join_pieces_benign ps e : join_pieces ps = Raise e -> benign e.
Proof.
  induction ps as [|p ps IH]; simpl; [discriminate|].
  intros H. destruct p; raise_inv; try reflexivity; auto.
Qed.

Lemma subst_str_dict_benign config_dict input e :
  subst_str_dict config_dict input = Raise e -> benign e.
Proof.
  unfold subst_str_dict, subst_pieces. intros H. raise_inv; try reflexivity.
  - match goal with H : map_result _ _ = Raise _ |- _ =>
      apply map_result_raise in H; destruct H as [t [_ H]] end.
    destruct t; raise_inv; reflexivity.
  - eapply join_pieces_benign; eassumption.
Qed.

Section Benign.

Variable w : World.

Lemma py_add_benign a b e : py_add w a b = Raise e -> benign e.
Proof. unfold py_add. intros H. raise_inv; reflexivity. Qed.

Lemma py_int_benign v e : py_int w v = Raise e -> benign e.
Proof. unfold py_int. intros H. raise_inv; reflexivity. Qed.

Lemma get_next_free_index_benign d e : _get_next_free_index w d = Raise e -> benign e.
Proof.
  unfold _get_next_free_index. intros H. raise_inv; try reflexivity.
  eapply py_int_benign; eassumption.
Qed.

Lemma crossref_check_and_cast_benign k e : crossref_check_and_cast k = Raise e -> benign e.
Proof. unfold crossref_check_and_cast. intros H. raise_inv; reflexivity. Qed.

Lemma directive_registered name d : directive w name = Some d -> registered w d.
Proof.
  unfold directive, registered.
  induction (get_meta_directives w) as [|[n d'] l IH]; simpl; [discriminate|].
  destruct (n =? name)%string; [intros H; inversion H; auto | auto].
Qed.

(** Reduces a goal about a registered w directive to the eight directives. *)
Ltac by_directive H :=
  unfold registered in H; simpl in H;
  repeat (destruct H as [H | H]; [subst; simpl in * |]); [.. | contradiction].

Lemma action_benign d config_dict key value params e :
  registered w d -> action d config_dict key value params = Raise e -> benign e.
Proof.
  intros Hd H. by_directive Hd.
  - unfold append_action in H. raise_inv; reflexivity.
  - unfold crossappend_action, crossappend_decode in H. raise_inv; try reflexivity.
    eapply py_add_benign; eassumption.
  - unfold crossappendref_action, crossappendref_decode in H. raise_inv; try reflexivity.
    eapply py_add_benign; eassumption.
  - unfold subst_action in H. raise_inv; try (eapply subst_str_dict_benign; eassumption).
    match goal with H : map_result _ _ = Raise _ |- _ =>
      apply map_result_raise in H; destruct H as [t [_ H]] end.
    eapply subst_str_dict_benign; eassumption.
  - unfold crossref_action in H. raise_inv; try reflexivity.
    match goal with H : map_result _ _ = Raise _ |- _ =>
      apply map_result_raise in H; destruct H as [t [_ H]] end.
    raise_inv; try reflexivity. eapply crossref_check_and_cast_benign; eassumption.
  - unfold transclude_action in H. raise_inv; reflexivity.
  - unfold json2list_action in H. raise_inv; reflexivity.
  - unfold prependlocal_action in H. raise_inv; reflexivity.
Qed.

Lemma target_settings_benign d key value e :
  registered w d -> target_settings d key value = Raise e -> benign e.
Proof.
  intros Hd H. by_directive Hd; try discriminate.
  - unfold crossappend_targets, crossappend_decode in H. raise_inv; reflexivity.
  - unfold crossappendref_targets, crossappendref_decode in H. raise_inv; reflexivity.
  - unfold subst_targets in H. raise_inv; reflexivity.
  - unfold crossref_targets in H. raise_inv; try reflexivity.
    match goal with H : map_result _ _ = Raise _ |- _ =>
      apply map_result_raise in H; destruct H as [t [_ H]] end.
    eapply crossref_check_and_cast_benign; eassumption.
Qed.

Lemma rename_target_benign d key value from to e :
  registered w d -> rename_target d key value from to = Raise e -> benign e.
Proof.
  intros Hd H. by_directive Hd; try discriminate.
  - unfold crossappend_rename, crossappend_decode in H. raise_inv; reflexivity.
  - unfold crossappendref_rename, crossappendref_decode in H. raise_inv; reflexivity.
  - unfold subst_rename in H. raise_inv; reflexivity.
  - unfold crossref_rename in H. raise_inv; try reflexivity.
    match goal with H : map_result _ _ = Raise _ |- _ =>
      apply map_result_raise in H; destruct H as [t [_ H]] end.
    eapply crossref_check_and_cast_benign; eassumption.
Qed.

End Benign.

(** ** Directive lists *)

Lemma lazy_not_dynamic s : startswith s "lazy" = true -> startswith s "dynamic" = false.
Proof.
  unfold startswith. destruct s as [|c s]; [discriminate|].
  change (String.prefix "lazy" (String c s))
    with (if ascii_dec "l" c then String.prefix "azy" s else false).
  change (String.prefix "dynamic" (String c s))
    with (if ascii_dec "d" c then String.prefix "ynamic" s else false).
  destruct (ascii_dec "l" c) as [<-|]; intros H; [|discriminate H].
  destruct (ascii_dec "d" "l") as [E|]; [discriminate E | reflexivity].
Qed.

Section DirectiveLists.

Variable w : World.

Lemma expand_lazy_meta_benign d meta_type setting newdict meta_dict e :
  registered w d ->
  expand_lazy_meta w d meta_type setting newdict meta_dict = Raise e -> benign e.
Proof.
  intros Hd H. unfold expand_lazy_meta in H. raise_inv; try reflexivity.
  - eapply target_settings_benign; eassumption.
  - eapply get_next_free_index_benign; eassumption.
  - eapply rename_target_benign; eassumption.
Qed.

Lemma expand_lazy_meta_ok d meta_type setting newdict meta_dict st :
  expand_lazy_meta w d meta_type setting newdict meta_dict = OK st ->
  exists newdict', st = (newdict', meta_dict, true).
Proof.
  unfold expand_lazy_meta. intros H.
  bind_inv H. bind_inv H.
  destruct (0 <? _)%nat.
  - bind_inv H. destruct a1 as [next_index newdict1].
    bind_inv H. destruct a1 as [[new_value new_meta]|]; [|discriminate].
    bind_inv H. inversion H. eauto.
  - inversion H. eauto.
Qed.

Lemma expand_eager_meta_benign d setting newdict meta_dict seen e :
  registered w d ->
  expand_eager_meta d setting newdict meta_dict seen = Raise e -> benign e.
Proof.
  intros Hd H. unfold expand_eager_meta in H. raise_inv; try reflexivity.
  eapply action_benign; eassumption.
Qed.

Lemma expand_eager_meta_ok d setting newdict meta_dict seen st :
  expand_eager_meta d setting newdict meta_dict seen = OK st ->
  exists newdict' meta_dict', st = (newdict', meta_dict', seen).
Proof.
  unfold expand_eager_meta. intros H.
  bind_inv H. bind_inv H. bind_inv H. inversion H. eauto.
Qed.

Lemma step_rejected meta_key setting newdict meta_dict seen v :
  entry_rejected w seen v = true ->
  exists e, expand_meta_type w meta_key setting (newdict, meta_dict, seen) v = Raise e /\
            invalid_directive e = true.
Proof.
  unfold entry_rejected, expand_meta_type. intros H.
  destruct v; try (eexists; split; reflexivity).
  destruct (startswith s "dynamic"); [eexists; split; reflexivity|].
  destruct (startswith s "lazy").
  - destruct (directive w _); [|eexists; split; reflexivity].
    rewrite H. eexists; split; reflexivity.
  - destruct seen; [eexists; split; reflexivity|].
    destruct (directive w s); [discriminate|]. eexists; split; reflexivity.
Qed.

Lemma step_accepted meta_key setting newdict meta_dict seen v :
  entry_rejected w seen v = false ->
  (forall e, expand_meta_type w meta_key setting (newdict, meta_dict, seen) v = Raise e ->
             benign e) /\
  (forall st, expand_meta_type w meta_key setting (newdict, meta_dict, seen) v = OK st ->
              exists newdict' meta_dict',
                st = (newdict', meta_dict', seen || is_lazy_name v)).
Proof.
  unfold entry_rejected, expand_meta_type, is_lazy_name. intros H.
  destruct v; try discriminate.
  destruct (startswith s "dynamic"); [discriminate|].
  destruct (startswith s "lazy").
  - destruct (directive w _) as [d|] eqn:Hd; [|discriminate]. subst seen.
    apply directive_registered in Hd. split.
    + intros e He. eapply expand_lazy_meta_benign; eassumption.
    + intros st Hst. apply expand_lazy_meta_ok in Hst. destruct Hst as [nd ->]. eauto.
  - destruct seen; [discriminate|].
    destruct (directive w s) as [d|] eqn:Hd; [|discriminate].
    apply directive_registered in Hd. split.
    + intros e He. eapply expand_eager_meta_benign; eassumption.
    + intros st Hst. apply expand_eager_meta_ok in Hst.
      destruct Hst as [nd [md ->]]. eauto.
Qed.

Lemma reduce_directives_invalid meta_key setting l :
  forall newdict meta_dict seen e,
    reduce (expand_meta_type w meta_key setting) l (newdict, meta_dict, seen) = Raise e ->
    invalid_directive e = true ->
    rejected_from w seen l = true.
Proof.
  induction l as [|v l IH]; intros newdict meta_dict seen e H Hinv;
    cbn [reduce rejected_from] in *.
  - discriminate.
  - destruct (entry_rejected w seen v) eqn:Hr; [reflexivity|]. cbn [orb].
    destruct (step_accepted meta_key setting newdict meta_dict seen v Hr) as [Hraise Hok].
    apply bind_raise in H. destruct H as [H | [st [Hst H]]].
    + apply Hraise in H. unfold benign in H. congruence.
    + destruct (Hok _ Hst) as [nd [md ->]]. eapply IH; eassumption.
Qed.

Lemma reduce_directives_rejected meta_key setting l :
  forall newdict meta_dict seen,
    rejected_from w seen l = true ->
    exists e,
      reduce (expand_meta_type w meta_key setting) l (newdict, meta_dict, seen) = Raise e /\
      (invalid_directive e = true \/
       exists l1 l2, l = l1 ++ l2 /\ rejected_from w seen l1 = false /\
         reduce (expand_meta_type w meta_key setting) l1 (newdict, meta_dict, seen) = Raise e).
Proof.
  induction l as [|v l IH]; intros newdict meta_dict seen H;
    cbn [reduce rejected_from] in *.
  - discriminate.
  - destruct (entry_rejected w seen v) eqn:Hr.
    + destruct (step_rejected meta_key setting newdict meta_dict seen v Hr) as [e [He Hinv]].
      exists e. rewrite He. auto.
    + cbn [orb] in H.
      destruct (step_accepted meta_key setting newdict meta_dict seen v Hr) as [Hraise Hok].
      destruct (expand_meta_type w meta_key setting (newdict, meta_dict, seen) v)
        as [st|e] eqn:Hst.
      * destruct (Hok _ eq_refl) as [nd [md ->]].
        destruct (IH nd md _ H) as [e [He Hcase]].
        exists e. cbn [bind]. split; [assumption|].
        destruct Hcase as [Hinv | [l1 [l2 [-> [Hl1 Hrun]]]]]; [auto|].
        right. exists (v :: l1), l2. cbn [reduce rejected_from app].
        rewrite Hr, Hst. cbn [bind orb]. auto.
      * exists e. cbn [bind]. split; [reflexivity|].
        right. exists [v], l. cbn [reduce rejected_from app].
        rewrite Hr, Hst. cbn [bind orb]. auto.
Qed.

(** With [seen_lazy] set, any further entry is rejected. *)
Lemma rejected_from_true l :
  rejected_from w true l = match l with [] => false | _ :: _ => true end.
Proof.
  destruct l as [|v l]; simpl; [reflexivity|].
  assert (E : entry_rejected w true v = true).
  { unfold entry_rejected. destruct v; try reflexivity.
    destruct (startswith s "dynamic"); [reflexivity|].
    destruct (startswith s "lazy"); [|reflexivity].
    now destruct (directive w _). }
  now rewrite E.
Qed.

Lemma flawed_cons v l :
  flawed w (v :: l) =
  is_unknown_name w v || has_dynamic_prefix v || is_non_string v ||
  (is_lazy_name v && (existsb is_lazy_name l || existsb is_eager_name l)) ||
  flawed w l.
Proof. unfold flawed. simpl. btauto. Qed.

Lemma nonempty_after_lazy l :
  existsb is_lazy_name l || existsb is_eager_name l || flawed w l =
  match l with [] => false | _ :: _ => true end.
Proof.
  destruct l as [|v l]; [reflexivity|].
  rewrite flawed_cons. simpl.
  destruct v; simpl; btauto.
Qed.

(** The five conditions say when the loop, left to itself, rejects an
    entry. *)
Lemma rejected_from_flawed l : rejected_from w false l = flawed w l.
Proof.
  induction l as [|v l IH]; [reflexivity|].
  rewrite flawed_cons. simpl rejected_from.
  destruct (is_lazy_name v) eqn:Hlazy.
  - rewrite rejected_from_true, <- (nonempty_after_lazy l).
    destruct v; try discriminate. simpl in Hlazy.
    unfold entry_rejected, is_unknown_name, has_dynamic_prefix, is_non_string.
    rewrite (lazy_not_dynamic _ Hlazy), Hlazy.
    destruct (directive w _); simpl; btauto.
  - simpl. rewrite IH.
    destruct v; try reflexivity. simpl in Hlazy.
    unfold entry_rejected, is_unknown_name, has_dynamic_prefix, is_non_string.
    rewrite Hlazy. destruct (startswith s "dynamic"); simpl; [btauto|].
    destruct (directive w s); simpl; btauto.
Qed.

(** The loop rejects an entry with the error of its own raise site. *)
Lemma rejection_none meta_key seen v :
  rejection w meta_key seen v = None <-> entry_rejected w seen v = false.
Proof.
  unfold rejection, entry_rejected. destruct v; try (split; discriminate).
  destruct (startswith s "dynamic"); [split; discriminate|].
  destruct (startswith s "lazy").
  - destruct (directive w _); [|split; discriminate].
    destruct seen; split; (discriminate || reflexivity).
  - destruct seen; [split; discriminate|].
    destruct (directive w s); split; (discriminate || reflexivity).
Qed.

Lemma step_rejection meta_key setting newdict meta_dict seen v e :
  rejection w meta_key seen v = Some e ->
  expand_meta_type w meta_key setting (newdict, meta_dict, seen) v = Raise e /\
  invalid_directive e = true.
Proof.
  unfold rejection, expand_meta_type. intros H.
  destruct v; try (inversion H; subst; split; reflexivity).
  destruct (startswith s "dynamic"); [inversion H; subst; split; reflexivity|].
  destruct (startswith s "lazy").
  - destruct (directive w _); [|inversion H; subst; split; reflexivity].
    destruct seen; [inversion H; subst; split; reflexivity | discriminate].
  - destruct seen; [inversion H; subst; split; reflexivity|].
    destruct (directive w s); [discriminate | inversion H; subst; split; reflexivity].
Qed.

Lemma reduce_directives_first meta_key setting l :
  forall newdict meta_dict seen e,
    reduce (expand_meta_type w meta_key setting) l (newdict, meta_dict, seen) = Raise e ->
    invalid_directive e = true ->
    first_rejection w meta_key seen l = Some e.
Proof.
  induction l as [|v l IH]; intros newdict meta_dict seen e H Hinv;
    cbn [reduce first_rejection] in *; [discriminate|].
  destruct (rejection w meta_key seen v) as [e'|] eqn:Hr.
  - destruct (step_rejection meta_key setting newdict meta_dict seen v e' Hr) as [He' _].
    rewrite He' in H. cbn [bind] in H. congruence.
  - apply rejection_none in Hr.
    destruct (step_accepted meta_key setting newdict meta_dict seen v Hr) as [Hraise Hok].
    apply bind_raise in H. destruct H as [H | [st [Hst H]]].
    + apply Hraise in H. unfold benign in H. congruence.
    + destruct (Hok _ Hst) as [nd [md ->]]. eapply IH; eassumption.
Qed.

(** An entry that starts with [dynamic], once the loop gets to it, is
    rejected with the error that tells to rename it to [lazy]. *)
Lemma dynamic_entry_reached meta_key setting s l2 :
  startswith s "dynamic" = true ->
  forall l1 newdict meta_dict seen,
    rejected_from w seen l1 = false ->
    exists e,
      reduce (expand_meta_type w meta_key setting) (l1 ++ VStr s :: l2)
             (newdict, meta_dict, seen) = Raise e /\
      (e = ValueError (DynamicMeta s) \/
       (invalid_directive e = false /\
        reduce (expand_meta_type w meta_key setting) l1 (newdict, meta_dict, seen) = Raise e)).
Proof.
  intros Hs. induction l1 as [|v l1 IH]; intros newdict meta_dict seen Hl1;
    cbn [app reduce rejected_from] in *.
  - exists (ValueError (DynamicMeta s)). unfold expand_meta_type at 1. rewrite Hs. auto.
  - apply orb_false_iff in Hl1. destruct Hl1 as [Hv Hl1].
    destruct (step_accepted meta_key setting newdict meta_dict seen v Hv) as [Hraise Hok].
    destruct (expand_meta_type w meta_key setting (newdict, meta_dict, seen) v)
      as [st|e] eqn:Hst; cbn [bind].
    + destruct (Hok _ eq_refl) as [nd [md ->]]. exact (IH nd md _ Hl1).
    + exists e. split; [reflexivity|]. right. split; [|reflexivity]. now apply Hraise.
Qed.

End DirectiveLists.

(** C9, amended.  The evaluation of a directive list raises an
    invalid-directive error only if the list has one of the five flaws,
    and the error is then that of the first entry that the loop rejects:
    for a name that starts with [dynamic], the error whose message tells
    to rename the directive to [lazy].  A list with one of the five flaws
    always fails, and it fails with the error of the first rejected entry
    unless a part of the list before the flaw has already failed with an
    error of another kind.  In particular a name that starts with
    [dynamic], after entries without a flaw, is rejected with the rename
    error unless those entries have failed. *)
Theorem invalid_directive_iff_reached :
  forall (w : World) (meta_key setting : string) (l : list Value) (newdict meta_dict : dict),
    (forall e, run_directives w meta_key setting l newdict meta_dict = Raise e ->
               invalid_directive e = true ->
               flawed w l = true /\ first_rejection w meta_key false l = Some e) /\
    (flawed w l = true ->
     exists e, run_directives w meta_key setting l newdict meta_dict = Raise e /\
       ((invalid_directive e = true /\ first_rejection w meta_key false l = Some e) \/
        exists l1 l2, l = l1 ++ l2 /\ flawed w l1 = false /\
          invalid_directive e = false /\
          run_directives w meta_key setting l1 newdict meta_dict = Raise e)) /\
    (forall l1 s l2,
       l = l1 ++ VStr s :: l2 -> flawed w l1 = false -> startswith s "dynamic" = true ->
       exists e, run_directives w meta_key setting l newdict meta_dict = Raise e /\
         (e = ValueError (DynamicMeta s) \/
          (invalid_directive e = false /\
           run_directives w meta_key setting l1 newdict meta_dict = Raise e))).
Proof.
  intros w meta_key setting l newdict meta_dict. unfold run_directives. split; [|split].
  - intros e H Hinv. rewrite <- rejected_from_flawed. split.
    + eapply reduce_directives_invalid; eassumption.
    + eapply reduce_directives_first; eassumption.
  - intros H. rewrite <- rejected_from_flawed in H.
    destruct (reduce_directives_rejected w meta_key setting l newdict meta_dict false H)
      as [e [He Hcase]].
    exists e. split; [assumption|].
    destruct (invalid_directive e) eqn:Hinv.
    + left. split; [reflexivity|]. eapply reduce_directives_first; eassumption.
    + destruct Hcase as [Hc | [l1 [l2 [-> [Hl1 Hrun]]]]]; [discriminate|].
      right. exists l1, l2. rewrite <- rejected_from_flawed. auto.
  - intros l1 s l2 -> Hl1 Hs. rewrite <- rejected_from_flawed in Hl1.
    exact (dynamic_entry_reached w meta_key setting s l2 Hs l1 newdict meta_dict false Hl1).
Qed.

Lemma invalid_directive_iff_reached_witness :
  (run_directives closed_world "a_meta" "a" [VStr "subst"; VStr "bogus"] []
     [("a", VStr "x"); ("a_meta", VList [VStr "subst"; VStr "bogus"])]
   = Raise (ValueError (MetaUnsupported "a_meta" "bogus")) /\
   flawed closed_world [VStr "subst"; VStr "bogus"] = true /\
   first_rejection closed_world "a_meta" false [VStr "subst"; VStr "bogus"] =
     Some (ValueError (MetaUnsupported "a_meta" "bogus"))) /\
  (flawed closed_world [VStr "append"; VStr "bogus"] = true /\
   exists e, run_directives closed_world "a_meta" "a" [VStr "append"; VStr "bogus"] []
               [("a", VStr "x")] = Raise e /\
     ((invalid_directive e = true /\
       first_rejection closed_world "a_meta" false [VStr "append"; VStr "bogus"] = Some e) \/
      exists l1 l2, [VStr "append"; VStr "bogus"] = l1 ++ l2 /\
        flawed closed_world l1 = false /\ invalid_directive e = false /\
        run_directives closed_world "a_meta" "a" l1 [] [("a", VStr "x")] = Raise e)) /\
  (run_directives closed_world "a_meta" "a" [VStr "subst"; VStr "dynamicsubst"] []
     [("a", VStr "x")]
   = Raise (ValueError (DynamicMeta "dynamicsubst")) /\
   exists e, run_directives closed_world "a_meta" "a" [VStr "subst"; VStr "dynamicsubst"] []
               [("a", VStr "x")] = Raise e /\
     (e = ValueError (DynamicMeta "dynamicsubst") \/
      (invalid_directive e = false /\
       run_directives closed_world "a_meta" "a" [VStr "subst"] [] [("a", VStr "x")] = Raise e))).
Proof.
  split; [|split].
  - split; [reflexivity|].
    apply (proj1 (invalid_directive_iff_reached closed_world "a_meta" "a"
                    [VStr "subst"; VStr "bogus"] []
                    [("a", VStr "x"); ("a_meta", VList [VStr "subst"; VStr "bogus"])])
                 (ValueError (MetaUnsupported "a_meta" "bogus"))); reflexivity.
  - split; [reflexivity|].
    apply (proj1 (proj2 (invalid_directive_iff_reached closed_world "a_meta" "a"
                           [VStr "append"; VStr "bogus"] [] [("a", VStr "x")]))).
    reflexivity.
  - split; [reflexivity|].
    apply (proj2 (proj2 (invalid_directive_iff_reached closed_world "a_meta" "a"
                           [VStr "subst"; VStr "dynamicsubst"] [] [("a", VStr "x")]))
             [VStr "subst"] "dynamicsubst" []); reflexivity.
Defined.

(** C9 as stated fails: the list [append, bogus] contains an unknown
    name, but on a value that is not a list [append] raises first, with
    an error that is not of the kind invalid-directive. *)
Lemma invalid_directive_not_exactly_flawed :
  ~ (forall (w : World) (meta_key setting : string) (l : list Value) (newdict meta_dict : dict),
       flawed w l = true <->
       exists e, run_directives w meta_key setting l newdict meta_dict = Raise e /\
                 invalid_directive e = true).
Proof.
  intros H.
  destruct (proj1 (H closed_world "a_meta" "a" [VStr "append"; VStr "bogus"] []
                     [("a", VStr "x")]) eq_refl) as [e [He Hinv]].
  vm_compute in He. inversion He. subst e. discriminate Hinv.
Qed.

(** ** Strings: concatenation *)

Lemma length_append a b : String.length (a +++ b) = String.length a + String.length b.
Proof. induction a as [|c a IH]; simpl; [reflexivity | now rewrite IH]. Qed.

Lemma append_assoc a b c : (a +++ b) +++ c = a +++ (b +++ c).
Proof. induction a as [|x a IH]; simpl; [reflexivity | now rewrite IH]. Qed.

Lemma append_inj_l a b c : a +++ b = a +++ c -> b = c.
Proof. induction a as [|x a IH]; simpl; intros H; [assumption | inversion H; auto]. Qed.

Lemma append_nil_r a : a +++ EmptyString = a.
Proof. induction a as [|x a IH]; simpl; [reflexivity | now rewrite IH]. Qed.

Lemma format_int_not_meta i : format_int i <> "meta".
Proof.
  unfold format_int, NilZero.string_of_int, NilZero.string_of_uint.
  destruct (Z.to_int i) as [u|u]; destruct u; simpl; discriminate.
Qed.

(** The four keys written by the renaming are pairwise distinct. *)
Lemma new_base_neq_setting s x : s +++ "_" +++ x <> s.
Proof.
  intros H. apply (f_equal String.length) in H.
  rewrite !length_append in H. simpl in H. lia.
Qed.

Lemma new_base_neq_meta s i : s +++ "_" +++ format_int i <> s +++ "_meta".
Proof.
  intros H. apply append_inj_l in H. inversion H.
  now apply (format_int_not_meta i).
Qed.

Lemma new_base_meta_neq_setting s x : (s +++ "_" +++ x) +++ "_meta" <> s.
Proof.
  intros H. apply (f_equal String.length) in H.
  rewrite !length_append in H. simpl in H. lia.
Qed.

Lemma new_base_meta_neq_meta s x : (s +++ "_" +++ x) +++ "_meta" <> s +++ "_meta".
Proof.
  intros H. rewrite append_assoc in H. apply append_inj_l in H.
  apply (f_equal String.length) in H. simpl in H.
  rewrite !length_append in H. simpl in H. lia.
Qed.

Lemma meta_neq_self s : s +++ "_meta" <> s.
Proof.
  intros H. apply (f_equal String.length) in H.
  rewrite !length_append in H. simpl in H. lia.
Qed.

(** ** Dictionaries: unique keys and update *)

Section DictUpdate.

Context {A : Type}.
Implicit Types (d : list (string * A)) (k : string) (v : A).

Lemma nodup_dict_set d k v : NoDup (dict_keys d) -> NoDup (dict_keys (dict_set d k v)).
Proof.
  intros H. rewrite dict_keys_set. destruct (dict_mem k d) eqn:Hm; [assumption|].
  apply dict_mem_false_iff in Hm.
  apply NoDup_app; [assumption | repeat constructor; auto | ].
  intros x Hx [<-|[]]. contradiction.
Qed.

Lemma nodup_dict_update d1 d2 : NoDup (dict_keys d1) -> NoDup (dict_keys (dict_update d1 d2)).
Proof.
  unfold dict_update. revert d1.
  induction d2 as [|[k v] d2 IH]; intros d1 H; simpl; [assumption|].
  apply IH. now apply nodup_dict_set.
Qed.

Lemma nodup_dict_literal (items : list (string * A)) : NoDup (dict_keys (dict_literal items)).
Proof. apply nodup_dict_update. constructor. Qed.

Lemma dict_get_update d1 d2 k :
  NoDup (dict_keys d2) ->
  dict_get k (dict_update d1 d2) =
  match dict_get k d2 with Some v => Some v | None => dict_get k d1 end.
Proof.
  unfold dict_update. revert d1.
  induction d2 as [|[k' v'] d2 IH]; intros d1 Hnd; simpl; [reflexivity|].
  inversion Hnd as [|? ? Hnotin Hnd']; subst.
  rewrite IH by assumption.
  destruct (String.eqb_spec k' k) as [->|Hne].
  - apply dict_get_none_iff in Hnotin. rewrite Hnotin. apply dict_get_set_same.
  - now rewrite dict_get_set_other.
Qed.

End DictUpdate.

(** ** Self-referential lazy metas *)


Lemma dict_get_literal3 (a b c k : string) (x y z : Value) :
  dict_get k (dict_literal [(a, x); (b, y); (c, z)]) =
  if (c =? k)%string then Some z
  else if (b =? k)%string then Some y
  else if (a =? k)%string then Some x
  else None.
Proof.
  change (dict_literal [(a, x); (b, y); (c, z)])
    with (dict_set (dict_set (dict_set [] a x) b y) c z).
  destruct (String.eqb_spec c k) as [->|Hc]; [apply dict_get_set_same|].
  rewrite dict_get_set_other by assumption.
  destruct (String.eqb_spec b k) as [->|Hb]; [apply dict_get_set_same|].
  rewrite dict_get_set_other by assumption.
  destruct (String.eqb_spec a k) as [->|Ha]; [apply dict_get_set_same|].
  now rewrite dict_get_set_other.
Qed.

Lemma dict_get_literal1 (a k : string) (x : Value) :
  dict_get k (dict_literal [(a, x)]) = if (a =? k)%string then Some x else None.
Proof. reflexivity. Qed.

(** What the dictionary holds after the update of the renaming. *)
Lemma renamed_lookup (newdict : dict) (nb s sm nbm : string) (old nv lz : Value)
    (om : option Value) :
  nb <> s -> nb <> sm -> s <> sm -> nbm <> nb -> nbm <> s -> nbm <> sm ->
  let update_dict := dict_update [] (dict_literal [(nb, old); (s, nv); (sm, lz)]) in
  let update_dict :=
    match om with
    | Some old_meta => dict_update update_dict (dict_literal [(nbm, old_meta)])
    | None => update_dict
    end in
  let newdict' := dict_update newdict update_dict in
  dict_get nb newdict' = Some old /\
  dict_get s newdict' = Some nv /\
  dict_get sm newdict' = Some lz /\
  dict_get nbm newdict' = match om with Some m => Some m | None => dict_get nbm newdict end /\
  (forall k, k <> nb -> k <> s -> k <> sm -> k <> nbm ->
             dict_get k newdict' = dict_get k newdict).
Proof.
  intros H1 H2 H3 H4 H5 H6. cbv zeta.
  set (U := dict_update [] (dict_literal [(nb, old); (s, nv); (sm, lz)])).
  assert (HU : forall k, dict_get k U =
            if (sm =? k)%string then Some lz
            else if (s =? k)%string then Some nv
            else if (nb =? k)%string then Some old else None).
  { intros k. unfold U. rewrite dict_get_update by apply nodup_dict_literal.
    rewrite dict_get_literal3.
    destruct (sm =? k)%string, (s =? k)%string, (nb =? k)%string; reflexivity. }
  assert (HndU : NoDup (dict_keys U)) by (apply nodup_dict_update; constructor).
  set (U' := match om with
             | Some old_meta => dict_update U (dict_literal [(nbm, old_meta)])
             | None => U
             end).
  assert (HU' : forall k, dict_get k U' =
            if (nbm =? k)%string
            then match om with Some m => Some m | None => dict_get k U end
            else dict_get k U).
  { intros k. unfold U'. destruct om as [m|].
    - rewrite dict_get_update by apply nodup_dict_literal.
      rewrite dict_get_literal1. now destruct (nbm =? k)%string.
    - now destruct (nbm =? k)%string. }
  assert (HndU' : NoDup (dict_keys U')).
  { unfold U'. destruct om; [now apply nodup_dict_update | assumption]. }
  assert (E : forall a b : string, a <> b -> (a =? b)%string = false)
    by (intros a b; apply String.eqb_neq).
  repeat split.
  - rewrite dict_get_update, HU', HU by assumption.
    rewrite (E nbm nb), (E sm nb), (E s nb), String.eqb_refl by congruence. reflexivity.
  - rewrite dict_get_update, HU', HU by assumption.
    rewrite (E nbm s), (E sm s), String.eqb_refl by congruence. reflexivity.
  - rewrite dict_get_update, HU', HU by assumption.
    rewrite (E nbm sm), String.eqb_refl by congruence. reflexivity.
  - rewrite dict_get_update, HU', HU by assumption.
    rewrite String.eqb_refl, (E sm nbm), (E s nbm), (E nb nbm) by congruence.
    now destruct om.
  - intros k K1 K2 K3 K4.
    rewrite dict_get_update, HU', HU by assumption.
    rewrite (E nbm k), (E sm k), (E s k), (E nb k) by congruence. reflexivity.
Qed.


(** ** The local copy of the provider *)

Section LocalCopy.

Variable w : World.

(** One directive leaves the keys of the local copy as they are. *)
Lemma expand_meta_type_keys meta_key setting newdict meta_dict seen v newdict' meta_dict' seen' :
  expand_meta_type w meta_key setting (newdict, meta_dict, seen) v
    = OK (newdict', meta_dict', seen') ->
  forall k, In k (dict_keys meta_dict') <-> In k (dict_keys meta_dict).
Proof.
  unfold expand_meta_type. intros H k.
  destruct v; try discriminate.
  destruct (startswith s "dynamic"); [discriminate|].
  destruct (startswith s "lazy").
  - destruct (directive w _) as [d|]; [|discriminate].
    destruct seen; [discriminate|].
    apply expand_lazy_meta_ok in H. destruct H as [nd H]. inversion H. tauto.
  - destruct seen; [discriminate|].
    destruct (directive w s) as [d|]; [|discriminate].
    unfold expand_eager_meta in H.
    bind_inv H. bind_inv H. bind_inv H. inversion H; subst.
    rewrite in_dict_keys_set. apply getitem_ok in Ha.
    assert (In setting (dict_keys meta_dict)).
    { apply dict_mem_true_iff. unfold dict_mem. now rewrite Ha. }
    split; [intros [->|?]; assumption | auto].
Qed.

Lemma reduce_meta_types_keys meta_key setting l :
  forall newdict meta_dict seen newdict' meta_dict' seen',
    reduce (expand_meta_type w meta_key setting) l (newdict, meta_dict, seen)
      = OK (newdict', meta_dict', seen') ->
    forall k, In k (dict_keys meta_dict') <-> In k (dict_keys meta_dict).
Proof.
  induction l as [|v l IH]; intros newdict meta_dict seen newdict' meta_dict' seen' H k;
    cbn [reduce] in H.
  - inversion H. tauto.
  - bind_inv H. destruct a as [[nd md] sn].
    rewrite (IH _ _ _ _ _ _ H k). eapply expand_meta_type_keys; eassumption.
Qed.

(** Handling one meta key: the directives are run, then the meta key and
    the setting are deleted from the local copy. *)
Lemma expand_meta_key_ok newdict meta_dict meta_key newdict' meta_dict' :
  expand_meta_key w (newdict, meta_dict) meta_key = OK (newdict', meta_dict') ->
  let setting := drop_end (String.length "_meta") meta_key in
  exists meta_type_from_dict meta_directives meta_dict1 seen,
    dict_get meta_key meta_dict = Some meta_type_from_dict /\
    normalise_directives meta_type_from_dict = OK meta_directives /\
    run_directives w meta_key setting meta_directives newdict meta_dict
      = OK (newdict', meta_dict1, seen) /\
    In meta_key (dict_keys meta_dict1) /\
    In setting (dict_keys (dict_remove meta_dict1 meta_key)) /\
    meta_dict' = dict_remove (dict_remove meta_dict1 meta_key) setting.
Proof.
  intros H setting. unfold expand_meta_key in H. fold setting in H.
  bind_inv H. bind_inv H. bind_inv H. destruct a1 as [[nd md1] seen].
  bind_inv H. bind_inv H. inversion H; subst.
  apply getitem_ok in Ha. apply delitem_ok in Ha2, Ha3.
  destruct Ha2 as [Hin2 ->]. destruct Ha3 as [Hin3 ->].
  exists a, a0, md1, seen. auto 10.
Qed.

Lemma expand_meta_key_keys newdict meta_dict meta_key newdict' meta_dict' :
  expand_meta_key w (newdict, meta_dict) meta_key = OK (newdict', meta_dict') ->
  let setting := drop_end (String.length "_meta") meta_key in
  In meta_key (dict_keys meta_dict) /\ In setting (dict_keys meta_dict) /\
  setting <> meta_key /\
  forall k, In k (dict_keys meta_dict') <->
            k <> meta_key /\ k <> setting /\ In k (dict_keys meta_dict).
Proof.
  intros H setting. apply expand_meta_key_ok in H. fold setting in H.
  destruct H as [mt [l [md1 [seen [Hget [_ [Hrun [Hin1 [Hin2 ->]]]]]]]]].
  pose proof (reduce_meta_types_keys _ _ _ _ _ _ _ _ _ Hrun) as Hkeys.
  apply in_dict_keys_remove in Hin2. destruct Hin2 as [Hne Hin2].
  split; [now apply Hkeys|]. split; [now apply Hkeys|]. split; [assumption|].
  intros k. rewrite !in_dict_keys_remove, Hkeys. tauto.
Qed.

(** If the loop over the meta keys completes, every key it handled had
    its setting in the local copy it started from. *)
Lemma reduce_meta_keys_settings ks :
  forall newdict meta_dict st,
    reduce (expand_meta_key w) ks (newdict, meta_dict) = OK st ->
    forall meta_key, In meta_key ks ->
      In (drop_end (String.length "_meta") meta_key) (dict_keys meta_dict).
Proof.
  induction ks as [|k ks IH]; intros newdict meta_dict st H meta_key Hin;
    cbn [reduce] in H; [contradiction|].
  bind_inv H. destruct a as [nd md].
  apply expand_meta_key_keys in Ha. destruct Ha as [_ [Hs [_ Hkeys]]].
  destruct Hin as [->|Hin]; [assumption|].
  specialize (IH _ _ _ H _ Hin). apply Hkeys in IH. tauto.
Qed.

End LocalCopy.

(** With the meta key but not the setting in the local copy of the
    provider, handling the meta key fails: with the error that rejects the
    directive list or its first entry; and with the key error of the
    setting when the list is empty or its first entry is accepted. *)
Lemma expand_meta_key_without_setting (w : World) (newdict meta_dict : dict) meta_key
    meta_type_from_dict :
  dict_get meta_key meta_dict = Some meta_type_from_dict ->
  dict_get (drop_end (String.length "_meta") meta_key) meta_dict = None ->
  expand_meta_key w (newdict, meta_dict) meta_key =
  Raise match normalise_directives meta_type_from_dict with
        | Raise e => e
        | OK [] => KeyError (drop_end (String.length "_meta") meta_key)
        | OK (v :: _) =>
            match rejection w meta_key false v with
            | Some e => e
            | None => KeyError (drop_end (String.length "_meta") meta_key)
            end
        end.
Proof.
  intros Hmeta Hset. unfold expand_meta_key.
  set (setting := drop_end (String.length "_meta") meta_key) in *.
  unfold getitem at 1. rewrite Hmeta. cbn [bind].
  destruct (normalise_directives meta_type_from_dict) as [[|v l]|e]; cbn [bind reduce];
    [| |reflexivity].
  - unfold delitem.
    assert (H1 : dict_mem meta_key meta_dict = true) by (unfold dict_mem; now rewrite Hmeta).
    rewrite H1. cbn [bind].
    assert (H2 : dict_mem setting (dict_remove meta_dict meta_key) = false).
    { unfold dict_mem. destruct (String.eqb_spec meta_key setting) as [<-|Hne].
      - now rewrite dict_get_remove_same.
      - rewrite dict_get_remove_other by assumption. now rewrite Hset. }
    now rewrite H2.
  - destruct (rejection w meta_key false v) as [e|] eqn:Hr.
    + destruct (step_rejection w meta_key setting newdict meta_dict false v e Hr) as [-> _].
      reflexivity.
    + unfold rejection in Hr. unfold expand_meta_type.
      destruct v as [| | | |s| |]; try discriminate.
      destruct (startswith s "dynamic"); [discriminate|].
      destruct (startswith s "lazy").
      * destruct (directive w _) as [d|]; [|discriminate].
        unfold expand_lazy_meta, getitem. now rewrite Hset.
      * destruct (directive w s) as [d|]; [|discriminate].
        unfold expand_eager_meta, getitem. now rewrite Hset.
Qed.

(** C1, amended.  Handling a meta key completes only by reading its
    directive list from the provider, running it, and deleting both the
    meta key and its setting from the local copy of the provider, and the
    setting is read from that copy: so the eager evaluator completes only
    if every meta key of the provider has its setting in the same
    provider.  With the setting in the base only, whatever the base holds,
    handling the meta key fails: with the key error of the setting when
    the directive list is empty or its first entry is accepted, and
    otherwise with the error that rejects the list or its first entry;
    this is the error of the evaluator when the meta key is the first of
    the provider. *)
Theorem meta_key_needs_setting_in_provider :
  forall (w : World),
    (forall newdict meta_dict meta_key newdict' meta_dict',
       expand_meta_key w (newdict, meta_dict) meta_key = OK (newdict', meta_dict') ->
       let setting := drop_end (String.length "_meta") meta_key in
       (exists meta_type_from_dict meta_directives meta_dict1 seen,
          dict_get meta_key meta_dict = Some meta_type_from_dict /\
          normalise_directives meta_type_from_dict = OK meta_directives /\
          run_directives w meta_key setting meta_directives newdict meta_dict
            = OK (newdict', meta_dict1, seen) /\
          meta_dict' = dict_remove (dict_remove meta_dict1 meta_key) setting) /\
       In setting (dict_keys meta_dict) /\
       ~ In meta_key (dict_keys meta_dict') /\
       ~ In setting (dict_keys meta_dict')) /\
    (forall config_dict meta_dict result,
       update_and_expand_meta w config_dict meta_dict = OK result ->
       forall meta_key,
         In meta_key (dict_keys meta_dict) -> is_meta_key meta_key = true ->
         In (drop_end (String.length "_meta") meta_key) (dict_keys meta_dict)) /\
    (forall (config_dict meta_dict : dict) meta_key meta_type_from_dict,
       let setting := drop_end (String.length "_meta") meta_key in
       dict_get meta_key meta_dict = Some meta_type_from_dict ->
       dict_get setting meta_dict = None ->
       exists e,
         expand_meta_key w (config_dict, meta_dict) meta_key = Raise e /\
         (forall rest, filter is_meta_key (dict_keys meta_dict) = meta_key :: rest ->
                       update_and_expand_meta w config_dict meta_dict = Raise e) /\
         match normalise_directives meta_type_from_dict with
         | Raise e' => e = e'
         | OK [] => e = KeyError setting
         | OK (v :: _) =>
             match rejection w meta_key false v with
             | Some e' => e = e'
             | None => e = KeyError setting
             end
         end).
Proof.
  intros w. split; [|split].
  - intros newdict meta_dict meta_key newdict' meta_dict' H setting.
    pose proof (expand_meta_key_keys w _ _ _ _ _ H) as [_ [Hs [_ Hkeys]]].
    apply expand_meta_key_ok in H.
    destruct H as [mt [l [md1 [seen [Hget [Hnorm [Hrun [_ [_ Hmd]]]]]]]]].
    split; [exists mt, l, md1, seen; auto|]. split; [assumption|].
    split; intros Hin; apply Hkeys in Hin; tauto.
  - intros config_dict meta_dict result H meta_key Hin Hmeta.
    unfold update_and_expand_meta, deepdict in H. bind_inv H.
    destruct a as [nd md].
    eapply reduce_meta_keys_settings; [eassumption|].
    apply filter_In. auto.
  - intros config_dict meta_dict meta_key mt setting Hmeta Hset.
    pose proof (expand_meta_key_without_setting w config_dict meta_dict meta_key mt Hmeta Hset)
      as H.
    fold setting in H. eexists. split; [exact H|]. split.
    + intros rest Hkeys. unfold update_and_expand_meta, deepdict.
      rewrite Hkeys. cbn [reduce]. now rewrite H.
    + destruct (normalise_directives mt) as [[|v l]|e']; try reflexivity.
      now destruct (rejection w meta_key false v).
Qed.

Lemma meta_key_needs_setting_in_provider_witness :
  (expand_meta_key closed_world
     ([("items", VList [VStr "a"])], [("items", VList [VStr "b"]); ("items_meta", VStr "append")])
     "items_meta"
   = OK ([("items", VList [VStr "a"; VStr "b"])], []) /\
   In "items" (dict_keys [("items", VList [VStr "b"]); ("items_meta", VStr "append")]) /\
   ~ In "items_meta" (dict_keys (@nil (string * Value))) /\
   ~ In "items" (dict_keys (@nil (string * Value)))) /\
  (update_and_expand_meta closed_world [("items", VList [VStr "a"])]
     [("items", VList [VStr "b"]); ("items_meta", VStr "append")]
   = OK [("items", VList [VStr "a"; VStr "b"])] /\
   In "items" (dict_keys [("items", VList [VStr "b"]); ("items_meta", VStr "append")])) /\
  (update_and_expand_meta closed_world [("items", VList [VStr "a"])]
     [("items_meta", VStr "append")] = Raise (KeyError "items") /\
   update_and_expand_meta closed_world [("items", VList [VStr "a"])]
     [("items_meta", VStr "bogus")] = Raise (ValueError (MetaUnsupported "items_meta" "bogus")) /\
   exists e,
     expand_meta_key closed_world ([("items", VList [VStr "a"])], [("items_meta", VStr "append")])
       "items_meta" = Raise e /\
     (forall rest,
        filter is_meta_key (dict_keys [("items_meta", VStr "append")]) = "items_meta" :: rest ->
        update_and_expand_meta closed_world [("items", VList [VStr "a"])]
          [("items_meta", VStr "append")] = Raise e) /\
     e = KeyError "items").
Proof.
  split; [|split].
  - split; [reflexivity|].
    apply (proj1 (meta_key_needs_setting_in_provider closed_world)
             [("items", VList [VStr "a"])]
             [("items", VList [VStr "b"]); ("items_meta", VStr "append")]
             "items_meta" [("items", VList [VStr "a"; VStr "b"])] []).
    reflexivity.
  - split; [reflexivity|].
    apply (proj1 (proj2 (meta_key_needs_setting_in_provider closed_world))
             [("items", VList [VStr "a"])]
             [("items", VList [VStr "b"]); ("items_meta", VStr "append")]
             [("items", VList [VStr "a"; VStr "b"])] eq_refl "items_meta").
    + simpl. auto.
    + reflexivity.
  - split; [reflexivity|]. split; [reflexivity|].
    exact (proj2 (proj2 (meta_key_needs_setting_in_provider closed_world))
             [("items", VList [VStr "a"])] [("items_meta", VStr "append")]
             "items_meta" (VStr "append") eq_refl eq_refl).
Defined.

(** C1 as stated fails: with the setting only in the base working
    dictionary, and a directive that would apply to it, the evaluator
    raises a key error when it reads the setting from the provider. *)
Lemma setting_in_base_only_fails :
  ~ (forall (w : World) (config_dict meta_dict : dict),
       (forall meta_key,
          In meta_key (dict_keys meta_dict) -> is_meta_key meta_key = true ->
          In (drop_end (String.length "_meta") meta_key) (dict_keys meta_dict) \/
          In (drop_end (String.length "_meta") meta_key) (dict_keys config_dict)) ->
       exists result, update_and_expand_meta w config_dict meta_dict = OK result).
Proof.
  intros H.
  destruct (H closed_world [("items", VList [VStr "a"])] [("items_meta", VStr "append")])
    as [result Hr].
  - intros meta_key [<-|[]] _. right. simpl. auto.
  - vm_compute in Hr. discriminate Hr.
Qed.

(** ** Resolution as a function of the layers *)

Section Determinism.

Variable w : World.
Variable topological_sort : graph_t -> list string -> result (list string).

Lemma reachable_cache_consistent db :
  reachable w topological_sort db -> cache_consistent w topological_sort db.
Proof.
  induction 1 as [| | | | | | | | db c db' Hr IH Hget]; unfold cache_consistent;
    try (simpl; discriminate).
  - intros _. reflexivity.
  - intros Hclean. unfold Database.get_config in Hget.
    destruct (config_cache_dirty db) eqn:Hd.
    + bind_inv Hget. inversion Hget; subst. exact Ha.
    + inversion Hget; subst. now apply IH.
Qed.

(** A read returns the dump of the resolution of the layers, whatever the
    cache holds. *)
Lemma database_json_layers db :
  reachable w topological_sort db ->
  database_json w topological_sort db =
  result_map (fun c => json_dumps w (VDict c))
             (combine_configs w topological_sort (Database.layers db)).
Proof.
  intros Hr. apply reachable_cache_consistent in Hr.
  unfold database_json, Database.get_database_json, Database.get_config.
  destruct (config_cache_dirty db) eqn:Hd.
  - destruct (combine_configs w topological_sort (Database.layers db)); reflexivity.
  - rewrite (Hr Hd). reflexivity.
Qed.

End Determinism.

(** ** Meta keys *)

Lemma endswith_append a suf : endswith (a +++ suf) suf = true.
Proof.
  induction a as [|c a IH]; cbn [String.append endswith].
  - destruct suf; cbn [endswith]; rewrite String.eqb_refl; reflexivity.
  - rewrite IH. apply orb_true_r.
Qed.

Lemma is_meta_key_append s : is_meta_key (s +++ "_meta") = true.
Proof. apply endswith_append. Qed.

Lemma substring_0_append a b : String.substring 0 (String.length a) (a +++ b) = a.
Proof.
  induction a as [|c a IH]; simpl.
  - now destruct b.
  - now rewrite IH.
Qed.

Lemma drop_end_append s : drop_end (String.length "_meta") (s +++ "_meta") = s.
Proof.
  unfold drop_end. rewrite length_append. simpl String.length.
  replace (String.length s + 5 - 5) with (String.length s) by lia.
  apply substring_0_append.
Qed.

Lemma length_substring_le n m s : String.length (String.substring n m s) <= m.
Proof.
  revert n m. induction s as [|c s IH]; intros n m.
  - destruct n, m; simpl; lia.
  - destruct n; simpl.
    + destruct m; simpl; [lia|]. specialize (IH 0 m). lia.
    + apply IH.
Qed.

Lemma endswith_length s suf : endswith s suf = true -> String.length suf <= String.length s.
Proof.
  induction s as [|c s IH]; cbn [endswith].
  - rewrite orb_false_r. intros H. apply String.eqb_eq in H. subst. simpl. lia.
  - intros H. apply orb_true_iff in H. destruct H as [H|H].
    + apply String.eqb_eq in H. subst. simpl. lia.
    + apply IH in H. simpl. lia.
Qed.

(** The setting of a meta key is shorter than the key. *)
Lemma drop_end_shorter meta_key :
  is_meta_key meta_key = true ->
  String.length (drop_end (String.length "_meta") meta_key) + 5 <= String.length meta_key.
Proof.
  intros H. apply endswith_length in H. simpl in H. unfold drop_end. simpl String.length at 1.
  pose proof (length_substring_le 0 (String.length meta_key - 5) meta_key). lia.
Qed.

(** ** The names and the actions of the registry *)

Section Registry.

Variable w : World.

(** The registered names start neither with [lazy] nor with [dynamic]. *)
Lemma directive_name_eager name d :
  directive w name = Some d ->
  startswith name "dynamic" = false /\ startswith name "lazy" = false.
Proof.
  unfold directive. cbn [get_meta_directives lookup_directive].
  repeat match goal with
  | |- (if (?n =? name)%string then _ else _) = _ -> _ =>
      destruct (String.eqb_spec n name) as [<-|_]; [intros _; split; reflexivity|]
  end.
  discriminate.
Qed.

(** An action writes the key it is applied to, and no other. *)
Lemma action_keys d config_dict key value params config_dict' :
  registered w d ->
  action d config_dict key value params = OK config_dict' ->
  forall k, In k (dict_keys config_dict') -> k = key \/ In k (dict_keys config_dict).
Proof.
  intros Hd H k Hk. unfold registered in Hd. simpl in Hd.
  repeat (destruct Hd as [Hd | Hd]; [subst; simpl in * |]); try contradiction.
  - unfold append_action in H. bind_inv H.
    destruct a; try discriminate. destruct value; try discriminate.
    inversion H; subst. apply in_dict_keys_set in Hk.
    destruct Hk as [?|Hk]; [auto|].
    destruct (dict_mem key config_dict); [auto|].
    apply in_dict_keys_set in Hk. tauto.
  - unfold crossappend_action in H. bind_inv H. destruct a as [t a].
    bind_inv H. bind_inv H. inversion H; subst. now apply in_dict_keys_set in Hk.
  - unfold crossappendref_action in H. bind_inv H. destruct a as [t a].
    bind_inv H. bind_inv H. bind_inv H. inversion H; subst.
    now apply in_dict_keys_set in Hk.
  - unfold subst_action in H. bind_inv H. inversion H; subst.
    now apply in_dict_keys_set in Hk.
  - unfold crossref_action in H. destruct value; try discriminate.
    + bind_inv H. inversion H; subst. now apply in_dict_keys_set in Hk.
    + bind_inv H. inversion H; subst. now apply in_dict_keys_set in Hk.
  - unfold transclude_action in H. destruct value; try discriminate.
    destruct (read_file w s); [|discriminate].
    inversion H; subst. now apply in_dict_keys_set in Hk.
  - unfold json2list_action in H. destruct value; try discriminate.
    destruct (json_loads w s) as [[]|]; try discriminate.
    inversion H; subst. now apply in_dict_keys_set in Hk.
  - unfold prependlocal_action in H. destruct (meta_path params); try discriminate.
    inversion H; subst. now apply in_dict_keys_set in Hk.
Qed.

End Registry.

(** ** Loops that consume a key and its setting *)

Section KeyLoop.

Variable S : Type.
Variable keys_of : S -> list string.
Variable step : S -> string -> result S.
Variable setting_of : string -> string.

Hypothesis step_keys :
  forall s k s', step s k = OK s' ->
    In k (keys_of s) /\ In (setting_of k) (keys_of s) /\ setting_of k <> k /\
    forall x, In x (keys_of s') <-> x <> k /\ x <> setting_of k /\ In x (keys_of s).

Lemma loop_keys ks :
  forall s s', reduce step ks s = OK s' ->
    (forall k, In k ks -> In k (keys_of s) /\ In (setting_of k) (keys_of s)) /\
    (forall x, In x (keys_of s') -> In x (keys_of s) /\ ~ In x ks) /\
    (forall x y, In x ks -> In y ks -> setting_of x <> y).
Proof.
  induction ks as [|k ks IH]; intros s s' H; cbn [reduce] in H.
  - inversion H; subst. repeat split; auto; contradiction.
  - bind_inv H. rename a into s1.
    destruct (step_keys _ _ _ Ha) as [Hk [Hsk [Hne Hkeys]]].
    destruct (IH _ _ H) as [Hin [Hout Hsep]].
    split; [|split].
    + intros x [<-|Hx]; [auto|].
      destruct (Hin x Hx) as [H1 H2]. apply Hkeys in H1, H2. tauto.
    + intros x Hx. destruct (Hout x Hx) as [H1 H2]. apply Hkeys in H1.
      split; [tauto|]. intros [<-|Hx']; tauto.
    + intros x y [<-|Hx] [<-|Hy].
      * assumption.
      * destruct (Hin y Hy) as [H1 _]. apply Hkeys in H1. intros E. symmetry in E. tauto.
      * destruct (Hin x Hx) as [_ H2]. apply Hkeys in H2. tauto.
      * now apply Hsep.
Qed.

End KeyLoop.

(** ** The lazy scheduler removes the meta keys *)

Section NoMetaKeys.

Variable w : World.
Variable topological_sort : graph_t -> list string -> result (list string).

Lemma collect_lazy_meta_ok orig ec lm g meta_key ec' lm' g' :
  collect_lazy_meta w orig (ec, lm, g) meta_key = OK (ec', lm', g') ->
  let setting := drop_end (String.length "_meta") meta_key in
  exists lazy_meta_type template d,
    dict_get meta_key ec = Some (VStr lazy_meta_type) /\
    dict_get setting ec = Some template /\
    directive w (drop_str (String.length "lazy") lazy_meta_type) = Some d /\
    lm' = dict_set (dict_set lm meta_key (VStr (drop_str (String.length "lazy") lazy_meta_type)))
                   setting template /\
    In meta_key (dict_keys ec) /\
    In setting (dict_keys (dict_remove ec meta_key)) /\
    ec' = dict_remove (dict_remove ec meta_key) setting.
Proof.
  intros H setting. unfold collect_lazy_meta in H. fold setting in H.
  bind_as H lmt Hlmt. destruct lmt as [| | | |lmt| |]; try discriminate.
  bind_as H u Hu. cbv zeta in H.
  bind_as H template Htemplate. bind_as H d0 Hd0.
  destruct (directive w _) as [d|] eqn:Hd; [|discriminate]. inversion Hd0; subst d0.
  bind_as H val Hval. bind_as H targets Htargets.
  bind_as H graph Hgraph. bind_as H ec1 Hec1. bind_as H ec2 Hec2.
  inversion H; subst.
  apply getitem_ok in Hlmt, Htemplate. apply delitem_ok in Hec1, Hec2.
  destruct Hec1 as [Hin1 ->]. destruct Hec2 as [Hin2 ->].
  exists lmt, template, d. auto 10.
Qed.

Lemma collect_lazy_meta_keys orig st meta_key st' :
  collect_lazy_meta w orig st meta_key = OK st' ->
  let setting := drop_end (String.length "_meta") meta_key in
  In meta_key (dict_keys (fst (fst st))) /\ In setting (dict_keys (fst (fst st))) /\
  setting <> meta_key /\
  forall x, In x (dict_keys (fst (fst st'))) <->
            x <> meta_key /\ x <> setting /\ In x (dict_keys (fst (fst st))).
Proof.
  destruct st as [[ec lm] g], st' as [[ec' lm'] g']. intros H setting.
  apply collect_lazy_meta_ok in H. fold setting in H.
  destruct H as [lmt [t [d [_ [_ [_ [_ [Hin1 [Hin2 ->]]]]]]]]]. cbn [fst].
  apply in_dict_keys_remove in Hin2. destruct Hin2 as [Hne Hin2].
  split; [assumption|]. split; [assumption|]. split; [assumption|].
  intros x. rewrite !in_dict_keys_remove. tauto.
Qed.

Lemma collect_lazy_metas_registered orig ks :
  (forall k, In k ks -> is_meta_key (drop_end (String.length "_meta") k) = false) ->
  forall ec lm g ec' lm' g',
    reduce (collect_lazy_meta w orig) ks (ec, lm, g) = OK (ec', lm', g') ->
    metas_registered w lm -> metas_registered w lm'.
Proof.
  induction ks as [|k ks IH]; intros Hks ec lm g ec' lm' g' H Hlm; cbn [reduce] in H.
  - inversion H; subst. assumption.
  - bind_inv H. destruct a as [[ec1 lm1] g1].
    apply (IH (fun x Hx => Hks x (or_intror Hx)) _ _ _ _ _ _ H).
    apply collect_lazy_meta_ok in Ha.
    destruct Ha as [lmt [t [d [_ [_ [Hd [-> _]]]]]]].
    intros key v Hmeta Hget.
    assert (Hne : drop_end (String.length "_meta") k <> key).
    { intros E. rewrite <- E, (Hks k (or_introl eq_refl)) in Hmeta. discriminate. }
    rewrite dict_get_set_other in Hget by assumption.
    destruct (String.eqb_spec k key) as [->|Hk].
    + rewrite dict_get_set_same in Hget. inversion Hget. eauto.
    + rewrite dict_get_set_other in Hget by assumption. eapply Hlm; eassumption.
Qed.

Lemma remove_internal_keys_keys d k :
  In k (dict_keys (remove_internal_keys d)) ->
  In k (dict_keys d) /\ k <> _CONFIG_PATH_KEY /\ k <> _NEXT_FREE_INDEX_KEY.
Proof.
  unfold remove_internal_keys, internal_keys. cbn [fold_left].
  set (d1 := if dict_mem _CONFIG_PATH_KEY d then dict_remove d _CONFIG_PATH_KEY else d).
  assert (H1 : In k (dict_keys d1) -> In k (dict_keys d) /\ k <> _CONFIG_PATH_KEY).
  { unfold d1. destruct (dict_mem _CONFIG_PATH_KEY d) eqn:Hm.
    - rewrite in_dict_keys_remove. tauto.
    - apply dict_mem_false_iff in Hm. intros Hk. split; [assumption|]. congruence. }
  destruct (dict_mem _NEXT_FREE_INDEX_KEY d1) eqn:Hm.
  - rewrite in_dict_keys_remove. tauto.
  - apply dict_mem_false_iff in Hm. intros Hk.
    destruct (H1 Hk). repeat split; try assumption. congruence.
Qed.

(** Re-entering the eager evaluator on a stored lazy meta writes the
    setting and nothing else. *)
Lemma combine_meta_no_meta lm c m c' :
  metas_registered w lm -> no_meta_keys c ->
  combine_meta w lm c m = OK c' -> no_meta_keys c'.
Proof.
  intros Hlm Hc H. unfold combine_meta in H.
  bind_as H template Htemplate. bind_as H mt Hmt.
  apply getitem_ok in Hmt.
  destruct (Hlm _ _ (is_meta_key_append m) Hmt) as [name [d [-> Hd]]].
  assert (HP : dict_literal [(m, template); (m +++ "_meta", VStr name)]
               = [(m, template); (m +++ "_meta", VStr name)]).
  { unfold dict_literal, dict_update. cbn [fold_left fst snd dict_set].
    destruct (String.eqb_spec m (m +++ "_meta")) as [E|_]; [|reflexivity].
    symmetry in E. now apply meta_neq_self in E. }
  rewrite HP in H. clear HP.
  set (P := [(m, template); (m +++ "_meta", VStr name)]) in *.
  assert (Hm : is_meta_key m = false).
  { destruct (is_meta_key m) eqn:E; [|reflexivity]. exfalso.
    pose proof H as H'. unfold update_and_expand_meta, deepdict in H'.
    bind_as H' st Hst. destruct st as [nd md].
    assert (Hin : In (drop_end (String.length "_meta") m) (dict_keys P)).
    { eapply reduce_meta_keys_settings; [eassumption|].
      apply filter_In. split; [simpl; auto | assumption]. }
    pose proof (drop_end_shorter m E) as Hlen.
    destruct Hin as [Hin|[Hin|[]]]; cbn [fst] in Hin;
      apply (f_equal String.length) in Hin;
      rewrite ?length_append in Hin; simpl String.length in *; lia. }
  unfold update_and_expand_meta, deepdict in H.
  assert (Hkeys : filter is_meta_key (dict_keys P) = [m +++ "_meta"]).
  { unfold P. cbn [dict_keys map fst filter]. now rewrite Hm, is_meta_key_append. }
  rewrite Hkeys in H. cbn [reduce] in H.
  bind_as H st Hst. bind_as Hst st1 Hstep. inversion Hst; subst st1. clear Hst.
  destruct st as [nd md]. inversion H; subst c'. clear H.
  pose proof (expand_meta_key_keys w _ _ _ _ _ Hstep) as [_ [_ [_ HmdKeys]]].
  apply expand_meta_key_ok in Hstep. rewrite drop_end_append in *.
  destruct Hstep as [mtfd [l [md1 [seen [Hget [Hnorm [Hrun _]]]]]]].
  assert (Hget' : dict_get (m +++ "_meta") P = Some (VStr name)).
  { unfold P. cbn [dict_get].
    destruct (String.eqb_spec m (m +++ "_meta")) as [E|_].
    - symmetry in E. now apply meta_neq_self in E.
    - now rewrite String.eqb_refl. }
  rewrite Hget' in Hget. inversion Hget; subst mtfd. inversion Hnorm; subst l.
  unfold run_directives in Hrun. cbn [reduce] in Hrun.
  bind_as Hrun st2 Hty. inversion Hrun; subst st2. clear Hrun.
  unfold expand_meta_type in Hty.
  destruct (directive_name_eager w _ _ Hd) as [Hdyn Hlazy].
  rewrite Hdyn, Hlazy, Hd in Hty.
  unfold expand_eager_meta in Hty.
  bind_as Hty v0 Hv0. bind_as Hty nd1 Hact. bind_as Hty v1 Hv1. inversion Hty; subst.
  intros k Hk. apply in_dict_keys_update in Hk. destruct Hk as [Hk|Hk].
  - eapply action_keys in Hk; [|eapply directive_registered; eassumption|eassumption].
    destruct Hk as [->|Hk]; [assumption | now apply Hc].
  - apply HmdKeys in Hk. destruct Hk as [K1 [K2 [K3|[K3|[]]]]]; cbn [fst] in K3; congruence.
Qed.

Lemma reduce_combine_meta_no_meta lm l :
  metas_registered w lm ->
  forall c c', no_meta_keys c ->
    reduce (combine_meta w lm) l c = OK c' -> no_meta_keys c'.
Proof.
  intros Hlm. induction l as [|m l IH]; intros c c' Hc H; cbn [reduce] in H.
  - inversion H; subst. assumption.
  - bind_inv H. eapply IH; [|eassumption]. eapply combine_meta_no_meta; eassumption.
Qed.

Lemma resolve_lazy_keys reduced resolved :
  resolve_lazy w topological_sort reduced = OK resolved ->
  forall k, In k (dict_keys resolved) ->
    is_meta_key k = false /\ k <> _CONFIG_PATH_KEY /\ k <> _NEXT_FREE_INDEX_KEY.
Proof.
  intros H k Hk. unfold resolve_lazy, deepdict in H.
  bind_inv H. destruct a as [[ec lm] g]. bind_inv H. rename a into final_dict.
  inversion H; subst resolved. clear H.
  apply remove_internal_keys_keys in Hk. destruct Hk as [Hk [K1 K2]].
  split; [|auto].
  set (ks := filter is_meta_key (dict_keys reduced)) in *.
  destruct (loop_keys _ (fun st : dict * dict * graph_t => dict_keys (fst (fst st)))
              (collect_lazy_meta w reduced) (drop_end (String.length "_meta"))
              (collect_lazy_meta_keys reduced) ks _ _ Ha) as [Hin [Hout Hsep]].
  cbn [fst] in Hin, Hout.
  assert (Hec : no_meta_keys ec).
  { intros x Hx. destruct (Hout x Hx) as [H1 H2].
    destruct (is_meta_key x) eqn:E; [|reflexivity].
    exfalso. apply H2. apply filter_In. auto. }
  assert (Hset : forall x, In x ks -> is_meta_key (drop_end (String.length "_meta") x) = false).
  { intros x Hx. destruct (is_meta_key (drop_end _ x)) eqn:E; [|reflexivity].
    exfalso. apply (Hsep x (drop_end (String.length "_meta") x) Hx); [|reflexivity].
    apply filter_In. split; [apply (Hin x Hx) | assumption]. }
  assert (Hlm : metas_registered w lm).
  { eapply collect_lazy_metas_registered; [exact Hset | exact Ha |].
    intros key v _ Hget. discriminate Hget. }
  assert (Hfinal : no_meta_keys final_dict).
  { destruct (0 <? List.length g)%nat.
    - destruct (List.length (starting_nodes g) =? 0)%nat; [discriminate|].
      bind_inv Ha0. eapply reduce_combine_meta_no_meta; eassumption.
    - inversion Ha0; subst. assumption. }
  now apply Hfinal.
Qed.

End NoMetaKeys.

(** C5.  When [combine_configs] returns a mapping, no key of it ends in
    [_meta] and none is [_config_path] or [_next_free_index]; the same
    holds of what a database returns as its config. *)
Theorem resolved_keys_clean :
  forall (w : World) (topological_sort : graph_t -> list string -> result (list string)),
    (forall configs resolved,
       combine_configs w topological_sort configs = OK resolved ->
       forall k, In k (dict_keys resolved) ->
         endswith k "_meta" = false /\ k <> "_config_path" /\ k <> "_next_free_index") /\
    (forall db c db',
       reachable w topological_sort db ->
       Database.get_config w topological_sort db = OK (c, db') ->
       forall k, In k (dict_keys c) ->
         endswith k "_meta" = false /\ k <> "_config_path" /\ k <> "_next_free_index").
Proof.
  intros w topo.
  assert (Hcombine : forall configs resolved,
            combine_configs w topo configs = OK resolved ->
            forall k, In k (dict_keys resolved) ->
              endswith k "_meta" = false /\ k <> "_config_path" /\ k <> "_next_free_index").
  { intros configs resolved H k Hk. unfold combine_configs in H. bind_inv H.
    exact (resolve_lazy_keys w topo _ _ H k Hk). }
  split; [exact Hcombine|].
  intros db c db' Hr Hget k Hk.
  pose proof (reachable_cache_consistent w topo db Hr) as Hcache.
  unfold Database.get_config in Hget.
  destruct (config_cache_dirty db) eqn:Hd.
  - bind_inv Hget. inversion Hget; subst. eapply Hcombine; eassumption.
  - inversion Hget; subst. eapply Hcombine; [apply Hcache; assumption | assumption].
Qed.

Lemma resolved_keys_clean_witness :
  (combine_configs closed_world kahn_topological_sort lazy_configs
   = OK [("c", VStr "0"); ("a", VStr "0")] /\
   In "a" (dict_keys [("c", VStr "0"); ("a", VStr "0")]) /\
   endswith "a" "_meta" = false /\ "a" <> "_config_path" /\ "a" <> "_next_free_index") /\
  (reachable closed_world kahn_topological_sort project_db /\
   Database.get_config closed_world kahn_topological_sort project_db
   = OK ([("a", VStr "hi")], project_db_read) /\
   endswith "a" "_meta" = false /\ "a" <> "_config_path" /\ "a" <> "_next_free_index").
Proof.
  split.
  - split; [reflexivity|]. split; [simpl; auto|].
    apply (proj1 (resolved_keys_clean closed_world kahn_topological_sort)
             lazy_configs [("c", VStr "0"); ("a", VStr "0")] eq_refl "a").
    simpl. auto.
  - split; [apply reach_update_project, reach_init|]. split; [reflexivity|].
    apply (proj2 (resolved_keys_clean closed_world kahn_topological_sort)
             project_db [("a", VStr "hi")] project_db_read).
    + apply reach_update_project, reach_init.
    + reflexivity.
    + simpl. auto.
Defined.

(** ** Splitting flattened keys *)

Lemma split_dot_no_dot s : dot_free s -> split_dot s = [s].
Proof.
  unfold dot_free. induction s as [|c s IH]; cbn [split_dot has_dot]; [reflexivity|].
  destruct (Ascii.eqb c "."); cbn [orb]; [discriminate|].
  intros H. now rewrite (IH H).
Qed.

Lemma split_dot_segment a b :
  dot_free a -> split_dot (a +++ String "." b) = a :: split_dot b.
Proof.
  unfold dot_free. induction a as [|c a IH]; cbn [split_dot has_dot String.append].
  - reflexivity.
  - destruct (Ascii.eqb c "."); cbn [orb]; [discriminate|].
    intros H. now rewrite (IH H).
Qed.

Lemma path_key_cons k p :
  p <> [] -> path_key (k :: p) = k +++ String "." (path_key p).
Proof. destruct p as [|q p]; [contradiction | reflexivity]. Qed.

Lemma split_path_key p :
  p <> [] -> Forall dot_free p -> split_dot (path_key p) = p.
Proof.
  induction p as [|k p IH]; [contradiction|].
  intros _ H. inversion H as [|? ? Hk Hp]; subst.
  destruct p as [|q p].
  - now apply split_dot_no_dot.
  - rewrite path_key_cons by discriminate.
    rewrite split_dot_segment by assumption.
    now rewrite IH by (discriminate || assumption).
Qed.

Lemma segment_dot_free k : segment k = true -> dot_free k.
Proof.
  unfold segment, dot_free. intros H. apply andb_true_iff in H.
  destruct H as [_ H]. now apply negb_true_iff in H.
Qed.

Lemma segment_nonempty k : segment k = true -> k <> EmptyString.
Proof.
  unfold segment. intros H. apply andb_true_iff in H.
  destruct H as [H _]. apply negb_true_iff in H. now apply String.eqb_neq in H.
Qed.

Lemma append_nonempty a b : b <> EmptyString -> (a +++ b =? EmptyString)%string = false.
Proof.
  intros H. apply String.eqb_neq. intros E.
  apply (f_equal String.length) in E. rewrite length_append in E.
  destruct b; [contradiction | simpl in E; lia].
Qed.

(** ** The leaves of a nested mapping *)

Lemma leaves_nil : leaves [] = [].
Proof. reflexivity. Qed.

Lemma leaves_cons_dict k d rest :
  leaves ((k, VDict d) :: rest) =
  map (fun pv => (k :: fst pv, snd pv)) (leaves d) ++ leaves rest.
Proof. reflexivity. Qed.

Lemma leaves_cons_leaf k v rest :
  is_dict v = false -> leaves ((k, v) :: rest) = ([k], v) :: leaves rest.
Proof. destruct v; try discriminate; reflexivity. Qed.

Lemma leaves_head x :
  well_keyed x ->
  forall p v, In (p, v) (leaves x) ->
    exists k p', p = k :: p' /\ In k (dict_keys x) /\ Forall dot_free p.
Proof.
  induction 1 as [|k v rest Hk Hv Hm Hrest IHrest
                  |k d rest Hk Hd Hwd IHd Hm Hrest IHrest]; intros p v0 Hin.
  - contradiction.
  - rewrite leaves_cons_leaf in Hin by assumption. destruct Hin as [Hin|Hin].
    + inversion Hin; subst. exists k, []. simpl.
      repeat split; auto. constructor; [now apply segment_dot_free | constructor].
    + destruct (IHrest _ _ Hin) as [k' [p' [-> [Hk' Hp]]]].
      exists k', p'. simpl. auto.
  - rewrite leaves_cons_dict in Hin. apply in_app_iff in Hin. destruct Hin as [Hin|Hin].
    + apply in_map_iff in Hin. destruct Hin as [[q v1] [E Hq]]. inversion E; subst.
      destruct (IHd _ _ Hq) as [k' [p' [-> [_ Hp]]]].
      exists k, (k' :: p'). simpl. repeat split; auto.
      constructor; [now apply segment_dot_free | assumption].
    + destruct (IHrest _ _ Hin) as [k' [p' [-> [Hk' Hp]]]].
      exists k', p'. simpl. auto.
Qed.

Lemma leaves_nonempty x : well_keyed x -> x <> [] -> leaves x <> [].
Proof.
  induction 1 as [|k v rest Hk Hv Hm Hrest IHrest
                  |k d rest Hk Hd Hwd IHd Hm Hrest IHrest]; intros Hne.
  - contradiction.
  - rewrite leaves_cons_leaf by assumption. discriminate.
  - rewrite leaves_cons_dict. specialize (IHd Hd).
    destruct (leaves d); [contradiction | discriminate].
Qed.

Lemma leaves_nodup x : well_keyed x -> NoDup (map fst (leaves x)).
Proof.
  induction 1 as [|k v rest Hk Hv Hm Hrest IHrest
                  |k d rest Hk Hd Hwd IHd Hm Hrest IHrest].
  - constructor.
  - rewrite leaves_cons_leaf by assumption. cbn [map fst]. constructor; [|assumption].
    intros Hin. apply in_map_iff in Hin. destruct Hin as [[p v0] [E Hin]].
    cbn [fst] in E. subst p.
    destruct (leaves_head _ Hrest _ _ Hin) as [k' [p' [E [Hk' _]]]].
    inversion E; subst. apply dict_mem_false_iff in Hm. contradiction.
  - rewrite leaves_cons_dict, map_app, map_map. cbn [fst].
    apply NoDup_app.
    + rewrite <- (map_map fst (fun p => k :: p)).
      apply Injective_map_NoDup; [|assumption].
      intros a b E. now inversion E.
    + assumption.
    + intros p Hp1 Hp2.
      apply in_map_iff in Hp1. destruct Hp1 as [[q v1] [E _]]. subst p.
      apply in_map_iff in Hp2. destruct Hp2 as [[p v2] [E Hin]]. cbn [fst] in E. subst p.
      destruct (leaves_head _ Hrest _ _ Hin) as [k' [p' [E [Hk' _]]]].
      inversion E; subst. apply dict_mem_false_iff in Hm. contradiction.
Qed.

(** ** unpack flattens the leaves *)

Lemma nodup_app_disjoint {A : Type} (l1 l2 : list A) :
  NoDup (l1 ++ l2) -> forall x, In x l1 -> In x l2 -> False.
Proof.
  induction l1 as [|a l1 IH]; cbn [app]; intros Hnd x H1 H2; [contradiction|].
  inversion Hnd as [|? ? Ha Hnd']; subst. destruct H1 as [->|H1].
  - apply Ha. apply in_app_iff. auto.
  - eapply IH; eassumption.
Qed.

Lemma dict_mem_app {A : Type} (a b : list (string * A)) k :
  dict_mem k (a ++ b) = dict_mem k a || dict_mem k b.
Proof.
  unfold dict_mem. induction a as [|[k' v'] a IH]; cbn [app dict_get]; [now destruct (dict_get k b)|].
  destruct (k' =? k)%string; [reflexivity | exact IH].
Qed.

Lemma dict_update_fresh {A : Type} (L out : list (string * A)) :
  NoDup (dict_keys L) ->
  (forall k, In k (dict_keys L) -> dict_mem k out = false) ->
  dict_update out L = out ++ L.
Proof.
  revert out. induction L as [|[k v] L IH]; intros out Hnd Hfresh.
  - now rewrite app_nil_r.
  - rewrite dict_update_cons. inversion Hnd as [|? ? Hk Hnd']; subst.
    rewrite dict_set_fresh by (apply Hfresh; simpl; auto).
    rewrite IH; [now rewrite <- app_assoc | assumption |].
    intros k' Hk'. rewrite dict_mem_app, (Hfresh k') by (simpl; auto).
    unfold dict_mem. cbn [dict_get orb].
    destruct (String.eqb_spec k k') as [->|_]; [contradiction | reflexivity].
Qed.

Lemma unpack_value_fold d prefix :
  unpack_value (VDict d) prefix =
  fold_left (unpack_entry (if (prefix =? EmptyString)%string then EmptyString else prefix +++ ".")) d [].
Proof.
  cbn [unpack_value]. generalize (@nil (string * Value)).
  induction d as [|[k v] d IH]; intros out; [reflexivity|].
  cbn [fold_left]. rewrite <- IH. destruct v; reflexivity.
Qed.

Lemma flat_of_cons_leaf rp k v rest :
  is_dict v = false -> flat_of rp ((k, v) :: rest) = (rp +++ k, v) :: flat_of rp rest.
Proof. intros H. unfold flat_of. now rewrite leaves_cons_leaf. Qed.

Lemma flat_of_cons_dict rp k d rest :
  well_keyed d ->
  flat_of rp ((k, VDict d) :: rest) = flat_of ((rp +++ k) +++ ".") d ++ flat_of rp rest.
Proof.
  intros Hd. unfold flat_of. rewrite leaves_cons_dict, map_app, map_map.
  f_equal. apply map_ext_in. intros [p v] Hin. cbn [fst snd].
  destruct (leaves_head _ Hd _ _ Hin) as [k' [p' [-> _]]].
  rewrite path_key_cons by discriminate.
  now rewrite !append_assoc.
Qed.

(** Distinct leaves have distinct flattened keys. *)
Lemma flat_of_nodup rp x : well_keyed x -> NoDup (dict_keys (flat_of rp x)).
Proof.
  intros Hx. unfold flat_of, dict_keys. rewrite map_map. cbn [fst].
  pose proof (leaves_nodup x Hx) as Hnd.
  pose proof (leaves_head x Hx) as Hhead.
  induction (leaves x) as [|[p v] l IH]; [constructor|].
  cbn [map fst] in *. inversion Hnd as [|? ? Hp Hnd']; subst.
  constructor.
  - intros Hin. apply in_map_iff in Hin. destruct Hin as [[q v'] [E Hq]].
    cbn [fst] in E. apply append_inj_l in E.
    destruct (Hhead p v (or_introl eq_refl)) as [k1 [p1 [-> [_ H1]]]].
    destruct (Hhead q v' (or_intror Hq)) as [k2 [p2 [-> [_ H2]]]].
    apply (f_equal split_dot) in E.
    rewrite !split_path_key in E by (discriminate || assumption).
    apply Hp. rewrite <- E. apply in_map_iff. exists (k2 :: p2, v'). auto.
  - apply IH; [assumption|]. intros q v' Hq. apply (Hhead q v'). now right.
Qed.

Lemma unpack_fold_flat x :
  well_keyed x ->
  forall rp out,
    (forall k, In k (dict_keys (flat_of rp x)) -> dict_mem k out = false) ->
    fold_left (unpack_entry rp) x out = out ++ flat_of rp x.
Proof.
  induction 1 as [|k v rest Hk Hv Hm Hrest IHrest
                  |k d rest Hk Hd Hwd IHd Hm Hrest IHrest]; intros rp out Hfresh.
  - cbn [fold_left]. unfold flat_of. rewrite leaves_nil. now rewrite app_nil_r.
  - assert (Hwk : well_keyed ((k, v) :: rest)) by (now constructor).
    pose proof (flat_of_nodup rp _ Hwk) as Hnd.
    rewrite flat_of_cons_leaf in * by assumption.
    cbn [fold_left]. unfold unpack_entry at 2. cbn [fst snd].
    replace (match v with VDict _ => _ | _ => dict_set out (rp +++ k) v end)
      with (dict_set out (rp +++ k) v) by (destruct v; try reflexivity; discriminate).
    rewrite dict_set_fresh by (apply Hfresh; simpl; auto).
    rewrite IHrest; [now rewrite <- app_assoc|].
    intros k' Hk'. rewrite dict_mem_app, (Hfresh k') by (simpl; auto).
    unfold dict_mem. cbn [dict_get orb].
    destruct (String.eqb_spec (rp +++ k) k') as [<-|_]; [|reflexivity].
    cbn [dict_keys map fst] in Hnd. inversion Hnd; subst. contradiction.
  - assert (Hwk : well_keyed ((k, VDict d) :: rest)) by (now constructor).
    pose proof (flat_of_nodup rp _ Hwk) as Hnd.
    rewrite flat_of_cons_dict in * by assumption.
    cbn [fold_left]. unfold unpack_entry at 2. cbn [fst snd].
    rewrite unpack_value_fold, append_nonempty by (now apply segment_nonempty).
    rewrite (IHd ((rp +++ k) +++ ".") []) by reflexivity. cbn [app].
    unfold dict_keys in Hnd. rewrite map_app in Hnd.
    rewrite dict_update_fresh.
    + rewrite IHrest; [now rewrite <- app_assoc|].
      intros k' Hk'. rewrite dict_mem_app.
      rewrite (Hfresh k') by (unfold dict_keys; rewrite map_app; apply in_app_iff; auto).
      cbn [orb]. apply dict_mem_false_iff. intros Hin.
      exact (nodup_app_disjoint _ _ Hnd k' Hin Hk').
    + now apply flat_of_nodup.
    + intros k' Hk'. apply Hfresh. unfold dict_keys. rewrite map_app.
      apply in_app_iff. auto.
Qed.

(** ** reverse_unpack rebuilds the nested mapping *)

Lemma reduce_app {A B : Type} (f : A -> B -> result A) (l1 l2 : list B) (s : A) :
  reduce f (l1 ++ l2) s = bind (reduce f l1 s) (reduce f l2).
Proof.
  revert s. induction l1 as [|x l1 IH]; intros s; cbn [app reduce bind]; [reflexivity|].
  destruct (f s x); cbn [bind]; [apply IH | reflexivity].
Qed.

Lemma dict_get_app_fresh {A : Type} (a b : list (string * A)) k :
  dict_mem k a = false -> dict_get k (a ++ b) = dict_get k b.
Proof.
  unfold dict_mem. induction a as [|[k' v'] a IH]; cbn [app dict_get]; [reflexivity|].
  destruct (k' =? k)%string; [discriminate | exact IH].
Qed.

Lemma dict_set_app_fresh {A : Type} (a b : list (string * A)) k v :
  dict_mem k a = false -> dict_set (a ++ b) k v = a ++ dict_set b k v.
Proof.
  unfold dict_mem. induction a as [|[k' v'] a IH]; cbn [app dict_get dict_set]; [reflexivity|].
  destruct (k' =? k)%string; [discriminate|]. intros H. now rewrite IH.
Qed.

Lemma set_path_under k p v r0 sub r1 :
  p <> [] -> dict_mem k r0 = false ->
  set_path (r0 ++ (k, VDict sub) :: r1) (k :: p, v) =
  (sub' <- set_path sub (p, v) ;; OK (r0 ++ (k, VDict sub') :: r1)).
Proof.
  intros Hp Hk. unfold set_path. cbn [fst snd].
  destruct p as [|q p]; [contradiction|].
  change (removelast (k :: q :: p)) with (k :: removelast (q :: p)).
  change (last (k :: q :: p) EmptyString) with (last (q :: p) EmptyString).
  cbn [set_in_subdict].
  assert (Hget : dict_get k (r0 ++ (k, VDict sub) :: r1) = Some (VDict sub)).
  { rewrite dict_get_app_fresh by assumption. cbn [dict_get]. now rewrite String.eqb_refl. }
  assert (Hm : dict_mem k (r0 ++ (k, VDict sub) :: r1) = true).
  { unfold dict_mem. now rewrite Hget. }
  rewrite Hm. unfold getitem. rewrite Hget. cbn [bind].
  destruct (set_in_subdict (removelast (q :: p)) (last (q :: p) EmptyString) v sub) as [sub'|e];
    cbn [bind]; [|reflexivity].
  rewrite dict_set_app_fresh by assumption. cbn [dict_set].
  now rewrite String.eqb_refl.
Qed.

Lemma set_path_create k p v r0 :
  p <> [] -> dict_mem k r0 = false ->
  set_path r0 (k :: p, v) = set_path (r0 ++ [(k, VDict [])]) (k :: p, v).
Proof.
  intros Hp Hk. unfold set_path. cbn [fst snd].
  destruct p as [|q p]; [contradiction|].
  change (removelast (k :: q :: p)) with (k :: removelast (q :: p)).
  change (last (k :: q :: p) EmptyString) with (last (q :: p) EmptyString).
  cbn [set_in_subdict]. rewrite Hk.
  rewrite dict_set_fresh by assumption.
  assert (Hm : dict_mem k (r0 ++ [(k, VDict [])]) = true).
  { rewrite dict_mem_app. unfold dict_mem at 2. cbn [dict_get].
    rewrite String.eqb_refl. apply orb_true_r. }
  now rewrite Hm.
Qed.

Lemma reduce_set_path_under k r0 r1 L :
  (forall pv, In pv L -> fst pv <> []) -> dict_mem k r0 = false ->
  forall sub,
    reduce set_path (map (fun pv => (k :: fst pv, snd pv)) L) (r0 ++ (k, VDict sub) :: r1) =
    (sub' <- reduce set_path L sub ;; OK (r0 ++ (k, VDict sub') :: r1)).
Proof.
  intros HL Hk. induction L as [|[p v] L IH]; intros sub; cbn [map reduce fst snd].
  - reflexivity.
  - rewrite set_path_under by (assumption || apply (HL (p, v)); simpl; auto).
    destruct (set_path sub (p, v)) as [sub1|e]; cbn [bind]; [|reflexivity].
    apply IH. intros pv Hpv. apply HL. now right.
Qed.

Lemma reverse_leaves x :
  well_keyed x ->
  forall r0, (forall k, In k (dict_keys x) -> dict_mem k r0 = false) ->
    reduce set_path (leaves x) r0 = OK (r0 ++ x).
Proof.
  induction 1 as [|k v rest Hk Hv Hm Hrest IHrest
                  |k d rest Hk Hd Hwd IHd Hm Hrest IHrest]; intros r0 Hfresh.
  - rewrite leaves_nil, app_nil_r. reflexivity.
  - rewrite leaves_cons_leaf by assumption. cbn [reduce].
    unfold set_path at 1. cbn [fst snd removelast last set_in_subdict bind].
    rewrite dict_set_fresh by (apply Hfresh; simpl; auto).
    rewrite IHrest; [now rewrite <- app_assoc|].
    intros k' Hk'. rewrite dict_mem_app, (Hfresh k') by (simpl; auto).
    unfold dict_mem. cbn [dict_get orb].
    destruct (String.eqb_spec k k') as [<-|_]; [|reflexivity].
    apply dict_mem_true_iff in Hk'. congruence.
  - rewrite leaves_cons_dict, reduce_app.
    assert (Hk0 : dict_mem k r0 = false) by (apply Hfresh; simpl; auto).
    assert (Hpaths : forall pv, In pv (leaves d) -> fst pv <> []).
    { intros [p v] Hin. destruct (leaves_head _ Hwd _ _ Hin) as [k' [p' [-> _]]].
      cbn [fst]. discriminate. }
    assert (Hfirst :
      reduce set_path (map (fun pv => (k :: fst pv, snd pv)) (leaves d)) r0 =
      reduce set_path (map (fun pv => (k :: fst pv, snd pv)) (leaves d))
             (r0 ++ [(k, VDict [])])).
    { pose proof (leaves_nonempty d Hwd Hd) as Hne.
      destruct (leaves d) as [|[p v] L]; [contradiction|].
      cbn [map reduce fst snd].
      rewrite <- set_path_create by (assumption || apply (Hpaths (p, v)); simpl; auto).
      reflexivity. }
    rewrite Hfirst, reduce_set_path_under by assumption.
    rewrite (IHd []) by reflexivity. cbn [app bind].
    rewrite IHrest; [now rewrite <- app_assoc|].
    intros k' Hk'. rewrite dict_mem_app, (Hfresh k') by (simpl; auto).
    unfold dict_mem. cbn [dict_get orb].
    destruct (String.eqb_spec k k') as [<-|_]; [|reflexivity].
    apply dict_mem_true_iff in Hk'. congruence.
Qed.

(** On the flattened key of a good path, the body of the loop of
    [reverse_unpack] is [set_path]. *)
Lemma reverse_unpack_item_path r0 p v :
  p <> [] -> Forall dot_free p ->
  reverse_unpack_item r0 (EmptyString +++ path_key p, v) = set_path r0 (p, v).
Proof.
  intros Hp Hdf. unfold reverse_unpack_item, set_path. cbn [fst snd String.append].
  rewrite split_path_key by assumption.
  destruct p as [|k p]; [contradiction | reflexivity].
Qed.

Lemma reverse_unpack_paths L :
  (forall pv, In pv L -> fst pv <> [] /\ Forall dot_free (fst pv)) ->
  forall r0,
    reduce reverse_unpack_item
           (map (fun pv => (EmptyString +++ path_key (fst pv), snd pv)) L) r0 =
    reduce set_path L r0.
Proof.
  induction L as [|[p v] L IH]; intros HL r0; cbn [map reduce fst snd]; [reflexivity|].
  destruct (HL (p, v) (or_introl eq_refl)) as [Hp Hdf]. cbn [fst] in Hp, Hdf.
  rewrite reverse_unpack_item_path by assumption.
  destruct (set_path r0 (p, v)); cbn [bind]; [|reflexivity].
  apply IH. intros pv Hpv. apply HL. now right.
Qed.

(** C7, amended.  For a nested mapping in which, at every level, the keys
    are distinct, not blank and without a dot, and no nested mapping is
    empty, [reverse_unpack] applied to [unpack] returns the mapping
    itself, in the same order. *)
Theorem reverse_unpack_unpack :
  forall x : dict, well_keyed x -> reverse_unpack (unpack x EmptyString) = OK x.
Proof.
  intros x Hx. unfold unpack, reverse_unpack.
  rewrite unpack_value_fold. cbn [String.eqb].
  rewrite (unpack_fold_flat x Hx EmptyString []) by reflexivity. cbn [app].
  unfold flat_of. rewrite reverse_unpack_paths.
  - now rewrite (reverse_leaves x Hx []).
  - intros [p v] Hin. destruct (leaves_head _ Hx _ _ Hin) as [k' [p' [-> [_ Hdf]]]].
    cbn [fst]. split; [discriminate | assumption].
Qed.

Lemma reverse_unpack_unpack_witness :
  well_keyed nested_example /\
  reverse_unpack (unpack nested_example EmptyString) = OK nested_example.
Proof.
  assert (H : well_keyed nested_example).
  { unfold nested_example.
    apply wk_dict; [reflexivity | discriminate | | reflexivity |].
    - apply wk_leaf; [reflexivity | reflexivity | reflexivity |].
      apply wk_leaf; [reflexivity | reflexivity | reflexivity | apply wk_nil].
    - apply wk_leaf; [reflexivity | reflexivity | reflexivity | apply wk_nil]. }
  split; [exact H | exact (reverse_unpack_unpack nested_example H)].
Defined.

(** C7 as stated fails: an empty nested mapping leaves no flattened key,
    and a key with a dot is split into two levels; in both cases the keys
    are not blank and not reserved, and the result does not even have the
    keys of the input. *)
Lemma reverse_unpack_unpack_not_identity :
  ~ (forall x : dict,
       keys_plain (VDict x) = true ->
       exists y, reverse_unpack (unpack x EmptyString) = OK y /\
                 forall k, dict_mem k y = dict_mem k x) /\
  reverse_unpack (unpack [("a", VDict [])] EmptyString) = OK [] /\
  reverse_unpack (unpack [("a.b", VInt 1)] EmptyString) = OK [("a", VDict [("b", VInt 1)])].
Proof.
  split; [|split; reflexivity].
  intros H. destruct (H [("a", VDict [])] eq_refl) as [y [Hy Hk]].
  vm_compute in Hy. inversion Hy; subst y.
  specialize (Hk "a"). discriminate Hk.
Qed.

(** ** Remarks *)


(** The evaluator meets the meta keys of a provider in the order of the
    provider: two providers with the same entries in a different order
    can resolve differently. *)
Lemma meta_key_order_matters (w : World)
    (topological_sort : graph_t -> list string -> result (list string)) :
  combine_configs w topological_sort [[("b", VStr "v1")]; provider_a_first]
  = OK [("b", VStr "v2"); ("a", VStr "v1")] /\
  combine_configs w topological_sort [[("b", VStr "v1")]; provider_b_first]
  = OK [("b", VStr "v2"); ("a", VStr "v2")].
Proof. split; reflexivity. Qed.

(** The scan follows the regex: there is a match at the head of a string
    exactly when the string starts with a dollar sign, an opening brace, a
    non-empty run of class characters and a closing brace; and the tokens
    partition the string, so that substituting each name by its own
    reference gives the string back. *)
Lemma take_var_spec s name tail :
  take_var s = (name, tail) ->
  s = name +++ tail /\ forallb is_var_char (list_ascii_of_string name) = true.
Proof.
  revert name tail. induction s as [|c s IH]; intros name tail H; cbn [take_var] in H.
  - inversion H; subst. split; reflexivity.
  - destruct (is_var_char c) eqn:Hc.
    + destruct (take_var s) as [n t]. inversion H; subst.
      destruct (IH n tail eq_refl) as [-> Hn]. split; [reflexivity|].
      cbn [list_ascii_of_string forallb]. now rewrite Hc, Hn.
    + inversion H; subst. split; reflexivity.
Qed.

Lemma take_var_run name rest :
  forallb is_var_char (list_ascii_of_string name) = true ->
  take_var (name +++ String "}" rest) = (name, String "}" rest).
Proof.
  induction name as [|c name IH]; cbn [String.append list_ascii_of_string forallb].
  - intros _. reflexivity.
  - intros H. apply andb_true_iff in H. destruct H as [Hc Hn].
    cbn [take_var]. now rewrite Hc, (IH Hn).
Qed.

Lemma match_var_spec s name :
  match_var s = Some name <->
  name <> EmptyString /\ forallb is_var_char (list_ascii_of_string name) = true /\
  exists rest, s = "${" +++ name +++ String "}" rest.
Proof.
  split.
  - unfold match_var. intros H.
    destruct s as [|c0 s]; [discriminate|].
    destruct (Ascii.ascii_dec c0 "$") as [->|Hc0];
      [|destruct c0 as [[] [] [] [] [] [] [] []]; try discriminate H; now contradiction Hc0].
    destruct s as [|c1 s]; [discriminate|].
    destruct (Ascii.ascii_dec c1 "{") as [->|Hc1];
      [|destruct c1 as [[] [] [] [] [] [] [] []]; try discriminate H; now contradiction Hc1].
    destruct (take_var s) as [n t] eqn:Ht.
    destruct n as [|c n]; [discriminate|].
    destruct t as [|c2 t]; [discriminate|].
    destruct (Ascii.ascii_dec c2 "}") as [->|Hc2];
      [|destruct c2 as [[] [] [] [] [] [] [] []]; try discriminate H; now contradiction Hc2].
    inversion H; subst name.
    destruct (take_var_spec _ _ _ Ht) as [-> Hn].
    split; [discriminate|]. split; [assumption|]. exists t. reflexivity.
  - intros [Hne [Hn [rest ->]]]. unfold match_var. cbn [String.append].
    rewrite (take_var_run _ _ Hn). destruct name; [contradiction | reflexivity].
Qed.

Lemma drop_str_append a b : drop_str (String.length a) (a +++ b) = b.
Proof. induction a as [|c a IH]; [now destruct b | exact IH]. Qed.

Lemma scan_partitions s :
  forall skip,
    String.concat EmptyString
      (map (fun t => match t with
                     | TChar c => String c EmptyString
                     | TVar name => "${" +++ name +++ "}"
                     end) (scan skip s))
    = drop_str skip s.
Proof.
  induction s as [|c s IH]; intros skip.
  - destruct skip; reflexivity.
  - destruct skip as [|k]; cbn [scan drop_str]; [|apply IH].
    assert (Hcat : forall x l, String.concat EmptyString (x :: l)
                               = x +++ String.concat EmptyString l).
    { intros x [|y l]; cbn [String.concat String.append];
        [now rewrite append_nil_r | reflexivity]. }
    destruct (match_var (String c s)) as [name|] eqn:Hm.
    + cbn [map]. rewrite Hcat, IH.
      apply match_var_spec in Hm. destruct Hm as [_ [_ [rest E]]].
      cbn [String.append] in E. inversion E; subst c s.
      replace (String.length name + 2)
        with (String.length (String "{" (name +++ "}"))).
      * change (String "{" (name +++ String "}" rest))
          with (String "{" name +++ String "}" rest).
        replace (String "{" name +++ String "}" rest)
          with (String "{" (name +++ "}") +++ rest)
          by (cbn [String.append]; now rewrite append_assoc).
        rewrite drop_str_append. cbn [String.append]. now rewrite append_assoc.
      * cbn [String.length]. rewrite length_append. cbn [String.length]. lia.
    + cbn [map]. rewrite Hcat, IH. reflexivity.
Qed.

Lemma subst_str_identity s :
  subst_str s (fun name => "${" +++ name +++ "}") = s.
Proof. unfold subst_str, tokens. apply (scan_partitions s 0). Qed.

(** * Further properties of the configuration core *)

(** ** The index counter *)

(** X1.  An allocation returns the counter and stores its successor; the next
    allocation returns the successor; no other key is touched; and a
    dictionary without a counter gives index 1. *)
Theorem next_free_index_consecutive :
  forall (w : World) (d : dict) (i : Z) (d1 : dict),
    _get_next_free_index w d = OK (i, d1) ->
    dict_get _NEXT_FREE_INDEX_KEY d1 = Some (VInt (i + 1)) /\
    _get_next_free_index w d1 = OK ((i + 1)%Z, dict_set d1 _NEXT_FREE_INDEX_KEY (VInt (i + 1 + 1))) /\
    (forall k, k <> _NEXT_FREE_INDEX_KEY -> dict_get k d1 = dict_get k d) /\
    (dict_mem _NEXT_FREE_INDEX_KEY d = false -> i = 1%Z).
Proof.
  intros w d i d1 H. unfold _get_next_free_index in H.
  set (d0 := if dict_mem _NEXT_FREE_INDEX_KEY d then d
             else dict_set d _NEXT_FREE_INDEX_KEY (VInt 1)) in *.
  bind_as H v Hv. bind_as H n Hn. inversion H; subst n d1. clear H.
  assert (Hget : dict_get _NEXT_FREE_INDEX_KEY
                   (dict_set d0 _NEXT_FREE_INDEX_KEY (VInt (i + 1))) = Some (VInt (i + 1)))
    by apply dict_get_set_same.
  split; [exact Hget|]. split; [|split].
  - unfold _get_next_free_index. unfold dict_mem. rewrite Hget.
    unfold getitem. rewrite Hget. cbn [bind py_int]. reflexivity.
  - intros k Hk. rewrite dict_get_set_other by congruence.
    unfold d0. destruct (dict_mem _NEXT_FREE_INDEX_KEY d); [reflexivity|].
    apply dict_get_set_other. congruence.
  - intros Hm. unfold d0 in Hv. rewrite Hm in Hv.
    unfold getitem in Hv. rewrite dict_get_set_same in Hv. inversion Hv; subst v.
    cbn [py_int] in Hn. now inversion Hn.
Qed.

Lemma next_free_index_consecutive_witness :
  _get_next_free_index closed_world [("a", VInt 7)]
  = OK (1%Z, [("a", VInt 7); ("_next_free_index", VInt 2)]) /\
  _get_next_free_index closed_world [("a", VInt 7); ("_next_free_index", VInt 2)]
  = OK (2%Z, [("a", VInt 7); ("_next_free_index", VInt 3)]).
Proof.
  split; [reflexivity|].
  exact (proj1 (proj2 (next_free_index_consecutive closed_world [("a", VInt 7)] 1
                         [("a", VInt 7); ("_next_free_index", VInt 2)] eq_refl))).
Defined.

(** ** What the directives read *)

Lemma map_result_ext_in {A B : Type} (f g : A -> result B) (xs : list A) :
  (forall x, In x xs -> f x = g x) -> map_result f xs = map_result g xs.
Proof.
  induction xs as [|x xs IH]; intros H; cbn [map_result]; [reflexivity|].
  rewrite (H x (or_introl eq_refl)), IH; [reflexivity|].
  intros y Hy. apply H. now right.
Qed.

Lemma in_var_names name ts : In (TVar name) ts -> In name (var_names ts).
Proof.
  unfold var_names. intros H. apply in_flat_map. exists (TVar name). simpl. auto.
Qed.

Lemma subst_str_dict_agree c1 c2 input :
  (forall s, input = VStr s ->
     forall t, In t (var_names (tokens s)) -> dict_get t c1 = dict_get t c2) ->
  subst_str_dict c1 input = subst_str_dict c2 input.
Proof.
  intros H. destruct input; try reflexivity.
  unfold subst_str_dict, subst_pieces.
  rewrite (map_result_ext_in _
             (fun t => match t with
                       | TChar c => OK (VStr (String c EmptyString))
                       | TVar name => getitem c2 name
                       end)); [reflexivity|].
  intros [c|name] Hin; [reflexivity|].
  unfold getitem. rewrite (H s eq_refl name); [reflexivity|]. now apply in_var_names.
Qed.

Lemma written_set (c : dict) key v : written key (OK (dict_set c key v)) = OK (Some v).
Proof. unfold written, result_map. now rewrite dict_get_set_same. Qed.

Lemma written_bind {A : Type} key (m : result A) (k : A -> result dict) :
  written key (bind m k) = bind m (fun x => written key (k x)).
Proof. now destruct m. Qed.

Section Dependencies.

Variable w : World.

Lemma append_written c key value params :
  written key (append_action c key value params) =
  match match dict_get key c with Some cur => cur | None => VList [] end with
  | VList l =>
      match value with
      | VList v => OK (Some (VList (l ++ v)))
      | _ => Raise (ValueError (AppendNonList key))
      end
  | _ => Raise (ValueError (AppendToNonListSetting key))
  end.
Proof.
  unfold append_action, dict_mem.
  destruct (dict_get key c) as [cur|] eqn:Hc; unfold getitem.
  - rewrite Hc. cbn [bind]. destruct cur; try reflexivity.
    destruct value; try reflexivity. apply written_set.
  - rewrite dict_get_set_same. cbn [bind].
    destruct value; try reflexivity. apply written_set.
Qed.

(** X2.  The value that a directive of the registry gives to its key depends
    only on the settings that [target_settings] lists: two working
    dictionaries that agree on them give the same value, or the same
    error. *)
Theorem target_settings_sound :
  forall (d : MetaDirective) (key : string) (value : Value) (params : MetaDirectiveParams)
         (targets : list string) (c1 c2 : dict),
    registered w d ->
    target_settings d key value = OK targets ->
    (forall t, In t targets -> dict_get t c1 = dict_get t c2) ->
    written key (action d c1 key value params) = written key (action d c2 key value params).
Proof.
  intros d key value params targets c1 c2 Hd Ht Hagree.
  unfold registered in Hd. simpl in Hd.
  repeat (destruct Hd as [Hd | Hd]; [subst d; cbn [action target_settings] in * |]);
    try contradiction.
  - inversion Ht; subst targets.
    rewrite !append_written, (Hagree key (or_introl eq_refl)). reflexivity.
  - unfold crossappend_targets, crossappend_action in *.
    destruct (crossappend_decode value) as [[t a]|]; [|reflexivity].
    cbn [bind] in *. inversion Ht; subst targets.
    unfold getitem. rewrite (Hagree t (or_introl eq_refl)).
    destruct (dict_get t c2) as [base|]; [|reflexivity]. cbn [bind].
    destruct (py_add w base (VList a)); [|reflexivity]. cbn [bind].
    now rewrite !written_set.
  - unfold crossappendref_targets, crossappendref_action in *.
    destruct (crossappendref_decode value) as [[t a]|]; [|reflexivity].
    cbn [bind] in *. inversion Ht; subst targets.
    unfold getitem.
    rewrite (Hagree t (or_introl eq_refl)), (Hagree a (or_intror (or_introl eq_refl))).
    destruct (dict_get t c2) as [x|]; [|reflexivity]. cbn [bind].
    destruct (dict_get a c2) as [y|]; [|reflexivity]. cbn [bind].
    destruct (py_add w x y); [|reflexivity]. cbn [bind].
    now rewrite !written_set.
  - unfold subst_targets, subst_action in *.
    destruct value; try discriminate. inversion Ht; subst targets.
    rewrite (subst_str_dict_agree c1 c2 (VStr s)).
    + destruct (subst_str_dict c2 (VStr s)); [|reflexivity]. cbn [bind].
      now rewrite !written_set.
    + intros s0 E t Hin. inversion E; subst s0. now apply Hagree.
  - unfold crossref_targets, crossref_action in *.
    destruct value; try reflexivity.
    + inversion Ht; subst targets. unfold getitem.
      rewrite (Hagree s (or_introl eq_refl)).
      destruct (dict_get s c2); [|reflexivity]. cbn [bind]. now rewrite !written_set.
    + rewrite (map_result_ext_in _
                 (fun k => s <- crossref_check_and_cast k ;; getitem c2 s)).
      * destruct (map_result (fun k => s <- crossref_check_and_cast k ;; getitem c2 s) l);
          [|reflexivity].
        cbn [bind]. now rewrite !written_set.
      * intros k Hk. destruct k; try reflexivity. cbn [crossref_check_and_cast bind].
        unfold getitem. rewrite (Hagree s); [reflexivity|].
        clear - Ht Hk. revert targets Ht.
        induction l as [|x l IH]; intros targets Ht; [contradiction|].
        cbn [map_result] in Ht. bind_as Ht y Hy. bind_as Ht ys Hys.
        inversion Ht; subst targets. destruct Hk as [->|Hk].
        -- cbn [crossref_check_and_cast] in Hy. inversion Hy. now left.
        -- right. eapply IH; eassumption.
  - unfold transclude_action. destruct value; try reflexivity.
    destruct (read_file w s); [|reflexivity]. now rewrite !written_set.
  - unfold json2list_action. destruct value; try reflexivity.
    destruct (json_loads w s) as [[]|]; try reflexivity. now rewrite !written_set.
  - unfold prependlocal_action. destruct (meta_path params); try reflexivity.
    now rewrite !written_set.
Qed.

End Dependencies.

Lemma target_settings_sound_witness :
  registered closed_world subst_directive /\
  target_settings subst_directive "greet" (VStr "${base}!") = OK ["base"] /\
  written "greet" (action subst_directive [("base", VStr "hi"); ("other", VInt 1)]
                     "greet" (VStr "${base}!") {| meta_path := VNull |})
  = written "greet" (action subst_directive [("other", VInt 2); ("base", VStr "hi")]
                       "greet" (VStr "${base}!") {| meta_path := VNull |}).
Proof.
  assert (Hr : registered closed_world subst_directive)
    by (unfold registered; simpl; auto 10).
  split; [exact Hr|]. split; [reflexivity|].
  apply (target_settings_sound closed_world subst_directive "greet" (VStr "${base}!")
           {| meta_path := VNull |} ["base"] _ _ Hr eq_refl).
  intros t [<-|[]]. reflexivity.
Defined.

(** ** Missing targets *)

Lemma map_result_first_raise {A B : Type} (f : A -> result B) (xs : list A) :
  (exists x e, In x xs /\ f x = Raise e) ->
  exists x e, In x xs /\ f x = Raise e /\ map_result f xs = Raise e.
Proof.
  induction xs as [|x xs IH]; intros [y [e [Hin Hy]]]; [contradiction|].
  cbn [map_result]. destruct (f x) as [b|e0] eqn:Hx.
  - destruct Hin as [->|Hin]; [congruence|].
    destruct (IH (ex_intro _ y (ex_intro _ e (conj Hin Hy)))) as [z [e1 [Hz [Hfz Hm]]]].
    exists z, e1. cbn [bind]. rewrite Hm. simpl. auto.
  - exists x, e0. simpl. auto.
Qed.

Lemma in_var_names_inv name ts : In name (var_names ts) -> In (TVar name) ts.
Proof.
  unfold var_names. intros H. apply in_flat_map in H. destruct H as [t [Ht Hn]].
  destruct t; [contradiction|]. destruct Hn as [->|[]]. assumption.
Qed.

Lemma map_cast_in l names t :
  map_result crossref_check_and_cast l = OK names -> In t names -> In (VStr t) l.
Proof.
  revert names. induction l as [|x l IH]; intros names H Hin; cbn [map_result] in H.
  - inversion H; subst. contradiction.
  - bind_as H y Hy. bind_as H ys Hys. inversion H; subst names.
    destruct x; try discriminate. cbn [crossref_check_and_cast] in Hy. inversion Hy; subst y.
    destruct Hin as [->|Hin]; [now left | right; eauto].
Qed.

Lemma map_cast_names l names x :
  map_result crossref_check_and_cast l = OK names -> In x l ->
  exists t, x = VStr t /\ In t names.
Proof.
  revert names. induction l as [|y l IH]; intros names H Hin; [contradiction|].
  cbn [map_result] in H. bind_as H z Hz. bind_as H zs Hzs. inversion H; subst names.
  destruct Hin as [->|Hin].
  - destruct x; try discriminate. cbn [crossref_check_and_cast] in Hz.
    inversion Hz; subst z. exists s. split; [reflexivity | now left].
  - destruct (IH _ Hzs Hin) as [t [-> Ht]]. exists t. split; [reflexivity | now right].
Qed.

(** X3.  A directive of the registry raises a key error only for one of its
    dependencies that is absent from the working dictionary; and every
    directive but [append], which takes an absent key for an empty list,
    raises one as soon as a dependency is absent. *)
Theorem missing_target_is_dependency :
  forall (w : World) (name : string) (d : MetaDirective) (key : string) (value : Value)
         (params : MetaDirectiveParams) (targets : list string) (c : dict),
    directive w name = Some d ->
    target_settings d key value = OK targets ->
    (forall k, action d c key value params = Raise (KeyError k) ->
               In k targets /\ dict_get k c = None) /\
    (name <> "append" ->
     (exists t, In t targets /\ dict_get t c = None) ->
     exists k, action d c key value params = Raise (KeyError k) /\
               In k targets /\ dict_get k c = None).
Proof.
  intros w name d key value params targets c Hd Ht.
  unfold directive in Hd. cbn [get_meta_directives lookup_directive] in Hd.
  repeat match type of Hd with
  | (if (?n =? name)%string then _ else _) = _ =>
      destruct (String.eqb_spec n name) as [<-|_];
        [inversion Hd; subst d; clear Hd; cbn [action target_settings] in * |]
  end; [.. | discriminate].
  - (* append *)
    split; [|intros Hne; now contradiction Hne].
    intros k H. unfold append_action in H.
    destruct (dict_mem key c) eqn:Hm; unfold getitem, dict_mem in *.
    + destruct (dict_get key c) as [cur|]; [|discriminate]. cbn [bind] in H.
      destruct cur; try discriminate. destruct value; discriminate.
    + rewrite dict_get_set_same in H. cbn [bind] in H. destruct value; discriminate.
  - (* crossappend *)
    unfold crossappend_targets, crossappend_action in *.
    destruct (crossappend_decode value) as [[t a]|]; [|discriminate].
    cbn [bind] in *. inversion Ht; subst targets. unfold getitem. split.
    + intros k H. destruct (dict_get t c) as [base|] eqn:Hg.
      * cbn [bind] in H. unfold py_add in H.
        destruct base; discriminate.
      * inversion H; subst. simpl. auto.
    + intros _ [t' [[<-|[]] Habs]]. rewrite Habs. exists t. simpl. auto.
  - (* crossappendref *)
    unfold crossappendref_targets, crossappendref_action in *.
    destruct (crossappendref_decode value) as [[t a]|]; [|discriminate].
    cbn [bind] in *. inversion Ht; subst targets. unfold getitem. split.
    + intros k H. destruct (dict_get t c) as [x|] eqn:Hx.
      * cbn [bind] in H. destruct (dict_get a c) as [y|] eqn:Hy.
        -- cbn [bind] in H. apply bind_raise in H.
           destruct H as [H | [r [_ H]]]; [|discriminate].
           apply py_add_benign in H as Hb. unfold py_add in H.
           destruct x, y; try discriminate;
             try (destruct (float_add w _ _); discriminate).
        -- inversion H; subst. simpl. auto.
      * inversion H; subst. simpl. auto.
    + intros _ [t' [Hin Habs]]. destruct (dict_get t c) as [x|] eqn:Hx.
      * cbn [bind]. destruct Hin as [<-|[<-|[]]]; [congruence|].
        rewrite Habs. exists a. simpl. auto.
      * exists t. simpl. auto.
  - (* subst *)
    unfold subst_targets, subst_action in *.
    destruct value; try discriminate. inversion Ht; subst targets.
    unfold subst_str_dict, subst_pieces. split.
    + intros k H. apply bind_raise in H. destruct H as [H | [r [_ H]]]; [|discriminate].
      apply bind_raise in H. destruct H as [H | [ps [_ H]]].
      * apply map_result_raise in H. destruct H as [t [Hin Hf]].
        destruct t as [ch|n]; [discriminate|].
        unfold getitem in Hf. destruct (dict_get n c) eqn:Hg; [discriminate|].
        inversion Hf; subst. split; [now apply in_var_names | assumption].
      * apply bind_raise in H. destruct H as [H | [r [_ H]]]; [|discriminate].
        apply join_pieces_benign in H as Hb.
        exfalso. clear - H. revert H. induction ps as [|p ps IH]; cbn [join_pieces].
        -- discriminate.
        -- destruct p; try discriminate; [exact IH|].
           intros H. apply bind_raise in H.
           destruct H as [H | [r [_ H]]]; [auto | discriminate].
    + intros _ [t [Hin Habs]].
      destruct (map_result_first_raise
                  (fun t => match t with
                            | TChar ch => OK (VStr (String ch EmptyString))
                            | TVar n => getitem c n
                            end) (tokens s)) as [x [e [Hx [Hfx Hm]]]].
      { exists (TVar t), (KeyError t). split; [now apply in_var_names_inv|].
        unfold getitem. now rewrite Habs. }
      destruct x as [ch|n]; [discriminate|].
      unfold getitem in Hfx. destruct (dict_get n c) eqn:Hg; [discriminate|].
      inversion Hfx; subst e. exists n. rewrite Hm. cbn [bind].
      split; [reflexivity|]. split; [now apply in_var_names | assumption].
  - (* crossref *)
    unfold crossref_targets, crossref_action in *.
    destruct value; try discriminate.
    + inversion Ht; subst targets. unfold getitem. split.
      * intros k H. destruct (dict_get s c) eqn:Hg; [discriminate|].
        inversion H; subst. simpl. auto.
      * intros _ [t [[<-|[]] Habs]]. rewrite Habs. exists s. simpl. auto.
    + split.
      * intros k H. apply bind_raise in H. destruct H as [H | [r [_ H]]]; [|discriminate].
        apply map_result_raise in H. destruct H as [x [Hin Hf]].
        destruct (map_cast_names _ _ _ Ht Hin) as [t [-> Hnames]].
        cbn [crossref_check_and_cast bind] in Hf. unfold getitem in Hf.
        destruct (dict_get t c) eqn:Hg; [discriminate|]. inversion Hf; subst. auto.
      * intros _ [t [Hin Habs]].
        destruct (map_result_first_raise
                    (fun k => s <- crossref_check_and_cast k ;; getitem c s) l)
          as [x [e [Hx [Hfx Hm]]]].
        { exists (VStr t), (KeyError t). split; [eapply map_cast_in; eassumption|].
          cbn [crossref_check_and_cast bind]. unfold getitem. now rewrite Habs. }
        destruct (map_cast_names _ _ _ Ht Hx) as [t' [-> Hnames]].
        cbn [crossref_check_and_cast bind] in Hfx. unfold getitem in Hfx.
        destruct (dict_get t' c) eqn:Hg; [discriminate|]. inversion Hfx; subst e.
        exists t'. rewrite Hm. cbn [bind]. auto.
  - (* transclude *)
    inversion Ht; subst targets. split.
    + intros k H. unfold transclude_action in H. destruct value; try discriminate.
      destruct (read_file w s); discriminate.
    + intros _ [t [[] _]].
  - (* json2list *)
    inversion Ht; subst targets. split.
    + intros k H. unfold json2list_action in H. destruct value; try discriminate.
      destruct (json_loads w s) as [[]|]; discriminate.
    + intros _ [t [[] _]].
  - (* prependlocal *)
    inversion Ht; subst targets. split.
    + intros k H. unfold prependlocal_action in H.
      destruct (meta_path params); discriminate.
    + intros _ [t [[] _]].
Qed.

Lemma missing_target_is_dependency_witness :
  directive closed_world "crossref" = Some crossref_directive /\
  target_settings crossref_directive "k" (VList [VStr "a"; VStr "gone"]) = OK ["a"; "gone"] /\
  exists k, action crossref_directive [("a", VInt 1)] "k" (VList [VStr "a"; VStr "gone"])
              {| meta_path := VNull |} = Raise (KeyError k) /\
            In k ["a"; "gone"] /\ dict_get k [("a", VInt 1)] = None.
Proof.
  split; [reflexivity|]. split; [reflexivity|].
  apply (proj2 (missing_target_is_dependency closed_world "crossref" crossref_directive "k"
                  (VList [VStr "a"; VStr "gone"]) {| meta_path := VNull |} ["a"; "gone"]
                  [("a", VInt 1)] eq_refl eq_refl)).
  - discriminate.
  - exists "gone". split; [simpl; auto | reflexivity].
Defined.

(** ** Renaming a dependency *)

Lemma map_change_lookup (c c' : dict) from to names :
  ~ In to names ->
  dict_mem from c = true ->
  dict_get to c' = dict_get from c ->
  (forall t, In t names -> t <> from -> dict_get t c' = dict_get t c) ->
  map_result (fun k => s <- crossref_check_and_cast k ;; getitem c' s)
             (map (fun x => VStr (if (x =? from)%string then to else x)) names) =
  map_result (fun k => s <- crossref_check_and_cast k ;; getitem c s)
             (map VStr names).
Proof.
  intros Hfresh Hmem Hto Hother. induction names as [|n names IH]; [reflexivity|].
  cbn [map map_result crossref_check_and_cast bind].
  rewrite IH.
  - unfold getitem. destruct (String.eqb_spec n from) as [->|Hne].
    + rewrite Hto. unfold dict_mem in Hmem.
      now destruct (dict_get from c).
    + rewrite (Hother n) by (simpl; auto). reflexivity.
  - intros H. apply Hfresh. now right.
  - intros t Ht. apply Hother. now right.
Qed.

Lemma map_cast_map l names :
  map_result crossref_check_and_cast l = OK names -> l = map VStr names.
Proof.
  revert names. induction l as [|x l IH]; intros names H; cbn [map_result] in H.
  - now inversion H.
  - bind_as H y Hy. bind_as H ys Hys. inversion H; subst names.
    destruct x; try discriminate. cbn [crossref_check_and_cast] in Hy. inversion Hy; subst y.
    cbn [map]. now rewrite (IH _ Hys).
Qed.

(** X4.  For the appending directives, and for [crossref] on a list, the
    renamed directive gives the key the value that the directive gave it,
    when the replacement setting holds what the renamed setting held and
    the other dependencies are as they were. *)
Theorem rename_preserves_value :
  forall (w : World) (name : string) (d : MetaDirective) (key : string) (value : Value)
         (from to : string) (targets : list string) (new_value : Value) (new_meta : string)
         (c c' r : dict) (params : MetaDirectiveParams),
    directive w name = Some d ->
    name = "append" \/ name = "crossappend" \/ name = "crossappendref" \/
      (name = "crossref" /\ is_list value = true) ->
    target_settings d key value = OK targets ->
    In from targets -> ~ In to targets ->
    rename_target d key value from to = OK (Some (new_value, new_meta)) ->
    dict_mem from c = true ->
    dict_get to c' = dict_get from c ->
    (forall t, In t targets -> t <> from -> dict_get t c' = dict_get t c) ->
    action d c key value params = OK r ->
    exists d', directive w new_meta = Some d' /\
               written key (action d' c' key new_value params) = OK (dict_get key r).
Proof.
  intros w name d key value from to targets nv nm c c' r params
         Hd Hname Ht Hfrom Hfresh Hrename Hmem Hto Hother Hact.
  destruct Hname as [->|[->|[->|[-> Hlist]]]];
    unfold directive in Hd;
    cbn [get_meta_directives lookup_directive String.eqb Ascii.eqb Bool.eqb] in Hd;
    inversion Hd; subst d; clear Hd; cbn [action target_settings rename_target] in *.
  - (* append *)
    inversion Ht; subst targets. destruct Hfrom as [<-|[]].
    unfold append_rename in Hrename. inversion Hrename; subst nv nm.
    eexists. split; [reflexivity|]. cbn [action].
    pose proof (append_written c key value params) as Hw.
    rewrite Hact in Hw. unfold written at 1, result_map in Hw.
    unfold dict_mem in Hmem. destruct (dict_get key c) as [cur|] eqn:Hc; [|discriminate].
    destruct cur; try discriminate. destruct value; try discriminate.
    inversion Hw as [Hr]. rewrite Hr.
    unfold crossappend_action. cbn [crossappend_decode bind]. unfold getitem.
    rewrite Hto. cbn [bind py_add]. apply written_set.
  - (* crossappend *)
    unfold crossappend_targets, crossappend_rename, crossappend_action in *.
    destruct (crossappend_decode value) as [[t a]|] eqn:Hdec; [|discriminate].
    cbn [bind] in *. inversion Ht; subst targets. destruct Hfrom as [<-|[]].
    rewrite String.eqb_refl in Hrename. inversion Hrename; subst nv nm.
    eexists. split; [reflexivity|]. cbn [action].
    unfold crossappend_action. cbn [crossappend_decode bind].
    unfold getitem in *. rewrite Hto.
    destruct (dict_get t c) as [base|]; [|discriminate]. cbn [bind] in *.
    destruct (py_add w base (VList a)) as [x|]; [|discriminate]. cbn [bind] in *.
    inversion Hact; subst r. rewrite dict_get_set_same. apply written_set.
  - (* crossappendref *)
    unfold crossappendref_targets, crossappendref_rename, crossappendref_action in *.
    destruct (crossappendref_decode value) as [[t a]|] eqn:Hdec; [|discriminate].
    cbn [bind] in *. inversion Ht; subst targets. inversion Hrename; subst nv nm.
    eexists. split; [reflexivity|]. cbn [action].
    unfold crossappendref_action. cbn [crossappendref_decode bind].
    assert (Hlook : forall x, In x [t; a] ->
              dict_get (if (x =? from)%string then to else x) c' = dict_get x c).
    { intros x Hx. destruct (String.eqb_spec x from) as [->|Hne]; [assumption|].
      now apply Hother. }
    unfold getitem in *.
    rewrite (Hlook t) by (simpl; auto). rewrite (Hlook a) by (simpl; auto).
    destruct (dict_get t c) as [x|]; [|discriminate]. cbn [bind] in *.
    destruct (dict_get a c) as [y|]; [|discriminate]. cbn [bind] in *.
    destruct (py_add w x y) as [z|]; [|discriminate]. cbn [bind] in *.
    inversion Hact; subst r. rewrite dict_get_set_same. apply written_set.
  - (* crossref on a list *)
    destruct value; try discriminate.
    unfold crossref_targets, crossref_rename, crossref_action in *.
    rewrite Ht in Hrename. cbn [bind] in Hrename. inversion Hrename; subst nv nm.
    eexists. split; [reflexivity|]. cbn [action]. unfold crossref_action.
    rewrite (map_change_lookup c c' from to targets Hfresh Hmem Hto Hother).
    rewrite <- (map_cast_map _ _ Ht).
    destruct (map_result (fun k => s <- crossref_check_and_cast k ;; getitem c s) l)
      as [vs|]; [|discriminate]. cbn [bind] in *.
    inversion Hact; subst r. rewrite dict_get_set_same. apply written_set.
Qed.

Lemma rename_preserves_value_witness :
  exists d', directive closed_world "crossappend" = Some d' /\
             written "a" (action d' [("a_1", VList [VInt 1])] "a"
                            (VList [VStr "a_1"; VList [VInt 2]]) {| meta_path := VNull |}) =
             OK (Some (VList [VInt 1; VInt 2])).
Proof.
  refine (rename_preserves_value closed_world "append" append_directive "a" (VList [VInt 2])
            "a" "a_1" ["a"] (VList [VStr "a_1"; VList [VInt 2]]) "crossappend"
            [("a", VList [VInt 1])] [("a_1", VList [VInt 1])]
            [("a", VList [VInt 1; VInt 2])] {| meta_path := VNull |}
            eq_refl (or_introl eq_refl) eq_refl (or_introl eq_refl) _ eq_refl eq_refl eq_refl _ eq_refl).
  - simpl. intros [H|[]]. discriminate.
  - intros t [<-|[]] H. now elim H.
Defined.

(** ** The flattener on arbitrary mappings *)

Lemma Value_nested_ind (P : Value -> Prop) :
  P VNull -> (forall b, P (VBool b)) -> (forall z, P (VInt z)) ->
  (forall bits, P (VFloat bits)) -> (forall s, P (VStr s)) ->
  (forall l, P (VList l)) ->
  (forall d, Forall (fun kv => P (snd kv)) d -> P (VDict d)) ->
  forall v, P v.
Proof.
  intros Hnull Hbool Hint Hfloat Hstr Hlist Hdict.
  fix IH 1. intros [|b|z|bits|s|l|d];
    [apply Hnull | apply Hbool | apply Hint | apply Hfloat | apply Hstr | apply Hlist |].
  apply Hdict. induction d as [|[k x] d IHd]; constructor; [apply IH | exact IHd].
Qed.

Lemma in_dict_set {A : Type} (d : list (string * A)) k v kv :
  In kv (dict_set d k v) -> kv = (k, v) \/ In kv d.
Proof.
  induction d as [|[k' v'] d IH]; cbn [dict_set]; [intros [<-|[]]; auto|].
  destruct (k' =? k)%string; intros [<-|H]; simpl; auto.
  destruct (IH H); auto.
Qed.

Lemma in_dict_update {A : Type} (d1 d2 : list (string * A)) kv :
  In kv (dict_update d1 d2) -> In kv d1 \/ In kv d2.
Proof.
  unfold dict_update. revert d1. induction d2 as [|[k v] d2 IH]; intros d1; cbn [fold_left]; [auto|].
  intros H. destruct (IH _ H) as [H1|H1]; [|simpl; auto].
  cbn [fst snd] in H1. destruct (in_dict_set _ _ _ _ H1) as [->|H2]; simpl; auto.
Qed.

Lemma dict_get_in {A : Type} (d : list (string * A)) k v : dict_get k d = Some v -> In (k, v) d.
Proof.
  induction d as [|[k' v'] d IH]; cbn [dict_get]; [discriminate|].
  destruct (String.eqb_spec k' k) as [->|_]; [intros H; inversion H; now left | right; auto].
Qed.

Lemma append_empty a b : a +++ b = EmptyString -> a = EmptyString.
Proof. destruct a; [reflexivity | discriminate]. Qed.

Lemma unpack_value_entries v :
  forall prefix k x,
    In (k, x) (unpack_value v prefix) ->
    is_dict x = false /\
    exists rest, k = (if (prefix =? EmptyString)%string then EmptyString else prefix +++ ".") +++ rest.
Proof.
  induction v as [| | | | | |d IH] using Value_nested_ind;
    intros prefix k x; try (cbn [unpack_value]; contradiction).
  rewrite unpack_value_fold.
  set (rp := if (prefix =? EmptyString)%string then EmptyString else prefix +++ ".").
  assert (Hfold : forall out,
             (forall kv, In kv out -> is_dict (snd kv) = false /\ exists rest, fst kv = rp +++ rest) ->
             forall kv, In kv (fold_left (unpack_entry rp) d out) ->
                        is_dict (snd kv) = false /\ exists rest, fst kv = rp +++ rest).
  { clear k x. induction IH as [|[key val] d Hval _ IHd]; intros out Hout; [exact Hout|].
    cbn [fold_left]. apply IHd. intros [k x] Hin. cbn [fst snd] in *.
    unfold unpack_entry in Hin. cbn [fst snd] in Hin.
    assert (Hleaf : In (k, x) (dict_set out (rp +++ key) val) -> is_dict val = false ->
                    is_dict x = false /\ exists rest, k = rp +++ rest).
    { intros H Hd. destruct (in_dict_set _ _ _ _ H) as [E|H'].
      - inversion E; subst. split; [assumption | now exists key].
      - exact (Hout _ H'). }
    destruct val; try (apply Hleaf; [assumption | reflexivity]).
    destruct (in_dict_update _ _ _ Hin) as [H|H]; [exact (Hout _ H)|].
    destruct (Hval _ _ _ H) as [Hx [rest Hk]]. split; [assumption|].
    destruct (String.eqb_spec (rp +++ key) EmptyString) as [E|_].
    + exists rest. now rewrite (append_empty _ _ E).
    + exists (key +++ "." +++ rest). now rewrite Hk, !append_assoc. }
  intros Hin. apply (Hfold [] (fun kv H => match H with end) (k, x) Hin).
Qed.

Lemma unpack_value_nodup v prefix : NoDup (dict_keys (unpack_value v prefix)).
Proof.
  destruct v; try constructor. rewrite unpack_value_fold.
  generalize (if (prefix =? EmptyString)%string then EmptyString else prefix +++ "."). intros rp.
  assert (H : NoDup (dict_keys (@nil (string * Value)))) by constructor.
  revert H. generalize (@nil (string * Value)).
  induction d as [|[k x] d IH]; intros out Hout; [exact Hout|].
  cbn [fold_left]. apply IH. unfold unpack_entry. cbn [fst snd].
  destruct x; try (now apply nodup_dict_set). now apply nodup_dict_update.
Qed.

(** A mapping with distinct keys and no mapping among its values is
    returned as it is. *)
Lemma unpack_flat_fixed x :
  NoDup (dict_keys x) ->
  (forall k v, In (k, v) x -> is_dict v = false) ->
  unpack x EmptyString = x.
Proof.
  intros Hnd Hflat. unfold unpack. rewrite unpack_value_fold. cbn [String.eqb].
  change x with ([] ++ x) at 2.
  assert (Hfresh : forall k, In k (dict_keys x) -> dict_mem k (@nil (string * Value)) = false)
    by reflexivity.
  revert Hfresh. generalize (@nil (string * Value)).
  induction x as [|[k v] x IH]; intros out Hfresh; cbn [fold_left]; [now rewrite app_nil_r|].
  inversion Hnd as [|? ? Hk Hnd']; subst.
  unfold unpack_entry at 2. cbn [fst snd append].
  replace (match v with VDict _ => _ | _ => dict_set out k v end)
    with (dict_set out k v)
    by (pose proof (Hflat k v (or_introl eq_refl)); destruct v; try reflexivity; discriminate).
  rewrite dict_set_fresh by (apply Hfresh; simpl; auto).
  rewrite IH; [now rewrite <- app_assoc | assumption | intros; apply (Hflat k0 v0); now right |].
  intros k' Hk'. rewrite dict_mem_app, (Hfresh k') by (simpl; auto).
  unfold dict_mem. cbn [dict_get orb].
  destruct (String.eqb_spec k k') as [->|_]; [contradiction | reflexivity].
Qed.

(** X5.  The mapping that [unpack] returns is flat: none of its values is a
    mapping, and under a prefix that is not blank every key starts with
    the prefix and a dot. *)
Theorem unpack_is_flat :
  forall (config_dict : dict) (prefix k : string) (v : Value),
    dict_get k (unpack config_dict prefix) = Some v ->
    is_dict v = false /\
    (prefix <> EmptyString -> exists rest, k = prefix +++ "." +++ rest).
Proof.
  intros config_dict prefix k v H. apply dict_get_in in H.
  destruct (unpack_value_entries _ _ _ _ H) as [Hv [rest Hk]].
  split; [assumption|]. intros Hp.
  destruct (String.eqb_spec prefix EmptyString) as [E|_]; [contradiction|].
  exists rest. now rewrite Hk, append_assoc.
Qed.

Lemma unpack_is_flat_witness :
  is_dict (VInt 2) = false /\
  ("snack" <> EmptyString -> exists rest, "snack.a.bar" = "snack" +++ "." +++ rest).
Proof.
  exact (unpack_is_flat nested_example "snack" "snack.a.bar" (VInt 2) eq_refl).
Defined.

(** X6.  Unpacking a mapping that [unpack] returned changes nothing. *)
Theorem unpack_idempotent :
  forall (config_dict : dict) (prefix : string),
    unpack (unpack config_dict prefix) EmptyString = unpack config_dict prefix.
Proof.
  intros config_dict prefix. apply unpack_flat_fixed.
  - apply unpack_value_nodup.
  - intros k v H. exact (proj1 (unpack_value_entries _ _ _ _ H)).
Qed.

(** ** The errors of reverse_unpack *)

Lemma split_dot_nonempty s : (1 <=? List.length (split_dot s))%nat = true.
Proof.
  destruct s as [|c s]; [reflexivity|]. cbn [split_dot].
  destruct (Ascii.eqb c "."); [reflexivity|]. now destruct (split_dot s).
Qed.

Lemma set_in_subdict_error parts last value current_root e :
  set_in_subdict parts last value current_root = Raise e -> e = TypeError BadOperand.
Proof.
  revert current_root. induction parts as [|part parts IH]; intros current_root H;
    cbn [set_in_subdict] in H; [discriminate|].
  set (root := if dict_mem part current_root then current_root
               else dict_set current_root part (VDict [])) in H.
  assert (Hget : exists sub, dict_get part root = Some sub).
  { subst root. destruct (dict_mem part current_root) eqn:Hm.
    - unfold dict_mem in Hm. destruct (dict_get part current_root) as [sub|]; [now exists sub | discriminate].
    - eexists. apply dict_get_set_same. }
  destruct Hget as [sub Hsub]. unfold getitem in H. rewrite Hsub in H. cbn [bind] in H.
  destruct sub; try (now inversion H).
  destruct (set_in_subdict parts last value d) eqn:Hrec; cbn [bind] in H; [discriminate|].
  inversion H; subst. exact (IH _ Hrec).
Qed.

(** X7.  [reverse_unpack] fails in one way only, with the TypeError of an
    operation on a value that is not a mapping: the assertion on a blank
    key is never reached. *)
Theorem reverse_unpack_raises_type_error :
  forall (input_dict : dict) (e : exn),
    reverse_unpack input_dict = Raise e -> e = TypeError BadOperand.
Proof.
  intros input_dict e. unfold reverse_unpack. generalize (@nil (string * Value)).
  induction input_dict as [|[k v] l IH]; intros out H; cbn [reduce] in H; [discriminate|].
  destruct (reverse_unpack_item out (k, v)) as [out'|e'] eqn:Hitem; cbn [bind] in H.
  - exact (IH _ H).
  - inversion H; subst e'. unfold reverse_unpack_item in Hitem. cbn [fst snd] in Hitem.
    rewrite split_dot_nonempty in Hitem. exact (set_in_subdict_error _ _ _ _ _ Hitem).
Qed.

Lemma reverse_unpack_raises_type_error_witness :
  reverse_unpack [("a", VInt 1); ("a.b", VInt 2)] = Raise (TypeError BadOperand) /\
  TypeError BadOperand = TypeError BadOperand.
Proof.
  split; [reflexivity|].
  exact (reverse_unpack_raises_type_error [("a", VInt 1); ("a.b", VInt 2)] _ eq_refl).
Defined.

(** ** Configs without meta directives *)

Lemma filter_none {A : Type} (f : A -> bool) (l : list A) :
  (forall x, In x l -> f x = false) -> filter f l = [].
Proof.
  induction l as [|a l IH]; intros H; cbn [filter]; [reflexivity|].
  rewrite (H a) by (now left). apply IH. intros x Hx. apply H. now right.
Qed.

Lemma dict_get_update_none {A : Type} (d1 d2 : list (string * A)) k :
  dict_get k d2 = None -> dict_get k (dict_update d1 d2) = dict_get k d1.
Proof.
  unfold dict_update. revert d1.
  induction d2 as [|[k' v'] d2 IH]; intros d1 H; cbn [fold_left fst snd]; [reflexivity|].
  cbn [dict_get] in H. destruct (String.eqb_spec k' k) as [->|Hne]; [discriminate|].
  rewrite (IH _ H). now apply dict_get_set_other.
Qed.

Lemma dict_get_remove_internal d k :
  k <> _CONFIG_PATH_KEY -> k <> _NEXT_FREE_INDEX_KEY ->
  dict_get k (remove_internal_keys d) = dict_get k d.
Proof.
  intros H1 H2. unfold remove_internal_keys, internal_keys. cbn [fold_left].
  assert (Hstep : forall x (d' : dict), x <> k ->
            dict_get k (if dict_mem x d' then dict_remove d' x else d') = dict_get k d').
  { intros x d' Hx. destruct (dict_mem x d'); [now apply dict_get_remove_other | reflexivity]. }
  rewrite Hstep by congruence. apply Hstep. congruence.
Qed.

Section PlainConfigs.

Variable w : World.
Variable topological_sort : graph_t -> list string -> result (list string).

Lemma update_and_expand_meta_plain config_dict meta_dict :
  no_meta_keys meta_dict ->
  update_and_expand_meta w config_dict meta_dict = OK (dict_update config_dict meta_dict).
Proof.
  intros H. unfold update_and_expand_meta, deepdict.
  now rewrite (filter_none _ _ H).
Qed.

Lemma reduce_plain configs :
  Forall no_meta_keys configs ->
  forall acc, reduce (update_and_expand_meta w) configs acc = OK (fold_left dict_update configs acc).
Proof.
  induction 1 as [|c configs Hc _ IH]; intros acc; cbn [reduce fold_left]; [reflexivity|].
  rewrite update_and_expand_meta_plain by assumption. cbn [bind]. apply IH.
Qed.

Lemma fold_update_no_meta configs :
  Forall no_meta_keys configs ->
  forall acc, no_meta_keys acc -> no_meta_keys (fold_left dict_update configs acc).
Proof.
  induction 1 as [|c configs Hc _ IH]; intros acc Hacc; cbn [fold_left]; [assumption|].
  apply IH. intros k Hk. apply in_dict_keys_update in Hk. destruct Hk; auto.
Qed.

Lemma resolve_lazy_plain c :
  no_meta_keys c -> resolve_lazy w topological_sort c = OK (remove_internal_keys c).
Proof.
  intros H. unfold resolve_lazy, deepdict. now rewrite (filter_none _ _ H).
Qed.

Lemma combine_configs_fold configs :
  Forall no_meta_keys configs ->
  combine_configs w topological_sort configs =
  OK (remove_internal_keys (fold_left dict_update configs [])).
Proof.
  intros H. unfold combine_configs. rewrite (reduce_plain _ H). cbn [bind].
  apply resolve_lazy_plain. apply fold_update_no_meta; [assumption|]. intros k [].
Qed.

(** X8.  Configs that hold no [_meta] key combine without error into their
    union, in which a later config replaces the values of the earlier
    ones, less the internal keys. *)
Theorem combine_plain_configs :
  forall configs : list dict,
    Forall no_meta_keys configs ->
    combine_configs w topological_sort configs =
    OK (remove_internal_keys (fold_left dict_update configs [])).
Proof.
  intros configs H. unfold combine_configs.
  rewrite (reduce_plain _ H). cbn [bind]. apply resolve_lazy_plain.
  apply fold_update_no_meta; [assumption|]. intros k [].
Qed.

Lemma dict_get_fold_update_none later k :
  Forall (fun d : dict => dict_get k d = None) later ->
  forall acc : dict, dict_get k (fold_left dict_update later acc) = dict_get k acc.
Proof.
  induction 1 as [|d later Hd _ IH]; intros acc; cbn [fold_left]; [reflexivity|].
  rewrite IH. now apply dict_get_update_none.
Qed.

(** X9.  Among configs that hold no [_meta] key, the last config that holds a
    key decides its value in the combined config. *)
Theorem later_config_overrides :
  forall (earlier : list dict) (c : dict) (later : list dict) (key : string) (v : Value),
    Forall no_meta_keys (earlier ++ c :: later) ->
    NoDup (dict_keys c) ->
    dict_get key c = Some v ->
    Forall (fun d : dict => dict_get key d = None) later ->
    key <> _CONFIG_PATH_KEY -> key <> _NEXT_FREE_INDEX_KEY ->
    exists r, combine_configs w topological_sort (earlier ++ c :: later) = OK r /\
              dict_get key r = Some v.
Proof.
  intros earlier c later key v Hplain Hnd Hget Hlater H1 H2.
  eexists. split; [apply combine_configs_fold; assumption|].
  rewrite dict_get_remove_internal by assumption.
  rewrite fold_left_app. cbn [fold_left].
  rewrite dict_get_fold_update_none by assumption.
  rewrite dict_get_update by assumption. now rewrite Hget.
Qed.

(** ** Reading the database *)

Lemma reachable_runtime_nodup db :
  reachable w topological_sort db -> NoDup (dict_keys (_runtime db)).
Proof.
  induction 1 as [| | | | | | |db key value Hr IH| db c db' Hr IH Hget]; try assumption.
  - constructor.
  - cbn [Database.set_setting _runtime]. now apply nodup_dict_set.
  - unfold Database.get_config in Hget. destruct (config_cache_dirty db).
    + bind_inv Hget. inversion Hget; subst. exact IH.
    + inversion Hget; subst. exact IH.
Qed.

(** X10.  In a database whose layers hold no [_meta] key, and for a key
    that does not end in [_meta]: when the key is neither [_config_path]
    nor [_next_free_index], the value that [set_setting] gives it is read
    back by [get_setting], whatever the layers hold for it, a null being
    read back as the null value of the call; and when the key is one of
    those two, [get_setting] raises the error of a missing key, since the
    resolution removes them. *)
Theorem set_setting_then_get_setting :
  forall (db : HammerDatabase) (key : string) (value nullvalue : Value),
    reachable w topological_sort db ->
    Forall no_meta_keys (Database.layers db) ->
    is_meta_key key = false ->
    (key <> _CONFIG_PATH_KEY -> key <> _NEXT_FREE_INDEX_KEY ->
     exists db',
       Database.get_setting w topological_sort (Database.set_setting db key value) key nullvalue =
       OK (match value with VNull => nullvalue | _ => value end, db')) /\
    (key = _CONFIG_PATH_KEY \/ key = _NEXT_FREE_INDEX_KEY ->
     Database.get_setting w topological_sort (Database.set_setting db key value) key nullvalue =
     Raise (KeyError ("Key " +++ key +++ " is missing"))).
Proof.
  intros db key value nullvalue Hr Hplain Hkey.
  apply reachable_runtime_nodup in Hr.
  set (pre := [[]] ++ builtins db ++ core db ++ tools db ++ technology db ++
              environment db ++ project db).
  assert (Hl : Database.layers db = pre ++ [_runtime db]).
  { unfold Database.layers, Database.runtime, pre. now rewrite <- !app_assoc. }
  assert (Hl' : Database.layers (Database.set_setting db key value) =
                pre ++ [dict_set (_runtime db) key value]).
  { unfold Database.layers, Database.runtime, pre. cbn [Database.set_setting builtins core tools
      technology environment project _runtime]. now rewrite <- !app_assoc. }
  rewrite Hl in Hplain. apply Forall_app in Hplain. destruct Hplain as [Hpre Hrt].
  inversion Hrt as [|? ? Hrt' _]; subst.
  assert (Hplain' : Forall no_meta_keys (pre ++ [dict_set (_runtime db) key value])).
  { apply Forall_app. split; [assumption|]. constructor; [|constructor].
    intros k Hk. apply in_dict_keys_set in Hk. destruct Hk as [->|Hk]; auto. }
  unfold Database.get_setting, Database.get_config.
  cbn [Database.set_setting config_cache_dirty]. fold (Database.set_setting db key value).
  rewrite Hl', (combine_configs_fold _ Hplain'). cbn [bind].
  set (c := remove_internal_keys _). split.
  - intros H1 H2.
    assert (Hc : dict_get key c = Some value).
    { unfold c. rewrite dict_get_remove_internal by assumption.
      rewrite fold_left_app. cbn [fold_left].
      rewrite dict_get_update by (now apply nodup_dict_set).
      now rewrite dict_get_set_same. }
    unfold dict_mem. rewrite Hc.
    cbn [Database.set_cache config_cache_dirty config_cache bind].
    unfold getitem. rewrite Hc. cbn [bind]. eexists. reflexivity.
  - intros Hint.
    assert (Hc : dict_get key c = None).
    { apply dict_get_none_iff. intros Hin. unfold c in Hin.
      apply remove_internal_keys_keys in Hin. tauto. }
    unfold dict_mem. now rewrite Hc.
Qed.

(** X11.  [has_setting] tells whether [get_setting] returns: where it answers
    true [get_setting] returns a value, and leaves the database in the same
    state; where it answers false [get_setting] raises the KeyError of a
    missing key. *)
Theorem has_setting_get_setting :
  forall (db : HammerDatabase) (key : string) (nullvalue : Value) (b : bool) (db' : HammerDatabase),
    Database.has_setting w topological_sort db key = OK (b, db') ->
    if b then
      exists value, Database.get_setting w topological_sort db key nullvalue = OK (value, db')
    else
      Database.get_setting w topological_sort db key nullvalue =
      Raise (KeyError ("Key " +++ key +++ " is missing")).
Proof.
  intros db key nullvalue b db' H.
  unfold Database.has_setting in H. unfold Database.get_setting.
  destruct (Database.get_config w topological_sort db) as [[c db1]|] eqn:Hget;
    cbn [bind] in *; [|discriminate].
  inversion H; subst b db'. clear H.
  destruct (dict_mem key c) eqn:Hm; [|reflexivity].
  assert (Hagain : Database.get_config w topological_sort db1 = OK (c, db1)).
  { unfold Database.get_config in *. destruct (config_cache_dirty db) eqn:Hd.
    - bind_inv Hget. inversion Hget; subst. reflexivity.
    - inversion Hget; subst. now rewrite Hd. }
  rewrite Hagain. cbn [bind]. unfold getitem, dict_mem in *.
  destruct (dict_get key c) as [x|]; [|discriminate]. cbn [bind]. eexists. reflexivity.
Qed.

End PlainConfigs.

Lemma combine_plain_configs_witness :
  combine_configs closed_world kahn_topological_sort
    [ [("a", VInt 1); ("_config_path", VStr "/tmp")]; [("a", VInt 2); ("b", VInt 3)] ] =
  OK [("a", VInt 2); ("b", VInt 3)].
Proof.
  apply (combine_plain_configs closed_world kahn_topological_sort
           [ [("a", VInt 1); ("_config_path", VStr "/tmp")]; [("a", VInt 2); ("b", VInt 3)] ]).
  repeat constructor; intros k Hk; simpl in Hk;
    repeat (destruct Hk as [<-|Hk]; [reflexivity|]); contradiction.
Defined.

Lemma later_config_overrides_witness :
  exists r, combine_configs closed_world kahn_topological_sort
              ([ [("a", VInt 1)] ] ++ [("a", VInt 2); ("b", VInt 3)] :: [ [("b", VInt 4)] ]) = OK r /\
            dict_get "a" r = Some (VInt 2).
Proof.
  apply (later_config_overrides closed_world kahn_topological_sort
           [ [("a", VInt 1)] ] [("a", VInt 2); ("b", VInt 3)] [ [("b", VInt 4)] ] "a" (VInt 2)).
  - repeat constructor; intros k Hk; simpl in Hk;
      repeat (destruct Hk as [<-|Hk]; [reflexivity|]); contradiction.
  - repeat constructor; simpl; intuition discriminate.
  - reflexivity.
  - repeat constructor.
  - discriminate.
  - discriminate.
Defined.

Lemma set_setting_then_get_setting_witness :
  (exists db',
     Database.get_setting closed_world kahn_topological_sort
       (Database.set_setting project_db "a" VNull) "a" (VStr "none") = OK (VStr "none", db')) /\
  Database.get_setting closed_world kahn_topological_sort
    (Database.set_setting project_db "_config_path" (VStr "/tmp")) "_config_path" VNull =
  Raise (KeyError "Key _config_path is missing").
Proof.
  assert (Hr : reachable closed_world kahn_topological_sort project_db)
    by (apply reach_update_project; apply reach_init).
  assert (Hp : Forall no_meta_keys (Database.layers project_db)).
  { repeat constructor; intros k Hk; simpl in Hk;
      repeat (destruct Hk as [<-|Hk]; [reflexivity|]); contradiction. }
  split.
  - apply (proj1 (set_setting_then_get_setting closed_world kahn_topological_sort
                    project_db "a" VNull (VStr "none") Hr Hp eq_refl)); discriminate.
  - apply (proj2 (set_setting_then_get_setting closed_world kahn_topological_sort
                    project_db "_config_path" (VStr "/tmp") VNull Hr Hp eq_refl)).
    now left.
Defined.

Lemma has_setting_get_setting_witness :
  exists value,
    Database.get_setting closed_world kahn_topological_sort project_db "a" VNull =
    OK (value, project_db_read).
Proof.
  exact (has_setting_get_setting closed_world kahn_topological_sort
           project_db "a" VNull true project_db_read eq_refl).
Defined.

(** ** Resolution and the order of the keys *)

Lemma dict_equal_no_meta_keys (d1 d2 : dict) :
  dict_equal d1 d2 -> no_meta_keys d1 -> no_meta_keys d2.
Proof.
  intros He H1 k Hk. apply H1.
  destruct (dict_get k d1) eqn:E.
  - apply dict_mem_true_iff. unfold dict_mem. now rewrite E.
  - exfalso. rewrite He in E. apply dict_get_none_iff in E. contradiction.
Qed.

Lemma dict_update_equal (a1 a2 d1 d2 : dict) :
  dict_equal a1 a2 -> dict_equal d1 d2 ->
  NoDup (dict_keys d1) -> NoDup (dict_keys d2) ->
  dict_equal (dict_update a1 d1) (dict_update a2 d2).
Proof.
  intros Ha Hd N1 N2 k. rewrite !dict_get_update by assumption. now rewrite Ha, Hd.
Qed.

Lemma fold_update_equal configs1 configs2 :
  Forall2 dict_equal configs1 configs2 ->
  Forall (fun c : dict => NoDup (dict_keys c)) configs1 ->
  Forall (fun c : dict => NoDup (dict_keys c)) configs2 ->
  forall a1 a2 : dict,
    dict_equal a1 a2 ->
    dict_equal (fold_left dict_update configs1 a1) (fold_left dict_update configs2 a2).
Proof.
  induction 1 as [|c1 c2 l1 l2 Hc _ IH]; intros N1 N2 a1 a2 Ha; cbn [fold_left]; [assumption|].
  inversion N1; inversion N2; subst. apply IH; try assumption.
  now apply dict_update_equal.
Qed.

Lemma remove_internal_keys_equal (d1 d2 : dict) :
  dict_equal d1 d2 -> dict_equal (remove_internal_keys d1) (remove_internal_keys d2).
Proof.
  intros H k.
  assert (Hint : forall d : dict,
            k = _CONFIG_PATH_KEY \/ k = _NEXT_FREE_INDEX_KEY ->
            dict_get k (remove_internal_keys d) = None).
  { intros d Hk. apply dict_get_none_iff. intros Hin.
    apply remove_internal_keys_keys in Hin. tauto. }
  destruct (String.eqb_spec k _CONFIG_PATH_KEY) as [E1|E1]; [now rewrite !Hint by auto|].
  destruct (String.eqb_spec k _NEXT_FREE_INDEX_KEY) as [E2|E2]; [now rewrite !Hint by auto|].
  rewrite !dict_get_remove_internal by assumption. apply H.
Qed.

(** C6, amended.  Resolution is a function of the list of the configs,
    each with its keys in their order of insertion.  For configs that hold
    no [_meta] key the order of the keys does not matter: two lists of
    configs (each a dictionary, with no key twice) that are equal as
    mappings resolve, without error, to results that are equal as
    mappings.  A read of a database returns the dump of the resolution
    of its layers, so that two databases with the same layers return the
    same dump (or fail alike), whatever the state of their caches; and a
    second read returns the same dump and leaves the database as the first
    read left it. *)
Theorem resolution_deterministic :
  forall (w : World) (topological_sort : graph_t -> list string -> result (list string)),
    (forall configs1 configs2,
       Forall2 dict_equal configs1 configs2 ->
       Forall (fun c : dict => NoDup (dict_keys c)) configs1 ->
       Forall (fun c : dict => NoDup (dict_keys c)) configs2 ->
       Forall no_meta_keys configs1 ->
       exists r1 r2,
         combine_configs w topological_sort configs1 = OK r1 /\
         combine_configs w topological_sort configs2 = OK r2 /\
         dict_equal r1 r2) /\
    (forall db1 db2,
       reachable w topological_sort db1 -> reachable w topological_sort db2 ->
       Database.layers db1 = Database.layers db2 ->
       database_json w topological_sort db1 = database_json w topological_sort db2) /\
    (forall db dump db',
       Database.get_database_json w topological_sort db = OK (dump, db') ->
       Database.get_database_json w topological_sort db' = OK (dump, db')).
Proof.
  intros w topo. split; [|split].
  - intros configs1 configs2 He N1 N2 P1.
    assert (P2 : Forall no_meta_keys configs2).
    { clear N1 N2. induction He as [|c1 c2 l1 l2 Hc _ IH]; [constructor|].
      inversion P1; subst. constructor; [eapply dict_equal_no_meta_keys; eassumption | auto]. }
    exists (remove_internal_keys (fold_left dict_update configs1 [])),
           (remove_internal_keys (fold_left dict_update configs2 [])).
    split; [now apply combine_configs_fold|]. split; [now apply combine_configs_fold|].
    apply remove_internal_keys_equal. apply fold_update_equal; try assumption.
    intros k. reflexivity.
  - intros db1 db2 H1 H2 Hlayers.
    rewrite !database_json_layers by assumption. now rewrite Hlayers.
  - intros db dump db' H. unfold Database.get_database_json in *.
    bind_inv H. destruct a as [c db1]. inversion H; subst.
    unfold Database.get_config in *.
    destruct (config_cache_dirty db) eqn:Hd.
    + bind_inv Ha. inversion Ha; subst. reflexivity.
    + inversion Ha; subst. rewrite Hd. reflexivity.
Qed.

Lemma resolution_deterministic_witness :
  (exists r1 r2,
     combine_configs closed_world kahn_topological_sort
       [ [("a", VInt 1); ("b", VInt 2)]; [("b", VInt 3); ("c", VInt 4)] ] = OK r1 /\
     combine_configs closed_world kahn_topological_sort
       [ [("b", VInt 2); ("a", VInt 1)]; [("c", VInt 4); ("b", VInt 3)] ] = OK r2 /\
     dict_equal r1 r2) /\
  database_json closed_world kahn_topological_sort project_db =
  database_json closed_world kahn_topological_sort project_db_read /\
  Database.get_database_json closed_world kahn_topological_sort project_db_read
  = OK (EmptyString, project_db_read).
Proof.
  assert (Hswap : forall (k1 k2 : string) (v1 v2 : Value),
            k1 <> k2 -> dict_equal [(k1, v1); (k2, v2)] [(k2, v2); (k1, v1)]).
  { intros k1 k2 v1 v2 Hne k. cbn [dict_get].
    destruct (String.eqb_spec k1 k) as [E1|_], (String.eqb_spec k2 k) as [E2|_];
      try reflexivity. congruence. }
  split; [|split].
  - apply (proj1 (resolution_deterministic closed_world kahn_topological_sort)).
    + repeat constructor; apply Hswap; discriminate.
    + repeat constructor; simpl; intuition discriminate.
    + repeat constructor; simpl; intuition discriminate.
    + repeat constructor; intros k Hk; simpl in Hk;
        repeat (destruct Hk as [<-|Hk]; [reflexivity|]); contradiction.
  - apply (proj1 (proj2 (resolution_deterministic closed_world kahn_topological_sort))).
    + apply reach_update_project, reach_init.
    + apply (reach_get_config _ _ project_db [("a", VStr "hi")]).
      * apply reach_update_project, reach_init.
      * reflexivity.
    + reflexivity.
  - apply (proj2 (proj2 (resolution_deterministic closed_world kahn_topological_sort))
             project_db).
    reflexivity.
Defined.

(** C6 as stated fails: the two providers hold the same settings, in a
    different order, and resolve over the same base to different values
    of [a], since the evaluator handles the [_meta] keys in the order of
    the provider. *)
Lemma equal_mappings_resolve_differently :
  ~ (forall (w : World) (topological_sort : graph_t -> list string -> result (list string))
            (configs1 configs2 : list dict) (r1 r2 : dict),
       Forall2 dict_equal configs1 configs2 ->
       combine_configs w topological_sort configs1 = OK r1 ->
       combine_configs w topological_sort configs2 = OK r2 ->
       dict_equal r1 r2).
Proof.
  intros H.
  assert (He : dict_equal provider_a_first provider_b_first).
  { intros k. unfold provider_a_first, provider_b_first. cbn [dict_get].
    destruct (String.eqb_spec "a" k) as [<-|_]; [reflexivity|].
    destruct (String.eqb_spec "a_meta" k) as [<-|_]; [reflexivity|].
    destruct (String.eqb_spec "b" k) as [<-|_]; [reflexivity|].
    destruct (String.eqb_spec "b_meta" k) as [<-|_]; reflexivity. }
  specialize (H closed_world kahn_topological_sort
                [[("b", VStr "v1")]; provider_a_first] [[("b", VStr "v1")]; provider_b_first]
                [("b", VStr "v2"); ("a", VStr "v1")] [("b", VStr "v2"); ("a", VStr "v2")]).
  assert (Hab : dict_get "a" [("b", VStr "v2"); ("a", VStr "v1")] =
                dict_get "a" [("b", VStr "v2"); ("a", VStr "v2")]).
  { apply H; [|reflexivity|reflexivity].
    constructor; [intros k; reflexivity|]. constructor; [exact He | constructor]. }
  discriminate Hab.
Qed.

(** ** What the eager evaluator keeps *)

Lemma nodup_dict_remove {A : Type} (d : list (string * A)) k :
  NoDup (dict_keys d) -> NoDup (dict_keys (dict_remove d k)).
Proof.
  unfold dict_remove, dict_keys. induction d as [|[k' v'] d IH]; cbn [filter map fst];
    intros H; [constructor|].
  inversion H as [|? ? Hk Hnd]; subst.
  destruct (negb (k' =? k)%string); [|auto].
  cbn [map fst]. constructor; [|auto].
  intros Hin. apply Hk. apply in_map_iff in Hin. destruct Hin as [x [E Hx]].
  apply filter_In in Hx. apply in_map_iff. exists x. tauto.
Qed.

Lemma endswith_inv s suf : endswith s suf = true -> exists a, s = a +++ suf.
Proof.
  induction s as [|c s IH]; cbn [endswith]; intros H; apply orb_true_iff in H.
  - destruct H as [H|H]; [|discriminate]. apply String.eqb_eq in H. now exists EmptyString.
  - destruct H as [H|H].
    + apply String.eqb_eq in H. now exists EmptyString.
    + destruct (IH H) as [a ->]. now exists (String c a).
Qed.

Lemma meta_key_decompose k :
  is_meta_key k = true -> k = drop_end (String.length "_meta") k +++ "_meta".
Proof.
  intros H. destruct (endswith_inv _ _ H) as [a ->]. now rewrite drop_end_append.
Qed.

Section Kept.

Variable w : World.

(** Every action is an assignment to its key. *)
Lemma action_shape d config_dict key value params config_dict' :
  registered w d ->
  action d config_dict key value params = OK config_dict' ->
  exists x c1, config_dict' = dict_set c1 key x /\
               (c1 = config_dict \/ exists y, c1 = dict_set config_dict key y).
Proof.
  intros Hd H. unfold registered in Hd. simpl in Hd.
  repeat (destruct Hd as [Hd | Hd]; [subst; simpl in * |]); try contradiction.
  - unfold append_action in H. bind_inv H.
    destruct a; try discriminate. destruct value; try discriminate.
    inversion H; subst. eexists. eexists. split; [reflexivity|].
    destruct (dict_mem key config_dict); eauto.
  - unfold crossappend_action in H. bind_inv H. destruct a as [t a].
    bind_inv H. bind_inv H. inversion H; subst. eauto.
  - unfold crossappendref_action in H. bind_inv H. destruct a as [t a].
    bind_inv H. bind_inv H. bind_inv H. inversion H; subst. eauto.
  - unfold subst_action in H. bind_inv H. inversion H; subst. eauto.
  - unfold crossref_action in H. destruct value; try discriminate.
    + bind_inv H. inversion H; subst. eauto.
    + bind_inv H. inversion H; subst. eauto.
  - unfold transclude_action in H. destruct value; try discriminate.
    destruct (read_file w s); [|discriminate]. inversion H; subst. eauto.
  - unfold json2list_action in H. destruct value; try discriminate.
    destruct (json_loads w s) as [[]|]; try discriminate. inversion H; subst. eauto.
  - unfold prependlocal_action in H. destruct (meta_path params); try discriminate.
    inversion H; subst. eauto.
Qed.

Lemma action_frame d config_dict key value params config_dict' :
  registered w d ->
  action d config_dict key value params = OK config_dict' ->
  dict_mem key config_dict' = true /\
  forall k, k <> key -> dict_get k config_dict' = dict_get k config_dict.
Proof.
  intros Hd H. destruct (action_shape _ _ _ _ _ _ Hd H) as [x [c1 [-> Hc1]]]. split.
  - unfold dict_mem. now rewrite dict_get_set_same.
  - intros k Hk. rewrite dict_get_set_other by congruence.
    destruct Hc1 as [->|[y ->]]; [reflexivity|]. apply dict_get_set_other. congruence.
Qed.

Lemma get_next_free_index_frame d i d1 :
  _get_next_free_index w d = OK (i, d1) ->
  forall k, k <> _NEXT_FREE_INDEX_KEY -> dict_get k d1 = dict_get k d.
Proof.
  unfold _get_next_free_index. intros H k Hk.
  bind_inv H. bind_inv H. inversion H; subst.
  rewrite dict_get_set_other by congruence.
  destruct (dict_mem _NEXT_FREE_INDEX_KEY d); [reflexivity|].
  apply dict_get_set_other. congruence.
Qed.

Lemma dict_mem_update {A : Type} (d1 d2 : list (string * A)) k :
  dict_mem k d1 = true -> dict_mem k (dict_update d1 d2) = true.
Proof.
  intros H. apply dict_mem_true_iff. apply in_dict_keys_update. left.
  now apply dict_mem_true_iff.
Qed.

Lemma dict_get_mem {A : Type} (d d' : list (string * A)) k :
  dict_get k d' = dict_get k d -> dict_mem k d = true -> dict_mem k d' = true.
Proof. unfold dict_mem. now intros ->. Qed.

Lemma get_next_free_index_mem d i d1 k :
  _get_next_free_index w d = OK (i, d1) -> dict_mem k d = true -> dict_mem k d1 = true.
Proof.
  intros H Hk. destruct (String.eqb_spec k _NEXT_FREE_INDEX_KEY) as [->|Hne].
  - unfold _get_next_free_index in H. bind_inv H. bind_inv H. inversion H; subst.
    unfold dict_mem. now rewrite dict_get_set_same.
  - eapply dict_get_mem; [|eassumption]. eapply get_next_free_index_frame; eassumption.
Qed.

(** One directive removes no key of the working dictionary. *)
Lemma expand_meta_type_mem meta_key setting newdict meta_dict seen v newdict' meta_dict' seen' :
  expand_meta_type w meta_key setting (newdict, meta_dict, seen) v
    = OK (newdict', meta_dict', seen') ->
  forall k, dict_mem k newdict = true -> dict_mem k newdict' = true.
Proof.
  unfold expand_meta_type. intros H k Hk.
  destruct v; try discriminate.
  destruct (startswith s "dynamic"); [discriminate|].
  destruct (startswith s "lazy").
  - destruct (directive w _) as [d|]; [|discriminate].
    destruct seen; [discriminate|].
    unfold expand_lazy_meta in H. bind_as H val Hval. bind_as H targets Ht.
    destruct (0 <? _)%nat.
    + bind_as H ix Hix. destruct ix as [next_index newdict1].
      bind_as H nvm Hnvm. destruct nvm as [[new_value new_meta]|]; [|discriminate].
      bind_as H old Hold. inversion H; subst.
      apply dict_mem_update. eapply get_next_free_index_mem; eassumption.
    + inversion H; subst. now apply dict_mem_update.
  - destruct seen; [discriminate|].
    destruct (directive w s) as [d|] eqn:Hd; [|discriminate].
    unfold expand_eager_meta in H.
    bind_as H val Hval. bind_as H nd Hact. bind_as H v1 Hv1. inversion H; subst.
    apply directive_registered in Hd.
    destruct (action_frame _ _ _ _ _ _ Hd Hact) as [Hset Hframe].
    destruct (String.eqb_spec k setting) as [->|Hne]; [assumption|].
    eapply dict_get_mem; [|eassumption]. now apply Hframe.
Qed.

Lemma reduce_meta_types_mem meta_key setting l :
  forall newdict meta_dict seen newdict' meta_dict' seen',
    reduce (expand_meta_type w meta_key setting) l (newdict, meta_dict, seen)
      = OK (newdict', meta_dict', seen') ->
    forall k, dict_mem k newdict = true -> dict_mem k newdict' = true.
Proof.
  induction l as [|v l IH]; intros newdict meta_dict seen newdict' meta_dict' seen' H k Hk;
    cbn [reduce] in H.
  - inversion H; subst. assumption.
  - bind_as H st Hst. destruct st as [[nd md] sn].
    eapply IH; [eassumption|]. eapply expand_meta_type_mem; eassumption.
Qed.

(** One directive changes the local copy of the provider at the setting
    only. *)
Lemma expand_meta_type_local meta_key setting newdict meta_dict seen v newdict' meta_dict' seen' :
  expand_meta_type w meta_key setting (newdict, meta_dict, seen) v
    = OK (newdict', meta_dict', seen') ->
  forall k, k <> setting -> dict_get k meta_dict' = dict_get k meta_dict.
Proof.
  unfold expand_meta_type. intros H k Hk.
  destruct v; try discriminate.
  destruct (startswith s "dynamic"); [discriminate|].
  destruct (startswith s "lazy").
  - destruct (directive w _) as [d|]; [|discriminate].
    destruct seen; [discriminate|].
    apply expand_lazy_meta_ok in H. destruct H as [nd H]. now inversion H.
  - destruct seen; [discriminate|].
    destruct (directive w s) as [d|]; [|discriminate].
    unfold expand_eager_meta in H.
    bind_as H val Hval. bind_as H nd Hact. bind_as H v1 Hv1. inversion H; subst.
    apply dict_get_set_other. congruence.
Qed.

Lemma reduce_meta_types_local meta_key setting l :
  forall newdict meta_dict seen newdict' meta_dict' seen',
    reduce (expand_meta_type w meta_key setting) l (newdict, meta_dict, seen)
      = OK (newdict', meta_dict', seen') ->
    forall k, k <> setting -> dict_get k meta_dict' = dict_get k meta_dict.
Proof.
  induction l as [|v l IH]; intros newdict meta_dict seen newdict' meta_dict' seen' H k Hk;
    cbn [reduce] in H.
  - now inversion H.
  - bind_as H st Hst. destruct st as [[nd md] sn].
    rewrite (IH _ _ _ _ _ _ H k Hk). eapply expand_meta_type_local; eassumption.
Qed.

Lemma expand_meta_key_kept newdict meta_dict meta_key newdict' meta_dict' :
  expand_meta_key w (newdict, meta_dict) meta_key = OK (newdict', meta_dict') ->
  (forall k, dict_mem k newdict = true -> dict_mem k newdict' = true) /\
  (forall k, k <> meta_key -> k <> drop_end (String.length "_meta") meta_key ->
             dict_get k meta_dict' = dict_get k meta_dict) /\
  (NoDup (dict_keys meta_dict) -> NoDup (dict_keys meta_dict')).
Proof.
  intros H. apply expand_meta_key_ok in H.
  destruct H as [mt [l [md1 [seen [_ [_ [Hrun [_ [_ ->]]]]]]]]].
  unfold run_directives in Hrun. split; [|split].
  - intros k. eapply reduce_meta_types_mem; eassumption.
  - intros k K1 K2. rewrite !dict_get_remove_other by congruence.
    eapply reduce_meta_types_local; eassumption.
  - intros Hnd. do 2 apply nodup_dict_remove.
    clear - Hrun Hnd. revert newdict meta_dict Hrun Hnd.
    generalize false. induction l as [|v l IH]; intros sn newdict meta_dict Hrun Hnd;
      cbn [reduce] in Hrun.
    + now inversion Hrun; subst.
    + bind_as Hrun st Hst. destruct st as [[nd md] sn'].
      apply (IH _ _ _ Hrun). unfold expand_meta_type in Hst.
      destruct v; try discriminate.
      destruct (startswith s "dynamic"); [discriminate|].
      destruct (startswith s "lazy").
      * destruct (directive w _) as [d|]; [|discriminate].
        destruct sn; [discriminate|].
        apply expand_lazy_meta_ok in Hst. destruct Hst as [nd' Hst]. now inversion Hst; subst.
      * destruct sn; [discriminate|].
        destruct (directive w s) as [d|]; [|discriminate].
        unfold expand_eager_meta in Hst.
        bind_as Hst val Hval. bind_as Hst nd' Hact. bind_as Hst v1 Hv1. inversion Hst; subst.
        now apply nodup_dict_set.
Qed.

Lemma reduce_meta_keys_kept ks :
  forall newdict meta_dict newdict' meta_dict',
    reduce (expand_meta_key w) ks (newdict, meta_dict) = OK (newdict', meta_dict') ->
    (forall k, dict_mem k newdict = true -> dict_mem k newdict' = true) /\
    (forall k, ~ In k ks -> ~ In (k +++ "_meta") ks ->
               (forall m, In m ks -> is_meta_key m = true) ->
               dict_get k meta_dict' = dict_get k meta_dict) /\
    (NoDup (dict_keys meta_dict) -> NoDup (dict_keys meta_dict')).
Proof.
  induction ks as [|m ks IH]; intros newdict meta_dict newdict' meta_dict' H; cbn [reduce] in H.
  - inversion H; subst. auto.
  - bind_as H st Hst. destruct st as [nd md].
    destruct (expand_meta_key_kept _ _ _ _ _ Hst) as [Hmem [Hloc Hnd]].
    destruct (IH _ _ _ _ H) as [Hmem' [Hloc' Hnd']].
    split; [|split]; [auto | | auto].
    intros k K1 K2 Hks.
    assert (E1 : dict_get k md = dict_get k meta_dict).
    { apply Hloc.
      - intros E. apply K1. now left.
      - intros E. apply K2. left. rewrite E. apply meta_key_decompose.
        apply Hks. now left. }
    rewrite <- E1. apply Hloc'.
    + intros E. apply K1. now right.
    + intros E. apply K2. now right.
    + intros x Hx. apply Hks. now right.
Qed.

(** X12.  A provider deletes nothing: every key of the base is a key of the
    result; and a setting of the provider that has no [_meta] key beside it
    is in the result with the value the provider gives it. *)
Theorem provider_settings_kept :
  forall (config_dict meta_dict result : dict),
    update_and_expand_meta w config_dict meta_dict = OK result ->
    (forall k, dict_mem k config_dict = true -> dict_mem k result = true) /\
    (NoDup (dict_keys meta_dict) ->
     forall k v, dict_get k meta_dict = Some v ->
       is_meta_key k = false -> dict_mem (k +++ "_meta") meta_dict = false ->
       dict_get k result = Some v).
Proof.
  intros config_dict meta_dict result H. unfold update_and_expand_meta, deepdict in H.
  bind_as H st Hst. destruct st as [nd md]. inversion H; subst result. clear H.
  destruct (reduce_meta_keys_kept _ _ _ _ _ Hst) as [Hmem [Hloc Hnd]]. split.
  - intros k Hk. apply dict_mem_update. now apply Hmem.
  - intros Hnodup k v Hget Hk Hmeta.
    rewrite dict_get_update by (now apply Hnd).
    rewrite Hloc, Hget; [reflexivity | | |].
    + intros Hin. apply filter_In in Hin. destruct Hin as [_ Hin]. congruence.
    + intros Hin. apply filter_In in Hin. destruct Hin as [Hin _].
      apply dict_mem_true_iff in Hin. congruence.
    + intros m Hm. apply filter_In in Hm. tauto.
Qed.

End Kept.

(** ** Only lazy metas are left in a folded configuration *)

Lemma list_ascii_append a b :
  list_ascii_of_string (a +++ b) = list_ascii_of_string a ++ list_ascii_of_string b.
Proof. induction a as [|c a IH]; cbn [String.append list_ascii_of_string app]; now rewrite ?IH. Qed.

Lemma last_app_nonempty {A : Type} (l l' : list A) d :
  l' <> [] -> last (l ++ l') d = last l' d.
Proof.
  intros H. induction l as [|a l IH]; [reflexivity|]. cbn [app].
  destruct (l ++ l') as [|x y] eqn:E.
  - apply app_eq_nil in E. destruct E. contradiction.
  - rewrite <- IH. reflexivity.
Qed.

Lemma last_forall {A : Type} (P : A -> Prop) (l : list A) d :
  Forall P l -> P d -> P (last l d).
Proof.
  intros H Hd. induction H as [|a l Ha Hl IH]; [assumption|].
  destruct l; [assumption | exact IH].
Qed.

Lemma uint_chars u :
  Forall (fun c => c <> "a"%char) (list_ascii_of_string (NilEmpty.string_of_uint u)).
Proof.
  induction u; cbn [NilEmpty.string_of_uint list_ascii_of_string]; constructor;
    (discriminate || assumption).
Qed.

Lemma format_int_chars i :
  Forall (fun c => c <> "a"%char) (list_ascii_of_string (format_int i)) /\
  format_int i <> EmptyString.
Proof.
  unfold format_int, NilZero.string_of_int, NilZero.string_of_uint.
  assert (Hu : forall u,
             Forall (fun c => c <> "a"%char)
                    (list_ascii_of_string
                       match u with Decimal.Nil => "0" | _ => NilEmpty.string_of_uint u end) /\
             match u with Decimal.Nil => "0" | _ => NilEmpty.string_of_uint u end <> EmptyString).
  { intros u. split.
    - destruct u; try apply uint_chars. repeat constructor. discriminate.
    - destruct u; discriminate. }
  destruct (Z.to_int i) as [u|u]; destruct (Hu u) as [H1 H2].
  - split; assumption.
  - split; [|discriminate]. cbn [list_ascii_of_string]. constructor; [discriminate | assumption].
Qed.

(** The key that the renaming makes is not a [_meta] key. *)
Lemma new_base_not_meta s i : is_meta_key (s +++ "_" +++ format_int i) = false.
Proof.
  destruct (is_meta_key _) eqn:E; [|reflexivity]. exfalso.
  apply endswith_inv in E. destruct E as [a E].
  apply (f_equal (fun x => last (list_ascii_of_string x) "0"%char)) in E.
  destruct (format_int_chars i) as [Hchars Hne].
  rewrite <- append_assoc, !list_ascii_append in E.
  rewrite !last_app_nonempty in E.
  - apply (last_forall _ _ "0"%char Hchars); [discriminate|]. exact E.
  - discriminate.
  - destruct (format_int i); [contradiction | discriminate].
Qed.

Lemma startswith_inv p : forall s, startswith s p = true -> s = p +++ drop_str (String.length p) s.
Proof.
  unfold startswith. induction p as [|a p IH]; intros s H; [reflexivity|].
  destruct s as [|b s]; [discriminate|].
  change (String.prefix (String a p) (String b s))
    with (if ascii_dec a b then String.prefix p s else false) in H.
  destruct (ascii_dec a b) as [<-|]; [|discriminate].
  cbn [String.length drop_str String.append]. now rewrite <- (IH s H).
Qed.

Section LazyLeft.

Variable w : World.

Lemma rename_registered d key value from to new_value new_meta :
  registered w d ->
  rename_target d key value from to = OK (Some (new_value, new_meta)) ->
  exists d', directive w new_meta = Some d'.
Proof.
  intros Hd H. unfold registered in Hd. simpl in Hd.
  repeat (destruct Hd as [Hd | Hd]; [subst; cbn [rename_target] in H |]); try contradiction.
  - unfold append_rename in H. inversion H; subst. eexists. reflexivity.
  - unfold crossappend_rename in H. bind_inv H. destruct a as [t a].
    destruct (t =? from)%string; inversion H; subst; eexists; reflexivity.
  - unfold crossappendref_rename in H. bind_inv H. destruct a as [t a].
    inversion H; subst. eexists. reflexivity.
  - unfold subst_rename in H. destruct value; try discriminate.
    destruct (existsb _ _); inversion H; subst. eexists. reflexivity.
  - unfold crossref_rename in H. destruct value; try discriminate.
    + inversion H; subst. eexists. reflexivity.
    + bind_inv H. inversion H; subst. eexists. reflexivity.
  - unfold transclude_rename in H. inversion H; subst. eexists. reflexivity.
  - unfold json2list_rename in H. inversion H; subst. eexists. reflexivity.
  - unfold prependlocal_rename in H. inversion H; subst. eexists. reflexivity.
Qed.

Lemma lazy_metas_step d d' :
  lazy_metas_only w d ->
  (forall k, dict_mem k d = true -> dict_mem k d' = true) ->
  (forall k v, is_meta_key k = true -> dict_get k d' = Some v ->
     dict_get k d = Some v \/
     (lazy_directive_name w v /\
      dict_mem (drop_end (String.length "_meta") k) d' = true /\
      is_meta_key (drop_end (String.length "_meta") k) = false)) ->
  lazy_metas_only w d'.
Proof.
  intros Hinv Hmem Hstep k v Hk Hget.
  destruct (Hstep k v Hk Hget) as [Hold|Hnew]; [|assumption].
  destruct (Hinv k v Hk Hold) as [H1 [H2 H3]]. auto.
Qed.

Lemma meta_key_neq k s : is_meta_key k = true -> is_meta_key s = false -> k <> s.
Proof. intros H1 H2 E. congruence. Qed.

Lemma meta_append_not_index s : s +++ "_meta" <> _NEXT_FREE_INDEX_KEY.
Proof. apply meta_key_neq; [apply is_meta_key_append | reflexivity]. Qed.

Lemma expand_meta_type_lazy_only meta_key setting newdict meta_dict seen v newdict' meta_dict' seen' :
  is_meta_key setting = false ->
  expand_meta_type w meta_key setting (newdict, meta_dict, seen) v
    = OK (newdict', meta_dict', seen') ->
  lazy_metas_only w newdict -> lazy_metas_only w newdict'.
Proof.
  intros Hs H Hinv.
  apply (lazy_metas_step _ _ Hinv (expand_meta_type_mem w _ _ _ _ _ _ _ _ _ H)).
  intros k val Hk Hget.
  assert (Hks : k <> setting) by (now apply meta_key_neq).
  assert (Hkn : k <> _NEXT_FREE_INDEX_KEY) by (intros ->; discriminate Hk).
  unfold expand_meta_type in H.
  destruct v as [| | | |mt| |]; try discriminate.
  destruct (startswith mt "dynamic"); [discriminate|].
  destruct (startswith mt "lazy") eqn:Hlazy.
  - destruct (directive w _) as [d|] eqn:Hd; [|discriminate].
    destruct seen; [discriminate|].
    unfold expand_lazy_meta in H. bind_as H vl Hvl. bind_as H targets Ht.
    destruct (0 <? _)%nat.
    + bind_as H ix Hix. destruct ix as [i newdict1].
      bind_as H nvm Hnvm. destruct nvm as [[new_value new_meta]|]; [|discriminate].
      bind_as H old Hold. inversion H; subst newdict' meta_dict' seen'. clear H.
      pose proof (get_next_free_index_frame w _ _ _ Hix) as Hframe.
      destruct (renamed_lookup newdict1 (setting +++ "_" +++ format_int i) setting
                  (setting +++ "_meta") ((setting +++ "_" +++ format_int i) +++ "_meta")
                  old new_value (VStr ("lazy" +++ new_meta))
                  (dict_get (setting +++ "_meta") newdict1))
        as [R1 [R2 [R3 [R4 R5]]]];
        [ apply new_base_neq_setting | apply new_base_neq_meta
        | intros E; symmetry in E; now apply meta_neq_self in E
        | apply meta_neq_self | apply new_base_meta_neq_setting
        | apply new_base_meta_neq_meta | ].
      cbv zeta in R1, R2, R3, R4, R5.
      set (nd := dict_update newdict1 _) in *.
      destruct (String.eqb_spec k (setting +++ "_meta")) as [->|K1].
      * right. rewrite R3 in Hget. inversion Hget; subst val.
        rewrite drop_end_append. split; [|split; [|assumption]].
        -- destruct (rename_registered _ _ _ _ _ _ _ (directive_registered w _ _ Hd) Hnvm) as [d' Hd'].
           exists new_meta, d'. auto.
        -- unfold dict_mem. now rewrite R2.
      * destruct (String.eqb_spec k ((setting +++ "_" +++ format_int i) +++ "_meta")) as [->|K2].
        -- rewrite R4 in Hget. rewrite drop_end_append.
           destruct (dict_get (setting +++ "_meta") newdict1) as [old_meta|] eqn:Hom.
           ++ right. inversion Hget; subst val.
              rewrite Hframe in Hom by apply meta_append_not_index.
              destruct (Hinv _ _ (is_meta_key_append setting) Hom) as [Hname _].
              split; [assumption|]. split; [|apply new_base_not_meta].
              unfold dict_mem. now rewrite R1.
           ++ left. now rewrite <- Hframe.
        -- left. rewrite <- Hframe by assumption. rewrite <- R5; [assumption | | | |]; try assumption.
           apply meta_key_neq; [assumption | apply new_base_not_meta].
    + inversion H; subst newdict' meta_dict' seen'. clear H.
      assert (HU : dict_update newdict
                     (dict_update [] (dict_literal [(setting, vl);
                                                    (setting +++ "_meta", VStr mt)])) =
                   dict_set (dict_set newdict setting vl) (setting +++ "_meta") (VStr mt)).
      { assert (E1 : dict_literal [(setting, vl); (setting +++ "_meta", VStr mt)]
                     = [(setting, vl); (setting +++ "_meta", VStr mt)]).
        { unfold dict_literal, dict_update. cbn [fold_left fst snd dict_set].
          destruct (String.eqb_spec setting (setting +++ "_meta")) as [E|_]; [|reflexivity].
          symmetry in E. now apply meta_neq_self in E. }
        rewrite E1.
        change (dict_update [] [(setting, vl); (setting +++ "_meta", VStr mt)])
          with (dict_literal [(setting, vl); (setting +++ "_meta", VStr mt)]).
        rewrite E1. reflexivity. }
      rewrite HU in *. clear HU.
      destruct (String.eqb_spec k (setting +++ "_meta")) as [->|K1].
      * right. rewrite dict_get_set_same in Hget. inversion Hget; subst val.
        rewrite drop_end_append. split; [|split; [|assumption]].
        -- exists (drop_str (String.length "lazy") mt), d. split; [|assumption].
           f_equal. now apply startswith_inv.
        -- unfold dict_mem.
           rewrite dict_get_set_other by (intros E; now apply meta_neq_self in E).
           now rewrite dict_get_set_same.
      * left. rewrite !dict_get_set_other in Hget by congruence. assumption.
  - destruct seen; [discriminate|].
    destruct (directive w mt) as [d|] eqn:Hd; [|discriminate].
    unfold expand_eager_meta in H.
    bind_as H vl Hvl. bind_as H nd Hact. bind_as H v1 Hv1.
    inversion H; subst newdict' meta_dict' seen'. clear H.
    left. apply directive_registered in Hd.
    destruct (action_frame w _ _ _ _ _ _ Hd Hact) as [_ Hframe].
    now rewrite <- Hframe.
Qed.

Lemma reduce_meta_types_lazy_only meta_key setting l :
  is_meta_key setting = false ->
  forall newdict meta_dict seen newdict' meta_dict' seen',
    reduce (expand_meta_type w meta_key setting) l (newdict, meta_dict, seen)
      = OK (newdict', meta_dict', seen') ->
    lazy_metas_only w newdict -> lazy_metas_only w newdict'.
Proof.
  intros Hs. induction l as [|v l IH];
    intros newdict meta_dict seen newdict' meta_dict' seen' H Hinv; cbn [reduce] in H.
  - now inversion H; subst.
  - bind_as H st Hst. destruct st as [[nd md] sn].
    eapply IH; [eassumption|]. eapply expand_meta_type_lazy_only; eassumption.
Qed.

Lemma reduce_meta_keys_lazy_only ks :
  (forall m, In m ks -> is_meta_key (drop_end (String.length "_meta") m) = false) ->
  forall newdict meta_dict newdict' meta_dict',
    reduce (expand_meta_key w) ks (newdict, meta_dict) = OK (newdict', meta_dict') ->
    lazy_metas_only w newdict -> lazy_metas_only w newdict'.
Proof.
  induction ks as [|m ks IH]; intros Hks newdict meta_dict newdict' meta_dict' H Hinv;
    cbn [reduce] in H.
  - now inversion H; subst.
  - bind_as H st Hst. destruct st as [nd md].
    apply (IH (fun x Hx => Hks x (or_intror Hx)) _ _ _ _ H).
    apply expand_meta_key_ok in Hst.
    destruct Hst as [mt [l [md1 [seen [_ [_ [Hrun _]]]]]]].
    eapply reduce_meta_types_lazy_only; [|exact Hrun|exact Hinv].
    apply Hks. now left.
Qed.

Lemma update_and_expand_meta_lazy_only config_dict meta_dict result :
  update_and_expand_meta w config_dict meta_dict = OK result ->
  lazy_metas_only w config_dict -> lazy_metas_only w result.
Proof.
  intros H Hinv. unfold update_and_expand_meta, deepdict in H.
  bind_as H st Hst. destruct st as [nd md]. inversion H; subst result. clear H.
  set (ks := filter is_meta_key (dict_keys meta_dict)) in *.
  destruct (loop_keys _ (fun st : dict * dict => dict_keys (snd st))
              (expand_meta_key w) (drop_end (String.length "_meta"))
              (fun s k s' => match s, s' with
                             | (a, b), (a', b') => expand_meta_key_keys w a b k a' b'
                             end) ks _ _ Hst) as [Hin [Hout Hsep]].
  cbn [snd] in Hin, Hout.
  assert (Hset : forall m, In m ks -> is_meta_key (drop_end (String.length "_meta") m) = false).
  { intros m Hm. destruct (is_meta_key (drop_end _ m)) eqn:E; [|reflexivity].
    exfalso. apply (Hsep m (drop_end (String.length "_meta") m) Hm); [|reflexivity].
    apply filter_In. split; [apply (Hin m Hm) | assumption]. }
  pose proof (reduce_meta_keys_lazy_only ks Hset _ _ _ _ Hst Hinv) as Hnd.
  apply (lazy_metas_step _ _ Hnd).
  - intros k. apply dict_mem_update.
  - intros k v Hk Hget. left.
    rewrite dict_get_update_none in Hget; [assumption|].
    apply dict_get_none_iff. intros Hmd. destruct (Hout k Hmd) as [H1 H2].
    apply H2. apply filter_In. auto.
Qed.

Lemma reduce_configs_lazy_only configs :
  forall acc expanded_config,
    lazy_metas_only w acc ->
    reduce (update_and_expand_meta w) configs acc = OK expanded_config ->
    lazy_metas_only w expanded_config.
Proof.
  induction configs as [|c configs IH]; intros acc r Hacc H; cbn [reduce] in H.
  - now inversion H; subst.
  - bind_as H acc1 Hacc1. apply (IH _ _ (update_and_expand_meta_lazy_only _ _ _ Hacc1 Hacc) H).
Qed.

(** X13.  After the configs have been folded, the [_meta] keys that are left
    are those of lazy directives: each holds [lazy] followed by a name of
    the registry, and has beside it its setting, whose key is not a
    [_meta] key. *)
Theorem folded_metas_are_lazy :
  forall (configs : list dict) (expanded_config : dict),
    reduce (update_and_expand_meta w) configs [] = OK expanded_config ->
    lazy_metas_only w expanded_config.
Proof.
  intros configs expanded_config. apply reduce_configs_lazy_only.
  intros k v _ H. discriminate H.
Qed.

End LazyLeft.

(** ** The ways in which combine_configs fails *)

Lemma startswith_append p s : startswith (p +++ s) p = true.
Proof.
  unfold startswith. induction p as [|a p IH]; [now destruct s|].
  cbn [String.append].
  change (String.prefix (String a p) (String a (p +++ s)))
    with (if ascii_dec a a then String.prefix p (p +++ s) else false).
  destruct (ascii_dec a a) as [_|E]; [exact IH | now contradiction E].
Qed.

Section CombineErrors.

Variable w : World.
Variable topological_sort : graph_t -> list string -> result (list string).

Lemma expand_meta_type_nodup meta_key setting newdict meta_dict seen v newdict' meta_dict' seen' :
  expand_meta_type w meta_key setting (newdict, meta_dict, seen) v
    = OK (newdict', meta_dict', seen') ->
  NoDup (dict_keys newdict) -> NoDup (dict_keys newdict').
Proof.
  unfold expand_meta_type. intros H Hnd.
  destruct v as [| | | |mt| |]; try discriminate.
  destruct (startswith mt "dynamic"); [discriminate|].
  destruct (startswith mt "lazy").
  - destruct (directive w _) as [d|]; [|discriminate].
    destruct seen; [discriminate|].
    unfold expand_lazy_meta in H. bind_as H vl Hvl. bind_as H targets Ht.
    destruct (0 <? _)%nat.
    + bind_as H ix Hix. destruct ix as [i newdict1].
      bind_as H nvm Hnvm. destruct nvm as [[new_value new_meta]|]; [|discriminate].
      bind_as H old Hold. inversion H; subst. apply nodup_dict_update.
      unfold _get_next_free_index in Hix. bind_as Hix x Hx. bind_as Hix n Hn.
      inversion Hix; subst. apply nodup_dict_set.
      destruct (dict_mem _NEXT_FREE_INDEX_KEY newdict); [assumption | now apply nodup_dict_set].
    + inversion H; subst. now apply nodup_dict_update.
  - destruct seen; [discriminate|].
    destruct (directive w mt) as [d|] eqn:Hd; [|discriminate].
    unfold expand_eager_meta in H.
    bind_as H vl Hvl. bind_as H nd Hact. bind_as H v1 Hv1. inversion H; subst.
    apply directive_registered in Hd.
    destruct (action_shape w _ _ _ _ _ _ Hd Hact) as [x [c1 [-> Hc1]]].
    apply nodup_dict_set. destruct Hc1 as [->|[y ->]]; [assumption | now apply nodup_dict_set].
Qed.

Lemma update_and_expand_meta_nodup config_dict meta_dict result :
  update_and_expand_meta w config_dict meta_dict = OK result ->
  NoDup (dict_keys config_dict) -> NoDup (dict_keys result).
Proof.
  intros H Hnd. unfold update_and_expand_meta, deepdict in H.
  bind_as H st Hst. destruct st as [nd md]. inversion H; subst result. clear H.
  apply nodup_dict_update.
  remember (filter is_meta_key (dict_keys meta_dict)) as ks eqn:E. clear E.
  revert config_dict meta_dict Hst Hnd.
  induction ks as [|m ks IH]; intros c p Hst Hnd; cbn [reduce] in Hst.
  - now inversion Hst; subst.
  - bind_as Hst st Hstep. destruct st as [nd1 md1]. apply (IH _ _ Hst).
    apply expand_meta_key_ok in Hstep.
    destruct Hstep as [mt [l [md2 [seen [_ [_ [Hrun _]]]]]]].
    unfold run_directives in Hrun. clear - Hrun Hnd.
    revert c p Hrun Hnd. generalize false.
    induction l as [|v l IHl]; intros sn c p Hrun Hnd; cbn [reduce] in Hrun.
    + now inversion Hrun; subst.
    + bind_as Hrun st Hst. destruct st as [[nd md] sn'].
      apply (IHl _ _ _ Hrun). eapply expand_meta_type_nodup; eassumption.
Qed.

Lemma reduce_configs_nodup configs :
  forall acc expanded_config,
    NoDup (dict_keys acc) ->
    reduce (update_and_expand_meta w) configs acc = OK expanded_config ->
    NoDup (dict_keys expanded_config).
Proof.
  induction configs as [|c configs IH]; intros acc r Hacc H; cbn [reduce] in H.
  - now inversion H; subst.
  - bind_as H acc1 Hacc1. apply (IH _ _ (update_and_expand_meta_nodup _ _ _ Hacc1 Hacc) H).
Qed.

(** Adding an edge to a graph that holds the setting succeeds and removes
    no node. *)
Lemma add_edge_ok (graph : graph_t) setting target_var :
  dict_mem setting graph = true ->
  exists graph', add_edge graph setting target_var = OK graph' /\
                 dict_mem setting graph' = true.
Proof.
  intros Hs. unfold add_edge.
  set (g1 := if dict_mem target_var graph then graph else dict_set graph target_var ([], [])).
  assert (Ht : exists t, dict_get target_var g1 = Some t).
  { unfold g1. destruct (dict_mem target_var graph) eqn:Hm.
    - unfold dict_mem in Hm. destruct (dict_get target_var graph) as [t|]; [eauto | discriminate].
    - eexists. apply dict_get_set_same. }
  destruct Ht as [t Ht]. unfold getitem at 1. rewrite Ht. cbn [bind].
  assert (Hs1 : dict_mem setting g1 = true).
  { unfold g1. destruct (dict_mem target_var graph); [assumption|].
    apply dict_mem_true_iff. apply in_dict_keys_set. right. now apply dict_mem_true_iff. }
  assert (Hs2 : exists s, dict_get setting (dict_set g1 target_var (fst t ++ [setting], snd t)) = Some s).
  { assert (H : dict_mem setting (dict_set g1 target_var (fst t ++ [setting], snd t)) = true).
    { apply dict_mem_true_iff. apply in_dict_keys_set. right. now apply dict_mem_true_iff. }
    unfold dict_mem in H. destruct (dict_get setting _) as [s|]; [eauto | discriminate]. }
  destruct Hs2 as [s Hs2]. unfold getitem. rewrite Hs2. cbn [bind].
  eexists. split; [reflexivity|]. unfold dict_mem. now rewrite dict_get_set_same.
Qed.

Lemma reduce_add_edge_ok (orig : dict) setting targets :
  forall graph : graph_t,
    dict_mem setting graph = true ->
    exists graph',
      reduce (fun graph target_var =>
                if dict_mem (target_var +++ "_meta") orig
                then add_edge graph setting target_var
                else OK graph) targets graph = OK graph'.
Proof.
  induction targets as [|t targets IH]; intros graph Hs; cbn [reduce]; [eauto|].
  destruct (dict_mem (t +++ "_meta") orig).
  - destruct (add_edge_ok graph setting t Hs) as [g' [-> Hg']]. cbn [bind]. now apply IH.
  - cbn [bind]. now apply IH.
Qed.

(** One round of the loop over the lazy metas, on a meta key that holds a
    lazy name and has its setting: it fails exactly when the directive
    rejects the value of the setting. *)
Lemma collect_lazy_meta_step orig ec lm g m name d v :
  dict_get m ec = Some (VStr ("lazy" +++ name)) ->
  directive w name = Some d ->
  dict_get (drop_end (String.length "_meta") m) ec = Some v ->
  drop_end (String.length "_meta") m <> m ->
  match target_settings d (drop_end (String.length "_meta") m) v with
  | Raise e => collect_lazy_meta w orig (ec, lm, g) m = Raise e
  | OK _ =>
      exists lm' g',
        collect_lazy_meta w orig (ec, lm, g) m =
        OK (dict_remove (dict_remove ec m) (drop_end (String.length "_meta") m), lm', g')
  end.
Proof.
  intros Hm Hd Hv Hne. unfold collect_lazy_meta.
  set (setting := drop_end (String.length "_meta") m) in *.
  unfold getitem. rewrite Hm. cbn [bind].
  unfold assert. rewrite startswith_append. cbn [bind].
  change (drop_str (String.length "lazy") ("lazy" +++ name)) with name.
  rewrite Hv, Hd. cbn [bind].
  destruct (target_settings d setting v) as [targets|e]; [|reflexivity]. cbn [bind].
  set (g1 := if dict_mem setting g then g else dict_set g setting ([], [])).
  assert (Hg1 : dict_mem setting g1 = true).
  { unfold g1. destruct (dict_mem setting g) eqn:E; [assumption|].
    unfold dict_mem. now rewrite dict_get_set_same. }
  destruct (reduce_add_edge_ok orig setting targets g1 Hg1) as [g' ->]. cbn [bind].
  unfold delitem.
  assert (H1 : dict_mem m ec = true) by (unfold dict_mem; now rewrite Hm).
  rewrite H1. cbn [bind].
  assert (H2 : dict_mem setting (dict_remove ec m) = true).
  { unfold dict_mem. rewrite dict_get_remove_other by congruence. now rewrite Hv. }
  rewrite H2. cbn [bind]. eauto.
Qed.

Lemma collect_loop_raises ec0 :
  lazy_metas_only w ec0 ->
  forall ks,
    NoDup ks -> (forall m, In m ks -> is_meta_key m = true /\ dict_mem m ec0 = true) ->
    forall ec lm g e,
      (forall m, In m ks ->
         dict_get m ec = dict_get m ec0 /\
         dict_get (drop_end (String.length "_meta") m) ec =
         dict_get (drop_end (String.length "_meta") m) ec0) ->
      reduce (collect_lazy_meta w ec0) ks (ec, lm, g) = Raise e ->
      exists k name d v,
        dict_get (k +++ "_meta") ec0 = Some (VStr ("lazy" +++ name)) /\
        directive w name = Some d /\ dict_get k ec0 = Some v /\
        target_settings d k v = Raise e.
Proof.
  intros Hinv. induction ks as [|m ks IH]; intros Hnd Hks ec lm g e Hec H; cbn [reduce] in H;
    [discriminate|].
  inversion Hnd as [|? ? Hm Hnd']; subst.
  destruct (Hks m (or_introl eq_refl)) as [Hmeta Hmem].
  unfold dict_mem in Hmem. destruct (dict_get m ec0) as [mv|] eqn:Hmv; [|discriminate].
  destruct (Hinv m mv Hmeta Hmv) as [[name [d [-> Hd]]] [Hset Hsmeta]].
  set (setting := drop_end (String.length "_meta") m) in *.
  unfold dict_mem in Hset. destruct (dict_get setting ec0) as [v|] eqn:Hv; [|discriminate].
  destruct (Hec m (or_introl eq_refl)) as [E1 E2]. fold setting in E2.
  rewrite Hmv in E1. rewrite Hv in E2.
  assert (Hne : setting <> m) by (intros E; congruence).
  pose proof (collect_lazy_meta_step ec0 ec lm g m name d v E1 Hd E2 Hne) as Hstep.
  fold setting in Hstep.
  destruct (target_settings d setting v) as [targets|e'] eqn:Ht.
  - destruct Hstep as [lm' [g' Hstep]]. rewrite Hstep in H. cbn [bind] in H.
    apply (IH Hnd' (fun x Hx => Hks x (or_intror Hx)) _ _ _ _) in H; [assumption|].
    intros m' Hm'. destruct (Hks m' (or_intror Hm')) as [Hmeta' Hmem'].
    destruct (Hec m' (or_intror Hm')) as [F1 F2].
    unfold dict_mem in Hmem'. destruct (dict_get m' ec0) as [mv'|] eqn:Hmv'; [|discriminate].
    destruct (Hinv m' mv' Hmeta' Hmv') as [_ [_ Hsmeta']].
    assert (N1 : m <> m') by (intros E; apply Hm; now rewrite E).
    assert (N2 : setting <> m') by (intros E; congruence).
    assert (N3 : m <> drop_end (String.length "_meta") m') by (intros E; congruence).
    assert (N4 : setting <> drop_end (String.length "_meta") m').
    { intros E. apply N1. rewrite (meta_key_decompose m Hmeta), (meta_key_decompose m' Hmeta').
      fold setting. now rewrite E. }
    rewrite !dict_get_remove_other by assumption. split; assumption.
  - rewrite Hstep in H. cbn [bind] in H. inversion H; subst e'.
    assert (Em : setting +++ "_meta" = m) by (symmetry; now apply meta_key_decompose).
    exists setting, name, d, v. rewrite Em. auto.
Qed.

(** X14.  [combine_configs] fails in five ways only: the fold of the
    configs fails; in the loop over the lazy metas that the fold left, the
    directive of one of them rejects the value of its setting when asked
    for its dependencies; the graph that the loop built has no node
    without a dependency; the topological sort of that graph fails; or the
    evaluation of the lazy metas that the loop stored, in the order of the
    sort, fails.  The loop fails in no other way: it returns whenever the
    directive of every lazy meta returns its dependencies, so that its
    assertion, its lookups, its updates of the graph and its deletions
    never fail. *)
Theorem combine_configs_failures :
  forall (configs : list dict),
    (forall e : exn,
       combine_configs w topological_sort configs = Raise e ->
       reduce (update_and_expand_meta w) configs [] = Raise e \/
       (exists expanded_config,
          reduce (update_and_expand_meta w) configs [] = OK expanded_config /\
          let meta_keys := filter is_meta_key (dict_keys expanded_config) in
          ((reduce (collect_lazy_meta w expanded_config) meta_keys (expanded_config, [], [])
              = Raise e /\
            exists setting name d v,
              dict_get (setting +++ "_meta") expanded_config = Some (VStr ("lazy" +++ name)) /\
              directive w name = Some d /\ dict_get setting expanded_config = Some v /\
              target_settings d setting v = Raise e) \/
           (exists expanded_config' lazy_metas graph,
              reduce (collect_lazy_meta w expanded_config) meta_keys (expanded_config, [], [])
                = OK (expanded_config', lazy_metas, graph) /\
              (0 <? List.length graph)%nat = true /\
              ((starting_nodes graph = [] /\ e = ValueError LazyLoop) \/
               (starting_nodes graph <> [] /\
                topological_sort graph (starting_nodes graph) = Raise e) \/
               (exists settings_ordered,
                  starting_nodes graph <> [] /\
                  topological_sort graph (starting_nodes graph) = OK settings_ordered /\
                  reduce (combine_meta w lazy_metas) settings_ordered expanded_config'
                    = Raise e)))))) /\
    (forall expanded_config,
       reduce (update_and_expand_meta w) configs [] = OK expanded_config ->
       (forall setting name d v,
          dict_get (setting +++ "_meta") expanded_config = Some (VStr ("lazy" +++ name)) ->
          directive w name = Some d -> dict_get setting expanded_config = Some v ->
          exists targets, target_settings d setting v = OK targets) ->
       exists expanded_config' lazy_metas graph,
         reduce (collect_lazy_meta w expanded_config)
                (filter is_meta_key (dict_keys expanded_config)) (expanded_config, [], [])
         = OK (expanded_config', lazy_metas, graph)).
Proof.
  intros configs.
  assert (Hloop_raise : forall ec e,
            reduce (update_and_expand_meta w) configs [] = OK ec ->
            reduce (collect_lazy_meta w ec) (filter is_meta_key (dict_keys ec)) (ec, [], [])
              = Raise e ->
            exists setting name d v,
              dict_get (setting +++ "_meta") ec = Some (VStr ("lazy" +++ name)) /\
              directive w name = Some d /\ dict_get setting ec = Some v /\
              target_settings d setting v = Raise e).
  { intros ec e Hfold Hloop.
    assert (Hnil : lazy_metas_only w []) by (intros k v _ K; discriminate K).
    pose proof (reduce_configs_lazy_only w configs _ _ Hnil Hfold) as Hinv.
    pose proof (reduce_configs_nodup configs [] _ (NoDup_nil _) Hfold) as Hnd.
    apply (collect_loop_raises ec Hinv _ (NoDup_filter _ Hnd)) in Hloop; [assumption| |auto].
    intros m Hm. apply filter_In in Hm. destruct Hm as [Hin Hm].
    split; [assumption | now apply dict_mem_true_iff]. }
  split.
  - intros e H. unfold combine_configs in H.
    destruct (reduce (update_and_expand_meta w) configs []) as [ec|e0] eqn:Hfold;
      cbn [bind] in H; [|left; congruence].
    right. exists ec. split; [reflexivity|]. cbv zeta.
    unfold resolve_lazy, deepdict in H.
    destruct (reduce (collect_lazy_meta w ec) _ _) as [[[ec' lm] g]|e1] eqn:Hloop;
      cbn [bind] in H.
    + right. exists ec', lm, g. split; [reflexivity|].
      destruct (0 <? List.length g)%nat; [|discriminate]. split; [reflexivity|].
      destruct (starting_nodes g) as [|n ns] eqn:Hstart; cbn [List.length Nat.eqb] in H.
      * cbn [bind] in H. left. split; [reflexivity | congruence].
      * right. destruct (topological_sort g (n :: ns)) as [order|e2] eqn:Hsort;
          cbn [bind] in H.
        -- right. exists order. split; [discriminate|]. split; [reflexivity|].
           destruct (reduce (combine_meta w lm) order ec') eqn:Hrun; cbn [bind] in H;
             [discriminate | congruence].
        -- left. split; [discriminate | congruence].
    + left. inversion H; subst e1. split; [reflexivity|]. now apply Hloop_raise.
  - intros ec Hfold Htargets.
    destruct (reduce (collect_lazy_meta w ec) (filter is_meta_key (dict_keys ec)) (ec, [], []))
      as [[[ec' lm] g]|e] eqn:Hloop; [eauto|]. exfalso.
    destruct (Hloop_raise ec e Hfold Hloop) as [setting [name [d [v [H1 [H2 [H3 H4]]]]]]].
    destruct (Htargets setting name d v H1 H2 H3) as [targets Ht]. congruence.
Qed.

End CombineErrors.

Lemma provider_settings_kept_witness :
  (forall k, dict_mem k [("a", VStr "1")] = true ->
             dict_mem k [("a", VStr "1"); ("b", VStr "x1"); ("c", VInt 3)] = true) /\
  (NoDup (dict_keys [("b", VStr "x${a}"); ("b_meta", VStr "subst"); ("c", VInt 3)]) ->
   forall k v,
     dict_get k [("b", VStr "x${a}"); ("b_meta", VStr "subst"); ("c", VInt 3)] = Some v ->
     is_meta_key k = false ->
     dict_mem (k +++ "_meta") [("b", VStr "x${a}"); ("b_meta", VStr "subst"); ("c", VInt 3)] = false ->
     dict_get k [("a", VStr "1"); ("b", VStr "x1"); ("c", VInt 3)] = Some v).
Proof.
  exact (provider_settings_kept closed_world [("a", VStr "1")]
           [("b", VStr "x${a}"); ("b_meta", VStr "subst"); ("c", VInt 3)]
           [("a", VStr "1"); ("b", VStr "x1"); ("c", VInt 3)] eq_refl).
Defined.

Lemma folded_metas_are_lazy_witness :
  lazy_metas_only closed_world
    [("c", VStr "0"); ("_config_path", VStr "/tmp"); ("a", VStr "${c}");
     ("a_meta", VStr "lazysubst")].
Proof.
  exact (folded_metas_are_lazy closed_world lazy_configs _ eq_refl).
Defined.

Lemma combine_configs_failures_witness :
  (reduce (update_and_expand_meta closed_world) [mutual_lazy_config] [] =
     Raise (ValueError LazyLoop) \/
   (exists expanded_config,
      reduce (update_and_expand_meta closed_world) [mutual_lazy_config] [] = OK expanded_config /\
      let meta_keys := filter is_meta_key (dict_keys expanded_config) in
      ((reduce (collect_lazy_meta closed_world expanded_config) meta_keys
                (expanded_config, [], []) = Raise (ValueError LazyLoop) /\
        exists setting name d v,
          dict_get (setting +++ "_meta") expanded_config = Some (VStr ("lazy" +++ name)) /\
          directive closed_world name = Some d /\ dict_get setting expanded_config = Some v /\
          target_settings d setting v = Raise (ValueError LazyLoop)) \/
       (exists expanded_config' lazy_metas graph,
          reduce (collect_lazy_meta closed_world expanded_config) meta_keys
                 (expanded_config, [], []) = OK (expanded_config', lazy_metas, graph) /\
          (0 <? List.length graph)%nat = true /\
          ((starting_nodes graph = [] /\ ValueError LazyLoop = ValueError LazyLoop) \/
           (starting_nodes graph <> [] /\
            kahn_topological_sort graph (starting_nodes graph) = Raise (ValueError LazyLoop)) \/
           (exists settings_ordered,
              starting_nodes graph <> [] /\
              kahn_topological_sort graph (starting_nodes graph) = OK settings_ordered /\
              reduce (combine_meta closed_world lazy_metas) settings_ordered expanded_config'
                = Raise (ValueError LazyLoop))))))) /\
  (exists expanded_config' lazy_metas graph,
     reduce (collect_lazy_meta closed_world
               [("c", VStr "0"); ("_config_path", VStr "/tmp"); ("a", VStr "${c}");
                ("a_meta", VStr "lazysubst")])
            (filter is_meta_key
               (dict_keys [("c", VStr "0"); ("_config_path", VStr "/tmp"); ("a", VStr "${c}");
                           ("a_meta", VStr "lazysubst")]))
            ([("c", VStr "0"); ("_config_path", VStr "/tmp"); ("a", VStr "${c}");
              ("a_meta", VStr "lazysubst")], [], [])
     = OK (expanded_config', lazy_metas, graph)).
Proof.
  split.
  - exact (proj1 (combine_configs_failures closed_world kahn_topological_sort
                    [mutual_lazy_config]) (ValueError LazyLoop) eq_refl).
  - apply (proj2 (combine_configs_failures closed_world kahn_topological_sort lazy_configs)
             _ eq_refl).
    intros setting name d v H1 H2 H3.
    apply dict_get_in in H1.
    assert (E : setting = "a" /\ name = "subst").
    { destruct H1 as [H1|[H1|[H1|[H1|[]]]]]; inversion H1 as [[Hk Hv]];
        try (simpl in Hv; discriminate Hv).
      split.
      - apply (f_equal (drop_end (String.length "_meta"))) in Hk.
        rewrite drop_end_append in Hk. now rewrite <- Hk.
      - simpl in Hv. now inversion Hv. }
    destruct E as [-> ->].
    change (Some subst_directive = Some d) in H2. injection H2 as <-.
    change (Some (VStr "${c}") = Some v) in H3. injection H3 as <-.
    exists ["c"]. reflexivity.
Defined.

(** * The loaders *)

(** ** The order of the loaded configs *)

Lemma insert_by_key_front {A : Type} (key : A -> bool) (x : A) (l : list A) :
  key x = false -> insert_by_key key x l = x :: l.
Proof. intros H. destruct l as [|y l]; cbn [insert_by_key]; [reflexivity | now rewrite H]. Qed.

Lemma insert_by_key_back {A : Type} (key : A -> bool) (x : A) (l1 l2 : list A) :
  key x = true ->
  (forall y, In y l1 -> key y = false) -> (forall y, In y l2 -> key y = true) ->
  insert_by_key key x (l1 ++ l2) = l1 ++ x :: l2.
Proof.
  intros Hx H1 H2. induction l1 as [|y l1 IH]; cbn [app insert_by_key].
  - destruct l2 as [|z l2]; [reflexivity|]. cbn [insert_by_key].
    now rewrite Hx, (H2 z) by (now left).
  - rewrite Hx, (H1 y) by (now left). cbn [implb]. f_equal. apply IH.
    intros z Hz. apply H1. now right.
Qed.

Lemma sorted_by_key_partition {A : Type} (key : A -> bool) (l : list A) :
  sorted_by_key key l = filter (fun x => negb (key x)) l ++ filter key l.
Proof.
  unfold sorted_by_key. induction l as [|x l IH]; [reflexivity|].
  cbn [fold_right filter]. rewrite IH. destruct (key x) eqn:Hx; cbn [negb].
  - apply insert_by_key_back; [assumption | |].
    + intros y Hy. apply filter_In in Hy. destruct Hy as [_ Hy]. now destruct (key y).
    + intros y Hy. apply filter_In in Hy. tauto.
  - now apply insert_by_key_front.
Qed.

Section LoaderFacts.

Variable w : World.
Variable topological_sort : graph_t -> list string -> result (list string).
Variable load_yaml : string -> option Value.
Variable open_read : string -> file_outcome.
Variable is_blank : string -> bool.

(** X15.  The configs come in the order of the paths, except that those of the
    paths that end in [.json] come after all the others: in the list that
    is returned a [.json] config has precedence over every other config. *)
Theorem load_config_from_paths_json_last :
  forall (config_paths : list string) (strict : bool),
    load_config_from_paths w load_yaml open_read is_blank config_paths strict =
    map_load (fun path => load_config_from_file w load_yaml open_read is_blank path strict)
             (filter (fun x => negb (endswith x ".json")) config_paths ++
              filter (fun x => endswith x ".json") config_paths).
Proof.
  intros config_paths strict. unfold load_config_from_paths.
  now rewrite sorted_by_key_partition.
Qed.

(** ** What a loaded config looks like *)

Lemma load_config_from_file_shape filename strict c :
  load_config_from_file w load_yaml open_read is_blank filename strict = inr c ->
  c = [] \/
  exists config_dict,
    c = dict_set (unpack config_dict EmptyString) _CONFIG_PATH_KEY (VStr (dirname filename)).
Proof.
  unfold load_config_from_file. intros H.
  destruct (if endswith filename ".yml" then Some true
            else if endswith filename ".json" then Some false else None) as [is_yaml|];
    [|discriminate].
  destruct (open_read filename) as [contents| |]; [| |discriminate].
  - destruct (is_blank contents); [left; now inversion H|].
    right. unfold load_config_from_string in H.
    destruct (if is_yaml then load_yaml contents else json_loads w contents) as [v|];
      [|discriminate].
    destruct v; try discriminate. inversion H. eauto.
  - destruct strict; [discriminate|]. left. now inversion H.
Qed.

Lemma load_config_from_file_nodup filename strict c :
  load_config_from_file w load_yaml open_read is_blank filename strict = inr c ->
  NoDup (dict_keys c).
Proof.
  intros H. destruct (load_config_from_file_shape _ _ _ H) as [->|[d ->]]; [constructor|].
  apply nodup_dict_set. apply unpack_value_nodup.
Qed.

(** X16.  A config loaded from a file is either empty (the file is missing and
    the load is not strict, or the file is blank) or flat and tagged: no
    value of it is a mapping, and [_config_path] holds the directory of
    the file. *)
Theorem loaded_config_flat_and_tagged :
  forall (filename : string) (strict : bool) (c : dict),
    load_config_from_file w load_yaml open_read is_blank filename strict = inr c ->
    c = [] \/
    (dict_get _CONFIG_PATH_KEY c = Some (VStr (dirname filename)) /\
     forall k v, dict_get k c = Some v -> is_dict v = false).
Proof.
  intros filename strict c H.
  destruct (load_config_from_file_shape _ _ _ H) as [->|[d ->]]; [now left|]. right.
  split; [apply dict_get_set_same|].
  intros k v Hget. apply dict_get_in in Hget. apply in_dict_set in Hget.
  destruct Hget as [E|Hin]; [now inversion E|].
  exact (proj1 (unpack_value_entries _ _ _ _ Hin)).
Qed.

Lemma load_config_from_file_lenient filename :
  load_config_from_file w load_yaml open_read is_blank filename false <> inl FileNotFoundError.
Proof.
  unfold load_config_from_file.
  destruct (if endswith filename ".yml" then Some true
            else if endswith filename ".json" then Some false else None) as [is_yaml|];
    [|discriminate].
  destruct (open_read filename) as [contents| |]; try discriminate.
  destruct (is_blank contents); [discriminate|].
  unfold load_config_from_string.
  destruct (if is_yaml then load_yaml contents else json_loads w contents) as [v|];
    [|discriminate].
  destruct v; discriminate.
Qed.

(** X17.  A load that is not strict never fails for a missing file. *)
Theorem lenient_load_ignores_missing_files :
  forall (config_paths : list string),
    load_config_from_paths w load_yaml open_read is_blank config_paths false
    <> inl FileNotFoundError.
Proof.
  intros config_paths. unfold load_config_from_paths.
  induction (sorted_by_key _ config_paths) as [|p l IH]; cbn [map_load]; [discriminate|].
  destruct (load_config_from_file w load_yaml open_read is_blank p false) as [e|c] eqn:Hp.
  - intros E. inversion E; subst e. unfold load_config_from_file in Hp.
    destruct (if endswith p ".yml" then Some true
              else if endswith p ".json" then Some false else None) as [is_yaml|];
      [|discriminate].
    destruct (open_read p) as [contents| |]; try discriminate.
    destruct (is_blank contents); [discriminate|].
    unfold load_config_from_string in Hp.
    destruct (if is_yaml then load_yaml contents else json_loads w contents) as [v|];
      [|discriminate].
    destruct v; discriminate.
  - destruct (map_load _ l) as [e|cs]; [exact IH | discriminate].
Qed.

(** ** The defaults of a directory *)

Lemma path_join_suffix a b : startswith b "/" = false -> exists x, path_join a b = x +++ b.
Proof.
  intros H. unfold path_join. rewrite H.
  destruct ((a =? EmptyString)%string || endswith a "/").
  - now exists a.
  - exists (a +++ "/"). now rewrite append_assoc.
Qed.

Lemma defaults_yml_not_json path : endswith (path_join path "defaults.yml") ".json" = false.
Proof.
  destruct (path_join_suffix path "defaults.yml" eq_refl) as [x ->].
  destruct (endswith _ _) eqn:E; [|reflexivity]. exfalso.
  apply endswith_inv in E. destruct E as [a E].
  apply (f_equal (fun s => last (list_ascii_of_string s) "0"%char)) in E.
  rewrite !list_ascii_append, !last_app_nonempty in E by discriminate.
  discriminate E.
Qed.

Lemma defaults_json_is_json path : endswith (path_join path "defaults.json") ".json" = true.
Proof.
  destruct (path_join_suffix path "defaults.json" eq_refl) as [x ->].
  change "defaults.json" with ("defaults" +++ ".json").
  rewrite <- append_assoc. apply endswith_append.
Qed.

(** X18.  [load_config_from_defaults] loads [defaults.yml] and then
    [defaults.json], both as [load_config_from_file] does when it is not
    strict, whatever its own [strict] argument: it never fails for a
    missing file; and when it returns, it returns the two configs in that
    order, and when neither holds a [_meta] key, combining them gives
    every setting of [defaults.json] the value it has there:
    [defaults.json] takes priority. *)
Theorem defaults_json_takes_priority :
  forall (path : string) (strict : bool),
    load_config_from_defaults w load_yaml open_read is_blank path strict
      <> inl FileNotFoundError /\
    forall configs : list dict,
      load_config_from_defaults w load_yaml open_read is_blank path strict = inr configs ->
      exists yml json,
        configs = [yml; json] /\
        load_config_from_file w load_yaml open_read is_blank
          (path_join path "defaults.yml") false = inr yml /\
        load_config_from_file w load_yaml open_read is_blank
          (path_join path "defaults.json") false = inr json /\
        (no_meta_keys yml -> no_meta_keys json ->
         forall key v,
           dict_get key json = Some v ->
           key <> _CONFIG_PATH_KEY -> key <> _NEXT_FREE_INDEX_KEY ->
           exists r, combine_configs w topological_sort configs = OK r /\
                     dict_get key r = Some v).
Proof.
  intros path strict.
  unfold load_config_from_defaults, load_config_from_paths, sorted_by_key.
  cbn [fold_right insert_by_key].
  rewrite defaults_yml_not_json. cbn [implb map_load].
  pose proof (load_config_from_file_lenient (path_join path "defaults.yml")) as Ly.
  pose proof (load_config_from_file_lenient (path_join path "defaults.json")) as Lj.
  destruct (load_config_from_file w load_yaml open_read is_blank
              (path_join path "defaults.yml") false) as [e|yml] eqn:Hyml.
  { split; [congruence | discriminate]. }
  destruct (load_config_from_file w load_yaml open_read is_blank
              (path_join path "defaults.json") false) as [e|json] eqn:Hjson.
  { split; [congruence | discriminate]. }
  split; [discriminate|]. intros configs H.
  inversion H; subst configs. exists yml, json.
  split; [reflexivity|]. split; [reflexivity|]. split; [reflexivity|].
  intros Py Pj key v Hget K1 K2.
  eexists. split; [apply combine_configs_fold; repeat constructor; assumption|].
  rewrite dict_get_remove_internal by assumption. cbn [fold_left].
  rewrite dict_get_update by (eapply load_config_from_file_nodup; eassumption).
  now rewrite Hget.
Qed.

End LoaderFacts.

Lemma loaded_config_flat_and_tagged_witness :
  [("a", VInt 1); ("b", VInt 1); ("_config_path", VStr "/t")] = [] \/
  (dict_get _CONFIG_PATH_KEY [("a", VInt 1); ("b", VInt 1); ("_config_path", VStr "/t")] =
     Some (VStr (dirname "/t/defaults.yml")) /\
   forall k v,
     dict_get k [("a", VInt 1); ("b", VInt 1); ("_config_path", VStr "/t")] = Some v ->
     is_dict v = false).
Proof.
  exact (loaded_config_flat_and_tagged example_world example_load_yaml example_open_read
           example_is_blank "/t/defaults.yml" true
           [("a", VInt 1); ("b", VInt 1); ("_config_path", VStr "/t")] eq_refl).
Defined.

Lemma lenient_load_ignores_missing_files_witness :
  load_config_from_paths example_world example_load_yaml example_open_read example_is_blank
    ["/t/missing.json"; "/t/defaults.yml"] false
  = inr [[("a", VInt 1); ("b", VInt 1); ("_config_path", VStr "/t")]; []] /\
  load_config_from_paths example_world example_load_yaml example_open_read example_is_blank
    ["/t/missing.json"; "/t/defaults.yml"] false
  <> inl FileNotFoundError.
Proof.
  split; [reflexivity|].
  exact (lenient_load_ignores_missing_files example_world example_load_yaml example_open_read
           example_is_blank ["/t/missing.json"; "/t/defaults.yml"]).
Defined.

Lemma defaults_json_takes_priority_witness :
  load_config_from_defaults example_world example_load_yaml example_open_read
    example_is_blank "/u" true = inr [[]; []] /\
  exists r,
    combine_configs example_world kahn_topological_sort
      [ [("a", VInt 1); ("b", VInt 1); ("_config_path", VStr "/t")];
        [("a", VInt 2); ("_config_path", VStr "/t")] ] = OK r /\
    dict_get "a" r = Some (VInt 2).
Proof.
  split; [reflexivity|].
  destruct (proj2 (defaults_json_takes_priority example_world kahn_topological_sort
                     example_load_yaml example_open_read example_is_blank "/t" true)
              [ [("a", VInt 1); ("b", VInt 1); ("_config_path", VStr "/t")];
                [("a", VInt 2); ("_config_path", VStr "/t")] ] eq_refl)
    as [yml [json [E [_ [_ H]]]]].
  inversion E; subst yml json.
  apply H; try discriminate; try reflexivity;
    intros k Hk; simpl in Hk;
    repeat (destruct Hk as [<-|Hk]; [reflexivity|]); contradiction.
Defined.

(** * Substitution *)

Lemma match_var_no_dollar c rest : c <> "$"%char -> match_var (String c rest) = None.
Proof.
  intros H. unfold match_var.
  destruct c as [[] [] [] [] [] [] [] []]; try reflexivity. now contradiction H.
Qed.

Lemma scan_chars pre t :
  Forall (fun c => c <> "$"%char) (list_ascii_of_string pre) ->
  scan 0 (pre +++ t) = map TChar (list_ascii_of_string pre) ++ scan 0 t.
Proof.
  induction pre as [|c pre IH]; cbn [String.append list_ascii_of_string map app]; intros H;
    [reflexivity|].
  inversion H as [|? ? Hc Hpre]; subst. cbn [scan].
  rewrite (match_var_no_dollar _ _ Hc). now rewrite IH.
Qed.

Lemma scan_skip a b : scan (String.length a) (a +++ b) = scan 0 b.
Proof. induction a as [|c a IH]; [reflexivity | exact IH]. Qed.

Lemma scan_reference name rest :
  name <> EmptyString -> forallb is_var_char (list_ascii_of_string name) = true ->
  scan 0 ("${" +++ name +++ "}" +++ rest) = TVar name :: scan 0 rest.
Proof.
  intros Hne Hname.
  assert (Hm : match_var ("${" +++ name +++ "}" +++ rest) = Some name).
  { apply match_var_spec. split; [assumption|]. split; [assumption|]. now exists rest. }
  change ("${" +++ name +++ "}" +++ rest) with (String "$" (String "{" (name +++ "}" +++ rest))) in *.
  remember (String "{" (name +++ "}" +++ rest)) as tail eqn:Etail.
  cbn [scan]. rewrite Hm. f_equal. subst tail.
  replace (String.length name + 2) with (String.length (String "{" (name +++ "}")))
    by (cbn [String.length]; rewrite length_append; cbn [String.length]; lia).
  replace (String "{" (name +++ "}" +++ rest)) with (String "{" (name +++ "}") +++ rest)
    by (change (String "{" (name +++ "}") +++ rest) with (String "{" ((name +++ "}") +++ rest));
        now rewrite append_assoc).
  exact (scan_skip (String "{" (name +++ "}")) rest).
Qed.

Lemma map_result_app {A B : Type} (f : A -> result B) (l1 l2 : list A) :
  map_result f (l1 ++ l2) =
  (a <- map_result f l1 ;; b <- map_result f l2 ;; OK (a ++ b)).
Proof.
  induction l1 as [|x l1 IH]; cbn [app map_result bind].
  - now destruct (map_result f l2).
  - destruct (f x); cbn [bind]; [|reflexivity]. rewrite IH.
    destruct (map_result f l1); cbn [bind]; [|reflexivity].
    now destruct (map_result f l2).
Qed.

Lemma subst_pieces_chars (config_dict : dict) pre :
  map_result (fun t => match t with
                       | TChar c => OK (VStr (String c EmptyString))
                       | TVar name => getitem config_dict name
                       end) (map TChar (list_ascii_of_string pre)) =
  OK (map (fun c => VStr (String c EmptyString)) (list_ascii_of_string pre)).
Proof.
  induction (list_ascii_of_string pre) as [|c l IH]; cbn [map map_result bind]; [reflexivity|].
  now rewrite IH.
Qed.

Lemma join_pieces_chars pre ps :
  join_pieces (map (fun c => VStr (String c EmptyString)) (list_ascii_of_string pre) ++ ps) =
  (t <- join_pieces ps ;; OK (pre +++ t)).
Proof.
  induction pre as [|c pre IH]; cbn [list_ascii_of_string map app join_pieces].
  - now destruct (join_pieces ps).
  - rewrite IH. now destruct (join_pieces ps).
Qed.

(** X19.  What [subst] computes: a string without a dollar sign is left as it
    is; and a reference to a setting that holds a string, after a text
    without a dollar sign, is replaced by that string, the rest of the
    value being substituted in the same way. *)
Theorem subst_action_replaces_references :
  forall (config_dict : dict) (key : string) (params : MetaDirectiveParams),
    (forall s,
       Forall (fun c => c <> "$"%char) (list_ascii_of_string s) ->
       subst_action config_dict key (VStr s) params = OK (dict_set config_dict key (VStr s))) /\
    (forall pre name rest v rest',
       Forall (fun c => c <> "$"%char) (list_ascii_of_string pre) ->
       name <> EmptyString -> forallb is_var_char (list_ascii_of_string name) = true ->
       dict_get name config_dict = Some (VStr v) ->
       subst_action config_dict key (VStr rest) params =
         OK (dict_set config_dict key (VStr rest')) ->
       subst_action config_dict key (VStr (pre +++ "${" +++ name +++ "}" +++ rest)) params =
         OK (dict_set config_dict key (VStr (pre +++ v +++ rest')))).
Proof.
  intros config_dict key params. split.
  - intros s Hs. unfold subst_action, subst_str_dict, subst_pieces, tokens.
    rewrite <- (append_nil_r s) at 1. rewrite (scan_chars s EmptyString Hs).
    cbn [scan]. rewrite app_nil_r, subst_pieces_chars. cbn [bind].
    rewrite <- (app_nil_r (map _ _)), join_pieces_chars. cbn [join_pieces bind].
    now rewrite append_nil_r.
  - intros pre name rest v rest' Hpre Hne Hname Hget Hrest.
    unfold subst_action, subst_str_dict, subst_pieces, tokens in *.
    rewrite (scan_chars pre _ Hpre), (scan_reference name rest Hne Hname).
    rewrite map_result_app, subst_pieces_chars. cbn [bind map_result].
    unfold getitem at 1. rewrite Hget. cbn [bind].
    destruct (map_result _ (scan 0 rest)) as [ps|]; cbn [bind] in *; [|discriminate].
    rewrite join_pieces_chars. cbn [join_pieces].
    destruct (join_pieces ps) as [t|]; cbn [bind] in *; [|discriminate].
    inversion Hrest as [E].
    assert (Et : t = rest').
    { apply (f_equal (dict_get key)) in E. rewrite !dict_get_set_same in E. now inversion E. }
    now rewrite Et.
Qed.

Lemma subst_action_replaces_references_witness :
  subst_action [("home", VStr "/opt")] "bin" (VStr "${home}/bin") {| meta_path := VNull |} =
  OK (dict_set [("home", VStr "/opt")] "bin" (VStr (EmptyString +++ "/opt" +++ "/bin"))).
Proof.
  apply (proj2 (subst_action_replaces_references [("home", VStr "/opt")] "bin"
                  {| meta_path := VNull |}) EmptyString "home" "/bin" "/opt" "/bin").
  - constructor.
  - discriminate.
  - reflexivity.
  - reflexivity.
  - apply (proj1 (subst_action_replaces_references [("home", VStr "/opt")] "bin"
                    {| meta_path := VNull |})).
    repeat constructor; discriminate.
Defined.

(** * The resolution of a lazy meta *)

Lemma meta_append_inj a b : a +++ "_meta" = b +++ "_meta" -> a = b.
Proof.
  intros H. apply (f_equal (drop_end (String.length "_meta"))) in H.
  now rewrite !drop_end_append in H.
Qed.

Section SingleLazy.

Variable w : World.
Variable topological_sort : graph_t -> list string -> result (list string).

(** Re-entering the evaluator on one stored lazy meta runs the action of
    its directive. *)
Lemma combine_one_meta (c : dict) s v name d :
  directive w name = Some d ->
  is_meta_key s = false -> s <> _CONFIG_PATH_KEY ->
  update_and_expand_meta w c (dict_literal [(s, v); (s +++ "_meta", VStr name)]) =
  action d c s v {| meta_path := VStr "unspecified" |}.
Proof.
  intros Hd Hs Hcp.
  assert (N1 : (s =? s +++ "_meta")%string = false)
    by (apply String.eqb_neq; intros E; symmetry in E; now apply meta_neq_self in E).
  assert (N2 : (s +++ "_meta" =? s)%string = false)
    by (apply String.eqb_neq; apply meta_neq_self).
  assert (N3 : (s =? _CONFIG_PATH_KEY)%string = false) by (now apply String.eqb_neq).
  assert (N4 : (s +++ "_meta" =? _CONFIG_PATH_KEY)%string = false).
  { apply String.eqb_neq. apply meta_key_neq; [apply is_meta_key_append | reflexivity]. }
  assert (HP : dict_literal [(s, v); (s +++ "_meta", VStr name)]
               = [(s, v); (s +++ "_meta", VStr name)]).
  { unfold dict_literal, dict_update. cbn [fold_left fst snd dict_set]. now rewrite N1. }
  rewrite HP. unfold update_and_expand_meta, deepdict.
  cbn [dict_keys map fst filter]. rewrite Hs, is_meta_key_append.
  cbn [reduce]. unfold expand_meta_key at 1. rewrite drop_end_append.
  unfold getitem at 1. cbn [dict_get]. rewrite N1, String.eqb_refl. cbn [bind normalise_directives reduce].
  unfold expand_meta_type.
  destruct (directive_name_eager w _ _ Hd) as [Hdyn Hlazy]. rewrite Hdyn, Hlazy, Hd.
  unfold expand_eager_meta. unfold getitem at 1. cbn [dict_get]. rewrite String.eqb_refl.
  cbn [bind]. unfold dict_get_default. cbn [dict_get]. rewrite N3, N4.
  destruct (action d c s v {| meta_path := VStr "unspecified" |}) as [nd|e] eqn:Hact;
    cbn [bind]; [|reflexivity].
  destruct (action_frame w _ _ _ _ _ _ (directive_registered w _ _ Hd) Hact) as [Hmem _].
  unfold getitem at 1. unfold dict_mem in Hmem.
  destruct (dict_get s nd) as [v1|]; [|discriminate]. cbn [bind dict_set].
  rewrite String.eqb_refl. unfold delitem, dict_mem. cbn [dict_get].
  rewrite N1, String.eqb_refl. cbn [bind dict_remove filter fst negb].
  rewrite N1, String.eqb_refl. cbn [negb dict_get]. rewrite String.eqb_refl.
  cbn [bind filter fst]. rewrite String.eqb_refl. reflexivity.
Qed.

(** X20.  When the folded configuration holds one lazy meta, whose directive
    does not read its own setting, [combine_configs] takes the meta and its
    setting out of the configuration and runs the action of the directive
    on what is left, with the value that the setting held and with the
    path [unspecified]; the result, less the internal keys, is the
    combined config. *)
Theorem single_lazy_meta_resolved :
  forall (configs : list dict) (expanded_config : dict) (s name : string)
         (d : MetaDirective) (v : Value) (targets : list string),
    reduce (update_and_expand_meta w) configs [] = OK expanded_config ->
    filter is_meta_key (dict_keys expanded_config) = [s +++ "_meta"] ->
    dict_get (s +++ "_meta") expanded_config = Some (VStr ("lazy" +++ name)) ->
    directive w name = Some d ->
    dict_get s expanded_config = Some v ->
    s <> _CONFIG_PATH_KEY ->
    target_settings d s v = OK targets -> ~ In s targets ->
    topological_sort [(s, ([], []))] [s] = OK [s] ->
    combine_configs w topological_sort configs =
    (final_dict <- action d (dict_remove (dict_remove expanded_config (s +++ "_meta")) s) s v
                     {| meta_path := VStr "unspecified" |} ;;
     OK (remove_internal_keys final_dict)).
Proof.
  intros configs ec s name d v targets Hfold Hkeys Hmeta Hd Hv Hcp Ht Hself Hsort.
  unfold combine_configs. rewrite Hfold. cbn [bind].
  assert (Hs : is_meta_key s = false).
  { destruct (is_meta_key s) eqn:E; [|reflexivity]. exfalso.
    assert (Hin : In s (filter is_meta_key (dict_keys ec))).
    { apply filter_In. split; [|assumption]. apply dict_mem_true_iff.
      unfold dict_mem. now rewrite Hv. }
    rewrite Hkeys in Hin. destruct Hin as [Hin|[]]. now apply meta_neq_self in Hin. }
  assert (N1 : (s +++ "_meta" =? s)%string = false)
    by (apply String.eqb_neq; apply meta_neq_self).
  assert (N2 : (s =? s +++ "_meta")%string = false)
    by (apply String.eqb_neq; intros E; symmetry in E; now apply meta_neq_self in E).
  unfold resolve_lazy, deepdict. rewrite Hkeys. cbn [reduce].
  unfold collect_lazy_meta at 1. rewrite drop_end_append.
  unfold getitem at 1. rewrite Hmeta. cbn [bind].
  unfold assert. rewrite startswith_append. cbn [bind].
  change (drop_str (String.length "lazy") ("lazy" +++ name)) with name.
  unfold getitem at 1. rewrite Hv. cbn [bind]. rewrite Hd. cbn [bind].
  unfold getitem at 1. rewrite Hv. cbn [bind]. rewrite Ht. cbn [bind].
  assert (Hedges : forall g : graph_t,
            reduce (fun graph target_var =>
                      if dict_mem (target_var +++ "_meta") ec
                      then add_edge graph s target_var else OK graph) targets g = OK g).
  { intros g. clear Ht. induction targets as [|t targets IH]; cbn [reduce]; [reflexivity|].
    destruct (dict_mem (t +++ "_meta") ec) eqn:Hm.
    - exfalso. apply Hself. left.
      assert (Hin : In (t +++ "_meta") (filter is_meta_key (dict_keys ec))).
      { apply filter_In. split; [now apply dict_mem_true_iff | apply is_meta_key_append]. }
      rewrite Hkeys in Hin. destruct Hin as [Hin|[]]. now apply meta_append_inj.
    - cbn [bind]. apply IH. intros H. apply Hself. now right. }
  cbn [dict_mem dict_get]. rewrite Hedges. cbn [bind].
  unfold delitem.
  assert (H1 : dict_mem (s +++ "_meta") ec = true) by (unfold dict_mem; now rewrite Hmeta).
  rewrite H1. cbn [bind].
  assert (H2 : dict_mem s (dict_remove ec (s +++ "_meta")) = true).
  { unfold dict_mem. rewrite dict_get_remove_other by apply meta_neq_self. now rewrite Hv. }
  rewrite H2. cbn [bind dict_set]. rewrite N1.
  cbn [dict_set List.length Nat.ltb Nat.leb].
  unfold starting_nodes. cbn [filter snd List.length Nat.eqb map fst sorted fold_right insert_sorted].
  rewrite Hsort. cbn [bind reduce].
  unfold combine_meta, getitem. cbn [dict_get]. rewrite N1, !String.eqb_refl. cbn [bind].
  rewrite (combine_one_meta _ s v name d Hd Hs Hcp).
  now destruct (action d _ s v _).
Qed.

End SingleLazy.

Lemma single_lazy_meta_resolved_witness :
  combine_configs closed_world kahn_topological_sort lazy_configs =
  (final_dict <- action subst_directive
                   (dict_remove (dict_remove
                      [("c", VStr "0"); ("_config_path", VStr "/tmp"); ("a", VStr "${c}");
                       ("a_meta", VStr "lazysubst")] ("a" +++ "_meta")) "a")
                   "a" (VStr "${c}") {| meta_path := VStr "unspecified" |} ;;
   OK (remove_internal_keys final_dict)).
Proof.
  apply (single_lazy_meta_resolved closed_world kahn_topological_sort lazy_configs
           [("c", VStr "0"); ("_config_path", VStr "/tmp"); ("a", VStr "${c}");
            ("a_meta", VStr "lazysubst")]
           "a" "subst" subst_directive (VStr "${c}") ["c"]);
    try reflexivity.
  - discriminate.
  - intros [H|[]]. discriminate.
Defined.

(** * The expansion of an eager meta *)

Lemma dict_remove_set_same {A : Type} (d : list (string * A)) k v :
  dict_remove (dict_set d k v) k = dict_remove d k.
Proof.
  unfold dict_remove. induction d as [|[k' v'] d IH]; cbn [dict_set filter fst].
  - now rewrite String.eqb_refl.
  - destruct (String.eqb_spec k' k) as [->|Hne]; cbn [filter fst].
    + now rewrite String.eqb_refl.
    + destruct (String.eqb_spec k' k); [contradiction|]. cbn [negb]. now rewrite IH.
Qed.

Lemma dict_remove_comm {A : Type} (d : list (string * A)) a b :
  dict_remove (dict_remove d a) b = dict_remove (dict_remove d b) a.
Proof.
  unfold dict_remove. induction d as [|[k v] d IH]; [reflexivity|]. cbn [filter fst].
  destruct (negb (k =? a)%string) eqn:Ea, (negb (k =? b)%string) eqn:Eb;
    cbn [filter fst]; rewrite ?Ea, ?Eb, IH; reflexivity.
Qed.

Section SingleEager.

Variable w : World.

(** X21.  When a provider holds one meta key, with the name of an eager
    directive, the action of the directive runs on the base, before any
    setting of the provider is merged, with the value that the provider
    gives the setting and with the [_config_path] of the provider: the
    setting gets the value that the action gives it on the base, or the
    evaluator raises the error of the action.  For every directive but
    [append], which extends a list in place, the result is the dictionary
    that the action returns with the other settings of the provider
    merged afterwards. *)
Theorem single_eager_meta_expanded :
  forall (config_dict meta_dict : dict) (k name : string) (d : MetaDirective) (v : Value),
    filter is_meta_key (dict_keys meta_dict) = [k +++ "_meta"] ->
    dict_get (k +++ "_meta") meta_dict = Some (VStr name) ->
    directive w name = Some d ->
    dict_get k meta_dict = Some v ->
    let params :=
      {| meta_path := dict_get_default meta_dict _CONFIG_PATH_KEY (VStr "unspecified") |} in
    written k (update_and_expand_meta w config_dict meta_dict) =
      written k (action d config_dict k v params) /\
    (name <> "append" ->
     update_and_expand_meta w config_dict meta_dict =
     (newdict <- action d config_dict k v params ;;
      OK (dict_update newdict (dict_remove (dict_remove meta_dict (k +++ "_meta")) k)))).
Proof.
  intros c p k name d v Hkeys Hmeta Hd Hv params.
  assert (Heq : update_and_expand_meta w c p =
                (newdict <- action d c k v params ;;
                 OK (dict_update newdict (dict_remove (dict_remove p (k +++ "_meta")) k)))).
  { unfold update_and_expand_meta, deepdict. rewrite Hkeys. cbn [reduce].
    unfold expand_meta_key. rewrite drop_end_append.
    unfold getitem at 1. rewrite Hmeta. cbn [bind normalise_directives reduce].
    unfold expand_meta_type.
    destruct (directive_name_eager w _ _ Hd) as [Hdyn Hlazy]. rewrite Hdyn, Hlazy, Hd.
    unfold expand_eager_meta. unfold getitem at 1. rewrite Hv. cbn [bind]. fold params.
    destruct (action d c k v params) as [nd|e] eqn:Hact; cbn [bind]; [|reflexivity].
    destruct (action_frame w _ _ _ _ _ _ (directive_registered w _ _ Hd) Hact) as [Hmem _].
    unfold getitem at 1. unfold dict_mem in Hmem.
    destruct (dict_get k nd) as [v1|]; [|discriminate]. cbn [bind].
    unfold delitem.
    assert (H1 : dict_mem (k +++ "_meta") (dict_set p k v1) = true).
    { unfold dict_mem.
      rewrite dict_get_set_other by (intros E; symmetry in E; now apply meta_neq_self in E).
      now rewrite Hmeta. }
    rewrite H1. cbn [bind].
    assert (H2 : dict_mem k (dict_remove (dict_set p k v1) (k +++ "_meta")) = true).
    { unfold dict_mem. rewrite dict_get_remove_other by apply meta_neq_self.
      now rewrite dict_get_set_same. }
    rewrite H2. cbn [bind].
    now rewrite dict_remove_comm, dict_remove_set_same, dict_remove_comm. }
  split; [|intros _; exact Heq].
  rewrite Heq. unfold written, result_map.
  destruct (action d c k v params) as [nd|e]; cbn [bind]; [|reflexivity].
  rewrite dict_get_update_none; [reflexivity|]. apply dict_get_remove_same.
Qed.

End SingleEager.

Lemma single_eager_meta_expanded_witness :
  update_and_expand_meta closed_world [("base", VStr "old")]
    [("base", VStr "new"); ("greet", VStr "${base}!"); ("greet_meta", VStr "subst")] =
  OK [("base", VStr "new"); ("greet", VStr "old!")] /\
  update_and_expand_meta closed_world [("base", VStr "old")]
    [("base", VStr "new"); ("greet", VStr "${base}!"); ("greet_meta", VStr "subst")] =
  (newdict <- action subst_directive [("base", VStr "old")] "greet" (VStr "${base}!")
                {| meta_path := dict_get_default
                                  [("base", VStr "new"); ("greet", VStr "${base}!");
                                   ("greet_meta", VStr "subst")]
                                  _CONFIG_PATH_KEY (VStr "unspecified") |} ;;
   OK (dict_update newdict
         (dict_remove (dict_remove
            [("base", VStr "new"); ("greet", VStr "${base}!"); ("greet_meta", VStr "subst")]
            ("greet" +++ "_meta")) "greet"))).
Proof.
  split; [reflexivity|].
  apply (proj2 (single_eager_meta_expanded closed_world [("base", VStr "old")]
                  [("base", VStr "new"); ("greet", VStr "${base}!"); ("greet_meta", VStr "subst")]
                  "greet" "subst" subst_directive (VStr "${base}!")
                  eq_refl eq_refl eq_refl eq_refl)).
  discriminate.
Defined.

(** * A lazy meta that reads its own setting *)




Section SelfReference.

Variable w : World.



End SelfReference.



